(** * DresBot: moderation, welcome lifecycle and persisted store

  A shallow embedding of [DresBot.py] and the properties of its
  moderation / welcome core.

  Modelling conventions

  - Python [str] is Rocq [string]; the alphabet is ASCII.  Where a text
    with other characters reaches [int] or [parse_duration], whose answers
    depend on the digits and the white space of Unicode, the run ends in
    [OutsideModel]; so does a run that meets data the model does not carry
    (a store file or a response with a number that is no integer).
  - Python [int] is [Z]; [int] of a text carries the limit of 4300
    digits, and [str] is that of the numbers within this limit.
  - The persisted document [STORE] is a record of finite maps ([gmap]),
    at the shape the program itself writes; a top-level key may be
    missing, which the handlers test for.
  - [timedelta] and [datetime] are counted in microseconds and carry the
    range checks of the [datetime] module ([OverflowError]).
  - A handler is a computation in a state-and-exception monad over a
    [World] (document, blacklist, store file, trace of outbound calls).
    The messaging platform, the clock and the file system answer through
    a [Platform] record whose fields see the trace so far, so that any
    deterministic environment is covered.
  - [reply_text] is an output of the handler: it is recorded in the trace
    and does not fail. *)

From Stdlib Require Import ZArith Lia Ascii String Decimal DecimalString
DecimalFacts DecimalPos DecimalZ.
From stdpp Require Import base tactics option list gmap strings fin_maps.

Local Open Scope Z_scope.

(** ** Text utilities (the [str] methods the program calls) *)

Module Text.

Definition digit_of_char (c : ascii) : option (uint → uint) :=
  match c with
  | "0" => Some D0 | "1" => Some D1 | "2" => Some D2 | "3" => Some D3
  | "4" => Some D4 | "5" => Some D5 | "6" => Some D6 | "7" => Some D7
  | "8" => Some D8 | "9" => Some D9
  | _ => None
  end%char.

Definition is_digit (c : ascii) : bool :=
  match digit_of_char c with Some _ => true | None => false end.

(** [str.isspace] on ASCII, which is also the class [\s] of [re]. *)
Definition is_space (c : ascii) : bool :=
  match c with
  | "009" | "010" | "011" | "012" | "013"
  | "028" | "029" | "030" | "031" | " " => true
  | _ => false
  end%char.

(** [str.lower] on one character. *)
Definition lower_char (c : ascii) : ascii :=
  let n := N_of_ascii c in
  if ((65 <=? n) && (n <=? 90))%N then ascii_of_N (n + 32) else c.

Fixpoint lower (s : string) : string :=
  match s with
  | EmptyString => EmptyString
  | String c r => String (lower_char c) (lower r)
  end.

Fixpoint all_chars (p : ascii → bool) (s : string) : bool :=
  match s with
  | EmptyString => true
  | String c r => p c && all_chars p r
  end.

Fixpoint lstrip (s : string) : string :=
  match s with
  | String c r => if is_space c then lstrip r else s
  | EmptyString => EmptyString
  end.

Fixpoint rstrip (s : string) : string :=
  match s with
  | String c r =>
      match rstrip r with
      | EmptyString => if is_space c then EmptyString else String c EmptyString
      | r' => String c r'
      end
  | EmptyString => EmptyString
  end.

(** [s.strip()] *)
Definition strip (s : string) : string := rstrip (lstrip s).

(** The longest prefix of characters in class [p], and what follows. *)
Fixpoint span (p : ascii → bool) (s : string) : string * string :=
  match s with
  | String c r =>
      if p c then let '(a, b) := span p r in (String c a, b)
      else (EmptyString, s)
  | EmptyString => (EmptyString, EmptyString)
  end.

Definition is_empty (s : string) : bool :=
  match s with EmptyString => true | _ => false end.

(** [s.startswith(p)] *)
Definition startswith (p s : string) : bool := String.prefix p s.

(** [s.endswith(p)] for a one-character [p]. *)
Fixpoint endswith_char (c : ascii) (s : string) : bool :=
  match s with
  | EmptyString => false
  | String d EmptyString => Ascii.eqb c d
  | String _ r => endswith_char c r
  end.

(** [sep.join(l)] *)
Fixpoint join (sep : string) (l : list string) : string :=
  match l with
  | [] => EmptyString
  | [x] => x
  | x :: r => x +:+ sep +:+ join sep r
  end.

Fixpoint drop_chars (n : nat) (s : string) : string :=
  match n, s with
  | S n', String _ r => drop_chars n' r
  | _, _ => s
  end.

(** [s.replace(old, new)] for a non-empty [old]: occurrences are replaced
    from left to right and do not overlap.  [skip] counts the characters
    of an occurrence that are still to be jumped over. *)
Fixpoint replace_from (skip : nat) (old new s : string) : string :=
  match s with
  | EmptyString => EmptyString
  | String c r =>
      match skip with
      | S k => replace_from k old new r
      | O =>
          if String.prefix old s
          then new +:+ replace_from (Nat.pred (String.length old)) old new r
          else String c (replace_from O old new r)
      end
  end.

Definition replace (old new s : string) : string := replace_from O old new s.

(** Decimal digits of a number, most significant first. *)
Fixpoint digits (u : uint) : string :=
  match u with
  | Nil => EmptyString
  | D0 r => String "0" (digits r) | D1 r => String "1" (digits r)
  | D2 r => String "2" (digits r) | D3 r => String "3" (digits r)
  | D4 r => String "4" (digits r) | D5 r => String "5" (digits r)
  | D6 r => String "6" (digits r) | D7 r => String "7" (digits r)
  | D8 r => String "8" (digits r) | D9 r => String "9" (digits r)
  end.

(** Reads the longest run of decimal digits. *)
Fixpoint take_digits (s : string) : uint * string :=
  match s with
  | String c r =>
      match digit_of_char c with
      | Some d => let '(u, r') := take_digits r in (d u, r')
      | None => (Nil, s)
      end
  | EmptyString => (Nil, EmptyString)
  end.

(** [str(n)] for an [int] of at most 4300 decimal digits, which is where
    CPython puts the limit of the conversion; such are the ids that the
    platform hands out and every number that [py_int] reads. *)
Definition str_of_Z (z : Z) : string :=
  match Z.to_int z with
  | Pos u => digits u
  | Neg u => String "-" (digits u)
  end.

(** The digit part of an [int(...)] literal: digits, where a single
    underscore may stand between two digits. *)
Fixpoint int_body (after_digit : bool) (s : string) : option uint :=
  match s with
  | EmptyString => if after_digit then Some Nil else None
  | String c r =>
      match digit_of_char c with
      | Some d => match int_body true r with
                  | Some u => Some (d u) | None => None end
      | None =>
          if Ascii.eqb c "_" && after_digit
          then match r with
               | String c' _ => if is_digit c' then int_body false r else None
               | EmptyString => None
               end
          else None
      end
  end.

(** A text of ASCII characters.  Beyond them the classes of characters
    are those of the Unicode database, which the model does not carry. *)
Definition is_ascii_text (s : string) : bool :=
  all_chars (λ c, (N_of_ascii c <? 128)%N) s.

(** The white space that [int] skips at both ends of an ASCII text:
    [isspace] of the C locale. *)
Definition is_c_space (c : ascii) : bool :=
  match c with
  | "009" | "010" | "011" | "012" | "013" | " " => true
  | _ => false
  end%char.

Fixpoint lstrip_by (p : ascii → bool) (s : string) : string :=
  match s with
  | String c r => if p c then lstrip_by p r else s
  | EmptyString => EmptyString
  end.

Fixpoint rstrip_by (p : ascii → bool) (s : string) : string :=
  match s with
  | String c r =>
      match rstrip_by p r with
      | EmptyString => if p c then EmptyString else String c EmptyString
      | r' => String c r'
      end
  | EmptyString => EmptyString
  end.

(** [sys.get_int_max_str_digits()], as CPython sets it. *)
Definition INT_MAX_STR_DIGITS : nat := 4300.

(** The number of digits of a literal, leading zeros included. *)
Definition digit_count (u : uint) : nat := nb_digits u.

(** The value of the digits of a literal, unless they are more than
    [INT_MAX_STR_DIGITS]. *)
Definition int_of_uint (u : uint) : option Z :=
  if (digit_count u <=? INT_MAX_STR_DIGITS)%nat then Some (Z.of_uint u) else None.

(** [int(s)] for an ASCII text [s]: [None] stands for [ValueError]. *)
Definition py_int (s : string) : option Z :=
  match rstrip_by is_c_space (lstrip_by is_c_space s) with
  | String "-" r => Z.opp <$> (int_body false r ≫= int_of_uint)
  | String "+" r => int_body false r ≫= int_of_uint
  | r => int_body false r ≫= int_of_uint
  end.

End Text.

(** ** The [json] library: [json.dump(..., ensure_ascii=False, indent=2)]
  and [json.load]

  Values are the JSON trees without floating point numbers; a text that
  holds a float, or a [\u] escape above 127, is outside the model and is
  refused by [loads], which refuses the texts that are no JSON as well. *)

Module Json.
Import Text.

#[local] Unset Elimination Schemes.
Inductive json : Type :=
| JNull
| JBool (b : bool)
| JInt (z : Z)
| JStr (s : string)
| JArr (l : list json)
| JObj (l : list (string * json)).
#[local] Set Elimination Schemes.

(** Induction over JSON trees, elements and members included. *)
Fixpoint json_ind' (P : json → Prop)
    (Hnull : P JNull) (Hbool : ∀ b, P (JBool b)) (Hint : ∀ z, P (JInt z))
    (Hstr : ∀ s, P (JStr s))
    (Harr : ∀ l, Forall P l → P (JArr l))
    (Hobj : ∀ l, Forall (λ kv, P kv.2) l → P (JObj l))
    (j : json) {struct j} : P j :=
  match j with
  | JNull => Hnull
  | JBool b => Hbool b
  | JInt z => Hint z
  | JStr s => Hstr s
  | JArr l =>
      Harr l
        ((fix go (l : list json) : Forall P l :=
            match l with
            | [] => @List.Forall_nil _ P
            | x :: r =>
                @List.Forall_cons _ P x r
                  (json_ind' P Hnull Hbool Hint Hstr Harr Hobj x) (go r)
            end) l)
  | JObj l =>
      Hobj l
        ((fix go (l : list (string * json)) : Forall (λ kv, P kv.2) l :=
            match l with
            | [] => @List.Forall_nil _ (λ kv, P kv.2)
            | kv :: r =>
                @List.Forall_cons _ (λ kv, P kv.2) kv r
                  (json_ind' P Hnull Hbool Hint Hstr Harr Hobj kv.2) (go r)
            end) l)
  end.

(** The number of values in a tree, each element and member counted once
    more: the nesting of calls that decoding it takes. *)
Fixpoint jsize (j : json) : nat :=
  match j with
  | JArr l => S (list_sum (map (λ x, S (jsize x)) l))
  | JObj l => S (list_sum (map (λ kv, S (jsize kv.2)) l))
  | _ => 1
  end.

Definition dquote : ascii := "034"%char.
Definition backslash : ascii := "092"%char.
Definition newline : ascii := "010"%char.

Definition hex_char (n : N) : ascii :=
  if (n <? 10)%N then ascii_of_N (48 + n) else ascii_of_N (87 + n).

(** [ESCAPE_DCT] of [json.encoder]. *)
Definition escape_char (c : ascii) : string :=
  let n := N_of_ascii c in
  if Ascii.eqb c dquote then String backslash (String dquote EmptyString)
  else if Ascii.eqb c backslash then String backslash (String backslash EmptyString)
  else if (n =? 8)%N then String backslash "b"
  else if (n =? 12)%N then String backslash "f"
  else if (n =? 10)%N then String backslash "n"
  else if (n =? 13)%N then String backslash "r"
  else if (n =? 9)%N then String backslash "t"
  else if (n <? 32)%N then
    String backslash
      (String "u" (String "0" (String "0"
         (String (hex_char (n / 16)) (String (hex_char (n mod 16)) EmptyString)))))
  else String c EmptyString.

Fixpoint escape (s : string) : string :=
  match s with
  | EmptyString => EmptyString
  | String c r => escape_char c +:+ escape r
  end.

(** [encode_basestring] *)
Definition encode_str (s : string) : string :=
  String dquote (escape s +:+ String dquote EmptyString).

Fixpoint spaces (n : nat) : string :=
  match n with O => EmptyString | S k => String " " (spaces k) end.

(** ['\n' + ' ' * (indent * level)] with [indent = 2]. *)
Definition newline_indent (lvl : nat) : string :=
  String newline (spaces (2 * lvl)).

(** What follows the first element of a non-empty array: the other
    elements, each after [","] and a line break, then the closing
    bracket on a line of its own. *)
Fixpoint encode_items (enc : json → string) (lvl : nat) (l : list json) : string :=
  match l with
  | [] => newline_indent lvl +:+ "]"
  | y :: ys => "," +:+ newline_indent (S lvl) +:+ enc y +:+ encode_items enc lvl ys
  end.

Definition encode_member (enc : json → string) (kv : string * json) : string :=
  encode_str kv.1 +:+ ": " +:+ enc kv.2.

Fixpoint encode_members (enc : json → string) (lvl : nat)
    (l : list (string * json)) : string :=
  match l with
  | [] => newline_indent lvl +:+ "}"
  | kv :: r =>
      "," +:+ newline_indent (S lvl) +:+ encode_member enc kv
        +:+ encode_members enc lvl r
  end.

(** [_iterencode] at nesting level [lvl]. *)
Fixpoint encode (lvl : nat) (j : json) {struct j} : string :=
  match j with
  | JNull => "null"
  | JBool true => "true"
  | JBool false => "false"
  | JInt z => str_of_Z z
  | JStr s => encode_str s
  | JArr [] => "[]"
  | JArr (x :: xs) =>
      "[" +:+ newline_indent (S lvl) +:+ encode (S lvl) x
        +:+ encode_items (encode (S lvl)) lvl xs
  | JObj [] => "{}"
  | JObj (kv :: r) =>
      "{" +:+ newline_indent (S lvl) +:+ encode_member (encode (S lvl)) kv
        +:+ encode_members (encode (S lvl)) lvl r
  end.

(** [json.dumps(j, ensure_ascii=False, indent=2)] *)
Definition dumps (j : json) : string := encode 0 j.

(** *** Decoding *)

Definition is_ws (c : ascii) : bool :=
  match c with
  | " " | "009" | "010" | "013" => true
  | _ => false
  end%char.

Fixpoint skip_ws (s : string) : string :=
  match s with
  | String c r => if is_ws c then skip_ws r else s
  | EmptyString => EmptyString
  end.

Definition hex_val (c : ascii) : option N :=
  let n := N_of_ascii c in
  if ((48 <=? n) && (n <=? 57))%N then Some (n - 48)%N
  else if ((97 <=? n) && (n <=? 102))%N then Some (n - 87)%N
  else if ((65 <=? n) && (n <=? 70))%N then Some (n - 55)%N
  else None.

Definition hex4 (a b c d : ascii) : option N :=
  match hex_val a, hex_val b, hex_val c, hex_val d with
  | Some x, Some y, Some z, Some w => Some (((x * 16 + y) * 16 + z) * 16 + w)%N
  | _, _, _, _ => None
  end.

Definition cons_char (c : ascii) (r : option (string * string))
    : option (string * string) :=
  match r with Some (s, rest) => Some (String c s, rest) | None => None end.

(** [scanstring] in strict mode, from just after the opening quote. *)
Fixpoint scanstring (s : string) : option (string * string) :=
  match s with
  | EmptyString => None
  | String c r =>
      if Ascii.eqb c dquote then Some (EmptyString, r)
      else if Ascii.eqb c backslash then
        match r with
        | String e r' =>
            if Ascii.eqb e dquote then cons_char dquote (scanstring r')
            else if Ascii.eqb e backslash then cons_char backslash (scanstring r')
            else if Ascii.eqb e "/" then cons_char "/" (scanstring r')
            else if Ascii.eqb e "b" then cons_char "008" (scanstring r')
            else if Ascii.eqb e "f" then cons_char "012" (scanstring r')
            else if Ascii.eqb e "n" then cons_char "010" (scanstring r')
            else if Ascii.eqb e "r" then cons_char "013" (scanstring r')
            else if Ascii.eqb e "t" then cons_char "009" (scanstring r')
            else if Ascii.eqb e "u" then
              match r' with
              | String h1 (String h2 (String h3 (String h4 r''))) =>
                  match hex4 h1 h2 h3 h4 with
                  | Some n =>
                      if (n <? 128)%N
                      then cons_char (ascii_of_N n) (scanstring r'')
                      else None
                  | None => None
                  end
              | _ => None
              end
            else None
        | EmptyString => None
        end
      else if (N_of_ascii c <? 32)%N then None
      else cons_char c (scanstring r)
  end.

(** A JSON integer: an optional minus sign, then either a single zero
    or a non-zero digit followed by digits. *)
Definition scan_int (s : string) : option (Z * string) :=
  let '(neg, body) :=
    match s with
    | String "-" r => (true, r)
    | _ => (false, s)
    end in
  match body with
  | String "0" r => Some (0, r)
  | String c _ =>
      if is_digit c
      then let '(u, r) := take_digits body in
           Some (if neg then - Z.of_uint u else Z.of_uint u, r)
      else None
  | EmptyString => None
  end.

(** [scan_once], [JSONArray] and [JSONObject].  [fuel] bounds the number
    of nested calls; the length of the text is always enough. *)
Fixpoint parse_value (fuel : nat) (s : string) : option (json * string) :=
  match fuel with
  | O => None
  | S fuel =>
      match s with
      | String "n" (String "u" (String "l" (String "l" r))) => Some (JNull, r)
      | String "t" (String "r" (String "u" (String "e" r))) => Some (JBool true, r)
      | String "f" (String "a" (String "l" (String "s" (String "e" r)))) =>
          Some (JBool false, r)
      | String "034" r =>
          match scanstring r with
          | Some (str, r') => Some (JStr str, r')
          | None => None
          end
      | String "[" r =>
          match skip_ws r with
          | String "]" r' => Some (JArr [], r')
          | r1 =>
              match parse_elems fuel r1 with
              | Some (l, r') => Some (JArr l, r')
              | None => None
              end
          end
      | String "{" r =>
          match skip_ws r with
          | String "}" r' => Some (JObj [], r')
          | r1 =>
              match parse_members fuel r1 with
              | Some (l, r') => Some (JObj l, r')
              | None => None
              end
          end
      | _ =>
          match scan_int s with
          | Some (z, r) => Some (JInt z, r)
          | None => None
          end
      end
  end
with parse_elems (fuel : nat) (s : string) : option (list json * string) :=
  match fuel with
  | O => None
  | S fuel =>
      match parse_value fuel s with
      | Some (v, r) =>
          match skip_ws r with
          | String "]" r' => Some ([v], r')
          | String "," r' =>
              match parse_elems fuel (skip_ws r') with
              | Some (l, r'') => Some (v :: l, r'')
              | None => None
              end
          | _ => None
          end
      | None => None
      end
  end
with parse_members (fuel : nat) (s : string)
    : option (list (string * json) * string) :=
  match fuel with
  | O => None
  | S fuel =>
      match s with
      | String "034" r =>
          match scanstring r with
          | Some (k, r1) =>
              match skip_ws r1 with
              | String ":" r2 =>
                  match parse_value fuel (skip_ws r2) with
                  | Some (v, r3) =>
                      match skip_ws r3 with
                      | String "}" r' => Some ([(k, v)], r')
                      | String "," r' =>
                          match parse_members fuel (skip_ws r') with
                          | Some (l, r'') => Some ((k, v) :: l, r'')
                          | None => None
                          end
                      | _ => None
                      end
                  | None => None
                  end
              | _ => None
              end
          | None => None
          end
      | _ => None
      end
  end.

(** [json.loads]: one value between optional white space, nothing after. *)
Definition loads (s : string) : option json :=
  match parse_value (String.length s) (skip_ws s) with
  | Some (j, r) => if is_empty (skip_ws r) then Some j else None
  | None => None
  end.

End Json.


(** ** The persisted document *)

Import Text Json.

(** One chat's welcome configuration, as [setwelcome_cmd] writes it. *)
Record WelcomeConfig := {
  message : string;
  channel_link : option string;
  last_welcome_message_id : option Z;
}.

(** The document [STORE]: the keys [welcomes] and [warns], each of which
    may be missing.  Chats and targets are keyed by [str(id)]. *)
Record Document := {
  welcomes : option (gmap string WelcomeConfig);
  warns : option (gmap string (gmap string Z));
}.

(** [{"welcomes": {}, "warns": {}}] *)
Definition empty_document : Document :=
  {| welcomes := Some ∅; warns := Some ∅ |}.

Definition set_welcomes (ws : option (gmap string WelcomeConfig)) (d : Document) : Document :=
  {| welcomes := ws; warns := warns d |}.

Definition set_warns (ws : option (gmap string (gmap string Z))) (d : Document) : Document :=
  {| welcomes := welcomes d; warns := ws |}.

Definition set_last_welcome_message_id (i : option Z) (c : WelcomeConfig) : WelcomeConfig :=
  {| message := message c; channel_link := channel_link c;
     last_welcome_message_id := i |}.

(** *** The document as a JSON tree, and back *)

Definition json_of_opt_str (o : option string) : json :=
  match o with Some s => JStr s | None => JNull end.

Definition json_of_opt_int (o : option Z) : json :=
  match o with Some z => JInt z | None => JNull end.

Definition json_of_config (c : WelcomeConfig) : json :=
  JObj [("message", JStr (message c));
        ("channel_link", json_of_opt_str (channel_link c));
        ("last_welcome_message_id", json_of_opt_int (last_welcome_message_id c))].

Definition json_of_dict {A} (f : A → json) (m : gmap string A) : json :=
  JObj (prod_map id f <$> map_to_list m).

Definition json_of_document (d : Document) : json :=
  JObj (match welcomes d with
        | Some w => [("welcomes", json_of_dict json_of_config w)]
        | None => []
        end ++
        match warns d with
        | Some w => [("warns", json_of_dict (json_of_dict JInt) w)]
        | None => []
        end).

(** The [dict] that [json.load] builds from the members of an object: a
    key that occurs twice keeps its last value. *)
Definition py_dict (l : list (string * json)) : gmap string json :=
  list_to_map (reverse l).

Definition config_of_json (j : json) : option WelcomeConfig :=
  match j with
  | JObj l =>
      let d := py_dict l in
      m ← match d !! "message" with
           | None => Some EmptyString
           | Some (JStr s) => Some s
           | Some _ => None
           end;
      c ← match d !! "channel_link" with
           | None | Some JNull => Some None
           | Some (JStr s) => Some (Some s)
           | Some _ => None
           end;
      i ← match d !! "last_welcome_message_id" with
           | None | Some JNull => Some None
           | Some (JInt z) => Some (Some z)
           | Some _ => None
           end;
      Some {| message := m; channel_link := c; last_welcome_message_id := i |}
  | _ => None
  end.

Definition int_of_json (j : json) : option Z :=
  match j with JInt z => Some z | _ => None end.

(** A [dict] of values of one shape: every value has to have that shape. *)
Definition dict_of_json {A} (f : json → option A) (j : json) : option (gmap string A) :=
  match j with
  | JObj l =>
      let d := py_dict l in
      if decide (map_Forall (λ _ v, is_Some (f v)) d) then Some (omap f d) else None
  | _ => None
  end.

Definition document_of_json (j : json) : option Document :=
  match j with
  | JObj l =>
      let d := py_dict l in
      w ← match d !! "welcomes" with
           | None => Some None
           | Some jw => Some <$> dict_of_json config_of_json jw
           end;
      n ← match d !! "warns" with
           | None => Some None
           | Some jn => Some <$> dict_of_json (dict_of_json int_of_json) jn
           end;
      Some {| welcomes := w; warns := n |}
  | _ => None
  end.

(** ** Exceptions *)

(** The classes of exception that occur.  [OutsideModel] is not a Python
    exception: it ends a run that leaves the part of the program's data the
    model covers (a store file of another shape than the program writes, a
    text beyond ASCII where the classes of its characters matter). *)
Inductive ExnClass :=
| OverflowError | AttributeError | TypeError | ValueError | KeyError
| OutsideModel.

(** An exception: its class, which decides what catches it, and its text. *)
Record Exn := { exn_class : ExnClass; exn_text : string }.

(** ** [timedelta] and [datetime] *)

(** A span of time in microseconds. *)
Definition timedelta := Z.

Definition US_PER_SECOND : Z := 1000000.
Definition US_PER_DAY : Z := 86400 * US_PER_SECOND.

(** [timedelta.max.days] *)
Definition MAX_DELTA_DAYS : Z := 999999999.

(** The largest [int] of C. *)
Definition C_INT_MAX : Z := 2147483647.

(** The constructor normalises to days, seconds and microseconds and
    refuses a number of days beyond [MAX_DELTA_DAYS]; the text of the
    exception is another when the days do not fit an [int] of C. *)
Definition new_timedelta (us : Z) : Exn + timedelta :=
  let days := us / US_PER_DAY in
  if (- MAX_DELTA_DAYS <=? days) && (days <=? MAX_DELTA_DAYS) then inr us
  else if (- C_INT_MAX - 1 <=? days) && (days <=? C_INT_MAX) then
    inl {| exn_class := OverflowError;
           exn_text := "days=" +:+ str_of_Z days
                       +:+ "; must have magnitude <= 999999999" |}
  else
    inl {| exn_class := OverflowError;
           exn_text := "Python int too large to convert to C int" |}.

Definition timedelta_seconds (val : Z) : Exn + timedelta :=
  new_timedelta (val * US_PER_SECOND).
Definition timedelta_minutes (val : Z) : Exn + timedelta :=
  new_timedelta (val * 60 * US_PER_SECOND).
Definition timedelta_hours (val : Z) : Exn + timedelta :=
  new_timedelta (val * 3600 * US_PER_SECOND).
Definition timedelta_days (val : Z) : Exn + timedelta :=
  new_timedelta (val * US_PER_DAY).

(** [bool(td)] *)
Definition timedelta_truthy (td : timedelta) : bool := negb (td =? 0).

(** A point in time: microseconds since 0001-01-01T00:00:00 UTC. *)
Definition datetime := Z.

(** [datetime.max]: 9999-12-31T23:59:59.999999, day number 3652059. *)
Definition DATETIME_MAX : Z := 3652059 * US_PER_DAY - 1.

(** [dt + td] *)
Definition datetime_add (dt : datetime) (td : timedelta) : Exn + datetime :=
  let r := dt + td in
  if (0 <=? r) && (r <=? DATETIME_MAX) then inr r
  else inl {| exn_class := OverflowError; exn_text := "date value out of range" |}.

(** ** Utilities *)

(** The unit words of the pattern in [parse_duration]. *)
Definition DURATION_UNITS : list string :=
  ["s"; "sec"; "secs"; "second"; "seconds";
   "m"; "min"; "mins"; "minute"; "minutes";
   "h"; "hr"; "hrs"; "hour"; "hours";
   "d"; "day"; "days"].

(** [re.match] of the pattern of [parse_duration] on an ASCII text that
    [strip] and [lower] have seen: digits, optional white space, an
    optional unit word, the end.  The three classes of characters
    are disjoint, so the longest runs are the only candidates.  Returns the
    groups 1 and 2. *)
Definition duration_re_match (s0 : string) : option (string * option string) :=
  let '(ds, r) := span is_digit s0 in
  if is_empty ds then None
  else
    let '(_, u) := span is_space r in
    if is_empty u then Some (ds, None)
    else if bool_decide (u ∈ DURATION_UNITS) then Some (ds, Some u)
    else None.

(** The value of a run of digits. *)
Definition int_of_digits (ds : string) : Z := Z.of_uint (take_digits ds).1.

(** [int(m.group(1))] on a run of digits: [ValueError] when they are more
    than [INT_MAX_STR_DIGITS]. *)
Definition int_of_group (ds : string) : Exn + Z :=
  if (String.length ds <=? INT_MAX_STR_DIGITS)%nat then inr (int_of_digits ds)
  else
    inl {| exn_class := ValueError;
           exn_text :=
             "Exceeds the limit (4300 digits) for integer string conversion: value has "
             +:+ str_of_Z (Z.of_nat (String.length ds))
             +:+ " digits; use sys.set_int_max_str_digits() to increase the limit" |}.

(** A text beyond ASCII, where the model has no answer. *)
Definition beyond_ascii : Exn :=
  {| exn_class := OutsideModel; exn_text := "text beyond ASCII" |}.

(** [return timedelta(...)]: the value, unless the constructor raises. *)
Definition returning (r : Exn + timedelta) : Exn + option timedelta :=
  match r with inr td => inr (Some td) | inl e => inl e end.

(** [parse_duration] on ASCII texts.  On a text beyond ASCII the white
    space and the digits of [strip], [lower], [\s], [\d] and [int] are those
    of Unicode, and the run leaves the model. *)
Definition parse_duration (s : option string) : Exn + option timedelta :=
  match s with
  | None => inr None
  | Some s =>
      if is_empty s then inr None
      else if negb (is_ascii_text s) then inl beyond_ascii
      else
        let s0 := lower (strip s) in
        match duration_re_match s0 with
        | None => inr None
        | Some (g1, unit) =>
            match int_of_group g1 with
            | inl e => inl e
            | inr val =>
                returning
                  match unit with
                  | None => timedelta_seconds val
                  | Some unit =>
                      if startswith "s" unit then timedelta_seconds val
                      else if startswith "m" unit then timedelta_minutes val
                      else if startswith "h" unit then timedelta_hours val
                      else if startswith "d" unit then timedelta_days val
                      else timedelta_seconds val
                  end
            end
        end
  end.

(** ** DuckDuckGo helper

    [duckduckgo_search] sends the request and reads the body as JSON; when
    any of this raises it answers that DuckDuckGo cannot be reached.
    Otherwise it picks the answer from the data, outside of the [try]: it
    raises when the data are no object, and what it returns is whatever the
    data hold.  [response] is the data, [None] when the request part raised.
    The model follows the data as DuckDuckGo sends them: related topics that
    are not a list of objects are outside of it. *)

(** [bool(x)] of a JSON value. *)
Definition truthy_json (j : json) : bool :=
  match j with
  | JNull => false
  | JBool b => b
  | JInt z => negb (z =? 0)
  | JStr s => negb (is_empty s)
  | JArr l => match l with [] => false | _ => true end
  | JObj kvs => match kvs with [] => false | _ => true end
  end.

(** [type(x).__name__] *)
Definition type_name (j : json) : string :=
  match j with
  | JNull => "NoneType"
  | JBool _ => "bool"
  | JInt _ => "int"
  | JStr _ => "str"
  | JArr _ => "list"
  | JObj _ => "dict"
  end.

Definition NO_RESULTS : string := "No results found.".
Definition UNREACHABLE : string := "Sorry, I couldn't reach DuckDuckGo.".

(** [data.get(key)] for a [dict] with the members [kvs]. *)
Definition data_get (kvs : list (string * json)) (key : string) : json :=
  default JNull (py_dict kvs !! key).

Definition foreign_topics : Exn :=
  {| exn_class := OutsideModel;
     exn_text := "related topics of a foreign shape" |}.

(** [t["Text"]] if ["Text" in t], for one topic. *)
Definition topic_title (t : json) : Exn + option json :=
  match t with
  | JObj kvs => inr (py_dict kvs !! "Text")
  | _ => inl foreign_topics
  end.

(** [[t["Text"] for t in topics if "Text" in t]] *)
Fixpoint topic_titles (topics : list json) : Exn + list json :=
  match topics with
  | [] => inr []
  | t :: rest =>
      match topic_title t with
      | inl e => inl e
      | inr title =>
          match topic_titles rest with
          | inl e => inl e
          | inr titles =>
              inr (match title with Some v => v :: titles | None => titles end)
          end
      end
  end.

(** The texts of [titles], as [str.join] wants them; [i] is the index of
    the first of them. *)
Fixpoint join_items (i : Z) (titles : list json) : Exn + list string :=
  match titles with
  | [] => inr []
  | JStr s :: rest =>
      match join_items (i + 1) rest with
      | inl e => inl e
      | inr l => inr (s :: l)
      end
  | v :: _ =>
      inl {| exn_class := TypeError;
             exn_text := "sequence item " +:+ str_of_Z i
                         +:+ ": expected str instance, " +:+ type_name v
                         +:+ " found" |}
  end.

(** [duckduckgo_search(query)] once the request is answered. *)
Definition duckduckgo_answer (response : option json) : Exn + json :=
  match response with
  | None => inr (JStr UNREACHABLE)
  | Some (JObj kvs) =>
      if truthy_json (data_get kvs "Answer") then inr (data_get kvs "Answer")
      else if truthy_json (data_get kvs "AbstractText")
      then inr (data_get kvs "AbstractText")
      else
        let topics := data_get kvs "RelatedTopics" in
        if truthy_json topics then
          match topics with
          | JArr topics =>
              match topic_titles topics with
              | inl e => inl e
              | inr titles =>
                  match join_items 0 (take 3 titles) with
                  | inl e => inl e
                  | inr texts =>
                      let joined := join " | " texts in
                      inr (JStr (if is_empty joined then NO_RESULTS else joined))
                  end
              end
          | _ => inl foreign_topics
          end
        else inr (JStr NO_RESULTS)
  | Some data =>
      inl {| exn_class := AttributeError;
             exn_text := "'" +:+ type_name data
                         +:+ "' object has no attribute 'get'" |}
  end.

(** What the request of [duckduckgo_search] comes to: an exception of
    [get], [raise_for_status] or [json]; the document of the response; or a
    document beyond the JSON of the model (one with a number that is no
    integer). *)
Inductive Response :=
  | RequestFailed
  | ResponseData (data : json)
  | ForeignData.

Definition foreign_data : Exn :=
  {| exn_class := OutsideModel;
     exn_text := "response beyond the JSON of the model" |}.

(** [duckduckgo_search(query)], given what its request comes to. *)
Definition duckduckgo_search (response : Response) : Exn + json :=
  match response with
  | RequestFailed => duckduckgo_answer None
  | ResponseData data => duckduckgo_answer (Some data)
  | ForeignData => inl foreign_data
  end.

(** ** [ChatPermissions] compatibility *)

(** A [ChatPermissions] object: the flags that were given a value. *)
Definition ChatPermissions := gmap string bool.

(** What the installed [telegram] package answers about [ChatPermissions]:
    the parameter names [inspect.signature] reports ([None] when it
    raises), and the keyword names the constructor takes. *)
Record TelegramLib := {
  signature_parameters : option (gset string);
  init_parameters : gset string;
}.

Definition CANONICAL_PERMS : gmap string bool :=
  list_to_map
    [("can_send_messages", false);
     ("can_send_media_messages", false);
     ("can_send_polls", false);
     ("can_send_other_messages", false);
     ("can_add_web_page_previews", false);
     ("can_change_info", false);
     ("can_invite_users", false);
     ("can_pin_messages", false)].

(** [default_perms] of [unmute_cmd]. *)
Definition default_perms : gmap string bool :=
  list_to_map
    [("can_send_messages", true);
     ("can_send_media_messages", true);
     ("can_send_polls", true);
     ("can_send_other_messages", true);
     ("can_add_web_page_previews", true);
     ("can_change_info", false);
     ("can_invite_users", true);
     ("can_pin_messages", false)].

(** The constructor of [ChatPermissions], called with keyword arguments:
    a keyword it does not know is a [TypeError]. *)
Definition ChatPermissions_init (lib : TelegramLib) (kwargs : gmap string bool)
    : Exn + ChatPermissions :=
  if decide (dom kwargs ⊆ init_parameters lib) then inr kwargs
  else inl {| exn_class := TypeError;
              exn_text := "__init__() got an unexpected keyword argument" |}.

Definition alt_map : gmap string string :=
  {[ "can_send_media_messages" := "can_send_other_messages" ]}.

(** The dictionary [alt] of the fallback: a flag with an alias in [alt_map]
    is passed under the alias, unless [perms] has the alias already. *)
Definition remap_media (perms : gmap string bool) : gmap string bool :=
  map_fold
    (λ k v (alt : gmap string bool),
       match alt_map !! k with
       | Some k' =>
           if bool_decide (perms !! k' = None)
           then <[k' := v]> alt else <[k := v]> alt
       | None => <[k := v]> alt
       end) ∅ perms.

Definition make_chat_permissions_from_dict (lib : TelegramLib)
    (perms : gmap string bool) : Exn + ChatPermissions :=
  match signature_parameters lib with
  | Some valid_params =>
      let accepted := filter (λ kv, kv.1 ∈ valid_params) perms in
      match ChatPermissions_init lib accepted with
      | inr p => inr p
      | inl _ => (* final fallback *) ChatPermissions_init lib ∅
      end
  | None =>
      (* fallback try direct construction *)
      match ChatPermissions_init lib perms with
      | inr p => inr p
      | inl e =>
          match exn_class e with
          | TypeError =>
              (* map media -> other if needed *)
              let alt := remap_media perms in
              match ChatPermissions_init lib alt with
              | inr p => inr p
              | inl _ => ChatPermissions_init lib ∅
              end
          | _ => inl e
          end
      end
  end.

Definition build_full_mute_permissions (lib : TelegramLib) : Exn + ChatPermissions :=
  make_chat_permissions_from_dict lib CANONICAL_PERMS.

(** ** Telegram objects *)

(** A user.  [mention_html] is the result of [user.mention_html()], [None]
    when the call raises; [full_name] is [None] when the attribute is
    missing. *)
Record User := {
  user_id : Z;
  mention_html : option string;
  full_name : option string;
}.

Record Chat := { chat_id : Z }.

(** The message a message replies to. *)
Record RepliedMessage := {
  from_user : User;
  replied_text : option string;
}.

Record Message := {
  reply_to_message : option RepliedMessage;
  text : option string;
  new_chat_members : list User;
}.

Record Update := {
  effective_user : option User;
  effective_chat : option Chat;
  effective_message : Message;
  update_message : option Message;
}.

(** [context.args] *)
Record Context := { args : list string }.

(** A [ChatMember]; a capability is [None] when the object has no such
    attribute (or holds [None]). *)
Record ChatMember := {
  status : string;
  can_restrict_members : option bool;
  can_delete_messages : option bool;
}.

(** [bool(getattr(member, name, False))] *)
Definition flag (o : option bool) : bool := default false o.

(** ** The environment *)

(** An outbound call of a handler, with its arguments. *)
Inductive Call :=
| GetChatMember (chat user : Z)
| ReplyText (text : string)
| BanChatMember (chat user : Z) (until_date : option datetime)
| UnbanChatMember (chat user : Z)
| RestrictChatMember (chat user : Z) (permissions : ChatPermissions)
    (until_date : option datetime)
| DeleteMessage (chat message_id : Z)
| SendMessage (chat : Z) (text : string) (parse_mode : option string)
| DuckDuckGo (query : string).

(** What writing the store file does: it succeeds, or it fails and leaves
    the file in some state. *)
Inductive WriteResult :=
| Written
| WriteFailed (left_behind : option string).

(** The answers of the environment.  Each answer may depend on the calls
    made so far.  A call of the bot API that can fail answers with the
    text of the exception. *)
Record Platform := {
  BOT_ADMINS : gset Z;
  telegram_lib : TelegramLib;
  get_chat_member : list Call → Z → Z → option ChatMember;
  ban_chat_member : list Call → Z → Z → option datetime → option string;
  unban_chat_member : list Call → Z → Z → option string;
  restrict_chat_member :
    list Call → Z → Z → ChatPermissions → option datetime → option string;
  delete_message : list Call → Z → Z → option string;
  send_message : list Call → Z → string → option string → string + Z;
  duckduckgo_response : list Call → string → Response;
  IP_QUERY_RE_search : string → bool;
  now_utc : list Call → datetime;
  write_file : list Call → string → WriteResult;
  read_file_ok : list Call → bool;
}.

(** The state of the process and of its surroundings. *)
Record World := {
  STORE : Document;
  BLACKLIST : gset Z;
  STORE_FILE : option string;
  calls : list Call;
}.

Definition set_STORE (d : Document) (w : World) : World :=
  {| STORE := d; BLACKLIST := BLACKLIST w; STORE_FILE := STORE_FILE w;
     calls := calls w |}.
Definition set_BLACKLIST (b : gset Z) (w : World) : World :=
  {| STORE := STORE w; BLACKLIST := b; STORE_FILE := STORE_FILE w;
     calls := calls w |}.
Definition set_STORE_FILE (f : option string) (w : World) : World :=
  {| STORE := STORE w; BLACKLIST := BLACKLIST w; STORE_FILE := f;
     calls := calls w |}.
Definition add_call (c : Call) (w : World) : World :=
  {| STORE := STORE w; BLACKLIST := BLACKLIST w; STORE_FILE := STORE_FILE w;
     calls := calls w ++ [c] |}.

(** ** Handlers as computations *)

(** A computation ends with a value or with an exception, in a new world. *)
Definition M (A : Type) : Type := World → (Exn + A) * World.

Definition ret {A} (a : A) : M A := λ w, (inr a, w).

Definition raise {A} (e : Exn) : M A := λ w, (inl e, w).

Definition bind {A B} (m : M A) (k : A → M B) : M B :=
  λ w, match m w with
       | (inr a, w') => k a w'
       | (inl e, w') => (inl e, w')
       end.

Declare Scope handler_scope.
Delimit Scope handler_scope with handler.
Bind Scope handler_scope with M.
Notation "'let*' x := c 'in' k" := (bind c (λ x, k))
  (at level 10, x name, c at level 100, k at level 200) : handler_scope.
Notation "c ;; k" := (bind c (λ _, k))
  (at level 100, k at level 200, right associativity) : handler_scope.
Local Open Scope handler_scope.

Definition lift {A} (r : Exn + A) : M A :=
  match r with inr a => ret a | inl e => raise e end.

Definition get_STORE : M Document := λ w, (inr (STORE w), w).
Definition put_STORE (d : Document) : M unit := λ w, (inr tt, set_STORE d w).
Definition get_BLACKLIST : M (gset Z) := λ w, (inr (BLACKLIST w), w).
Definition put_BLACKLIST (b : gset Z) : M unit := λ w, (inr tt, set_BLACKLIST b w).

(** [for x in l: body(x)] *)
Fixpoint for_each {A} (l : list A) (body : A → M unit) : M unit :=
  match l with
  | [] => ret tt
  | x :: r => body x ;; for_each r body
  end.

(** [None.attr] *)
Definition none_has_no_attribute {A} (attr : string) : M A :=
  raise {| exn_class := AttributeError;
           exn_text := "'NoneType' object has no attribute '" +:+ attr +:+ "'" |}.

(** [reply_text(ans)] for an answer of DuckDuckGo that is no text: what the
    platform makes of it is outside the model. *)
Definition reply_no_text : Exn :=
  {| exn_class := OutsideModel; exn_text := "reply with a value that is no text" |}.

(** [int(a)] under [try] for an argument of a command: the number, [None]
    when [int] raises.  An argument beyond ASCII that [py_int] does not
    read may still be a number for [int], which knows the digits and the
    white space of Unicode: the run leaves the model. *)
Definition int_of_arg (a : string) : M (option Z) :=
  match py_int a with
  | Some n => ret (Some n)
  | None => if is_ascii_text a then ret None else raise beyond_ascii
  end.

Section Handlers.

Variable pf : Platform.

(** *** Outbound calls *)

Definition call {A} (answer : list Call → A) (c : Call) : M A :=
  λ w, (inr (answer (calls w)), add_call c w).

(** [await update.effective_message.reply_text(text)] *)
Definition reply_text (text : string) : M unit :=
  call (λ _, tt) (ReplyText text).

Definition bot_get_chat_member (chat user : Z) : M (option ChatMember) :=
  call (λ h, get_chat_member pf h chat user) (GetChatMember chat user).

Definition bot_ban_chat_member (chat user : Z) (until_date : option datetime)
    : M (option string) :=
  call (λ h, ban_chat_member pf h chat user until_date)
       (BanChatMember chat user until_date).

Definition bot_unban_chat_member (chat user : Z) : M (option string) :=
  call (λ h, unban_chat_member pf h chat user) (UnbanChatMember chat user).

Definition bot_restrict_chat_member (chat user : Z) (permissions : ChatPermissions)
    (until_date : option datetime) : M (option string) :=
  call (λ h, restrict_chat_member pf h chat user permissions until_date)
       (RestrictChatMember chat user permissions until_date).

Definition bot_delete_message (chat message_id : Z) : M (option string) :=
  call (λ h, delete_message pf h chat message_id) (DeleteMessage chat message_id).

Definition bot_send_message (chat : Z) (text : string) (parse_mode : option string)
    : M (string + Z) :=
  call (λ h, send_message pf h chat text parse_mode) (SendMessage chat text parse_mode).

(** [duckduckgo_search(query)] in a handler: the request is the
    environment's, the choice of the answer is the function's.  The function
    may raise, and what it returns need not be a text. *)
Definition duckduckgo (query : string) : M json :=
  let* response := call (λ h, duckduckgo_response pf h query) (DuckDuckGo query) in
  lift (duckduckgo_search response).

(** [datetime.now(timezone.utc)] *)
Definition datetime_now : M datetime :=
  λ w, (inr (now_utc pf (calls w)), w).

(** *** Persistent store helpers *)

(** [load_store()].  A file that cannot be read gives the empty document,
    and so does a file that holds nothing but white space.  Another text
    that [loads] refuses may still be JSON for the library (a float, an
    escape above 127): the run leaves the model. *)
Definition load_store : M Document :=
  λ w,
    match STORE_FILE w with
    | None => (inr empty_document, w)
    | Some content =>
        if read_file_ok pf (calls w) then
          match loads content with
          | Some j =>
              match document_of_json j with
              | Some d => (inr d, w)
              | None =>
                  (inl {| exn_class := OutsideModel;
                          exn_text := "store file of a foreign shape" |}, w)
              end
          | None =>
              if is_empty (skip_ws content) then (inr empty_document, w)
              else
                (inl {| exn_class := OutsideModel;
                        exn_text := "store file beyond the JSON of the model" |}, w)
          end
        else (inr empty_document, w)
    end.

Definition save_store (store : Document) : M unit :=
  λ w,
    let content := dumps (json_of_document store) in
    match write_file pf (calls w) content with
    | Written => (inr tt, set_STORE_FILE (Some content) w)
    | WriteFailed left_behind => (inr tt, set_STORE_FILE left_behind w)
    end.

(** [STORE = load_store()] at start-up. *)
Definition startup : M unit :=
  let* d := load_store in put_STORE d.

(** *** DuckDuckGo helper *)

Definition is_ip_query (text : option string) : bool :=
  match text with
  | Some t => negb (is_empty t) && IP_QUERY_RE_search pf t
  | None => false
  end.

(** *** Admin helpers *)

Definition is_bot_owner (user_id : Z) : bool :=
  bool_decide (user_id ∈ BOT_ADMINS pf).

Definition is_chat_admin (chat_id user_id : Z) : M bool :=
  let* member := bot_get_chat_member chat_id user_id in
  match member with
  | Some member =>
      ret (bool_decide (status member ∈ ["administrator"; "creator"]))
  | None => ret false
  end.

Definition check_issuer_permission (update : Update) (need : string) : M bool :=
  match effective_user update, effective_chat update with
  | Some user, Some chat =>
      let* member := bot_get_chat_member (chat_id chat) (user_id user) in
      match member with
      | None =>
          reply_text "Failed to fetch your chat permissions.";;
          ret false
      | Some member =>
          if bool_decide (status member = "creator") then ret true
          else if bool_decide (status member ≠ "administrator") then
            reply_text "You must be a chat admin to use this command.";;
            ret false
          else
            let can_restrict := flag (can_restrict_members member) in
            let can_delete := flag (can_delete_messages member) in
            if bool_decide (need ∈ ["ban"; "kick"; "mute"]) && negb can_restrict then
              reply_text "You don't have permission to restrict/ban members (can_restrict_members).";;
              ret false
            else if bool_decide (need = "delete") && negb can_delete then
              reply_text "You don't have permission to delete messages (can_delete_messages).";;
              ret false
            else ret true
      end
  | _, _ =>
      reply_text "Unable to determine user/chat.";;
      ret false
  end.

(** [update.effective_user.id] and [update.effective_chat.id] *)
Definition effective_user_id (update : Update) : M Z :=
  match effective_user update with
  | Some user => ret (user_id user)
  | None => none_has_no_attribute "id"
  end.

Definition effective_chat_id (update : Update) : M Z :=
  match effective_chat update with
  | Some chat => ret (chat_id chat)
  | None => none_has_no_attribute "id"
  end.

(** *** Command handlers *)

Definition start (update : Update) (context : Context) : M unit :=
  reply_text "Hi! I am a DuckDuckGo web search and group moderation bot created by DresOS.".

Definition search_cmd (update : Update) (context : Context) : M unit :=
  let* user_id := effective_user_id update in
  let* blacklist := get_BLACKLIST in
  if bool_decide (user_id ∈ blacklist) then ret tt
  else
    match args context with
    | [] => reply_text "Usage: /search <query>"
    | _ =>
        let query := join " " (args context) in
        if is_ip_query (Some query) then
          reply_text "I’m not allowed to share IP address information."
        else
          let* ans := duckduckgo query in
          match ans with
          | JStr ans => reply_text ans
          | _ => raise reply_no_text
          end
    end.

Definition blacklist_cmd (update : Update) (context : Context) : M unit :=
  let* requester := effective_user_id update in
  if negb (is_bot_owner requester) then
    reply_text "You are not authorized to use this command."
  else
    match args context with
    | [] => reply_text "Usage: /blacklist <user_id>"
    | a :: _ =>
        let* uid := int_of_arg a in
        match uid with
        | None => reply_text "User id must be integer."
        | Some uid =>
            let* blacklist := get_BLACKLIST in
            put_BLACKLIST ({[uid]} ∪ blacklist);;
            reply_text ("User " +:+ str_of_Z uid +:+ " blacklisted.")
        end
    end.

Definition unblacklist_cmd (update : Update) (context : Context) : M unit :=
  let* requester := effective_user_id update in
  if negb (is_bot_owner requester) then
    reply_text "You are not authorized to use this command."
  else
    match args context with
    | [] => reply_text "Usage: /unblacklist <user_id>"
    | a :: _ =>
        let* uid := int_of_arg a in
        match uid with
        | None => reply_text "User id must be integer."
        | Some uid =>
            let* blacklist := get_BLACKLIST in
            put_BLACKLIST (blacklist ∖ {[uid]});;
            reply_text ("User " +:+ str_of_Z uid +:+ " removed from blacklist.")
        end
    end.

Definition list_blacklist_cmd (update : Update) (context : Context) : M unit :=
  let* requester := effective_user_id update in
  if negb (is_bot_owner requester) then
    reply_text "You are not authorized to use this command."
  else
    let* blacklist := get_BLACKLIST in
    if bool_decide (blacklist ≠ ∅) then
      reply_text ("Blacklist: " +:+ join ", " (str_of_Z <$> elements blacklist))
    else reply_text "Blacklist empty.".

(** The target of a command, as [kick_cmd], [ban_cmd], [unban_cmd],
    [unmute_cmd] and [warn_cmd] each find it, with their own [usage] text:
    the author of the message replied to, else the first argument read as
    an integer.  [None]: the handler has replied and returns. *)
Definition resolve_target (usage : string) (update : Update) (context : Context)
    : M (option Z) :=
  match reply_to_message (effective_message update) with
  | Some replied => ret (Some (user_id (from_user replied)))
  | None =>
      match args context with
      | a :: _ =>
          let* target := int_of_arg a in
          match target with
          | Some target => ret (Some target)
          | None =>
              reply_text "Provide numeric user id or reply.";;
              ret None
          end
      | [] =>
          reply_text usage;;
          ret None
      end
  end.

(** Kick *)
Definition kick_cmd (update : Update) (context : Context) : M unit :=
  let* ok := check_issuer_permission update "kick" in
  if negb ok then ret tt
  else
    let* target := resolve_target "Usage: /kick <user_id or reply>" update context in
    match target with
    | None => ret tt
    | Some target =>
        let* chat := effective_chat_id update in
        let* failed := bot_ban_chat_member chat target None in
        match failed with
        | Some e => reply_text ("Failed to kick: " +:+ e)
        | None =>
            let* failed := bot_unban_chat_member chat target in
            match failed with
            | Some e => reply_text ("Failed to kick: " +:+ e)
            | None => reply_text ("Kicked " +:+ str_of_Z target +:+ ".")
            end
        end
    end.

(** Ban/unban *)
Definition ban_cmd (update : Update) (context : Context) : M unit :=
  let* ok := check_issuer_permission update "ban" in
  if negb ok then ret tt
  else
    let* target :=
      resolve_target "Usage: /ban <user_id or reply> [duration]" update context in
    match target with
    | None => ret tt
    | Some target =>
        let* until :=
          match args context with
          | _ :: a1 :: _ =>
              let* dur := lift (parse_duration (Some a1)) in
              match dur with
              | Some dur =>
                  if timedelta_truthy dur then
                    let* now := datetime_now in
                    let* t := lift (datetime_add now dur) in
                    ret (Some t)
                  else ret None
              | None => ret None
              end
          | _ => ret None
          end in
        let* chat := effective_chat_id update in
        let* failed := bot_ban_chat_member chat target until in
        match failed with
        | Some e => reply_text ("Failed to ban: " +:+ e)
        | None => reply_text ("Banned " +:+ str_of_Z target +:+ ".")
        end
    end.

Definition unban_cmd (update : Update) (context : Context) : M unit :=
  let* ok := check_issuer_permission update "ban" in
  if negb ok then ret tt
  else
    let* target := resolve_target "Usage: /unban <user_id or reply>" update context in
    match target with
    | None => ret tt
    | Some target =>
        let* chat := effective_chat_id update in
        let* failed := bot_unban_chat_member chat target in
        match failed with
        | Some e => reply_text ("Failed to unban: " +:+ e)
        | None => reply_text ("Unbanned " +:+ str_of_Z target +:+ ".")
        end
    end.

(** Mute/unmute *)
Definition mute_cmd (update : Update) (context : Context) : M unit :=
  let* ok := check_issuer_permission update "mute" in
  if negb ok then ret tt
  else
    let* resolved :=
      match reply_to_message (effective_message update) with
      | Some replied =>
          ret (Some (user_id (from_user replied), head (args context)))
      | None =>
          match args context with
          | [] =>
              reply_text ("Usage: /mute <duration> (reply) OR /mute <user_id> <duration>"
                          +:+ String "010" "Examples: 10m, 2h");;
              ret None
          | [_] =>
              reply_text "Reply to a user's message and use /mute <duration>, or use /mute <user_id> <duration>.";;
              ret None
          | a0 :: a1 :: _ =>
              let* target := int_of_arg a0 in
              match target with
              | Some target => ret (Some (target, Some a1))
              | None =>
                  reply_text "Provide a numeric user id or reply.";;
                  ret None
              end
          end
      end in
    match resolved with
    | None => ret tt
    | Some (target, dur_arg) =>
        let* dur := lift (parse_duration dur_arg) in
        match dur with
        | Some dur =>
            if timedelta_truthy dur then
              let* now := datetime_now in
              let* until := lift (datetime_add now dur) in
              let* perms := lift (build_full_mute_permissions (telegram_lib pf)) in
              let* chat := effective_chat_id update in
              let* failed := bot_restrict_chat_member chat target perms (Some until) in
              match failed with
              | Some e => reply_text ("Failed to mute: " +:+ e)
              | None =>
                  reply_text ("Muted " +:+ str_of_Z target +:+ " for "
                              +:+ default EmptyString dur_arg +:+ ".")
              end
            else reply_text "Invalid duration. Examples: 10m, 2h"
        | None => reply_text "Invalid duration. Examples: 10m, 2h"
        end
    end.

Definition unmute_cmd (update : Update) (context : Context) : M unit :=
  let* ok := check_issuer_permission update "mute" in
  if negb ok then ret tt
  else
    let* target := resolve_target "Usage: /unmute <user_id or reply>" update context in
    match target with
    | None => ret tt
    | Some target =>
        match make_chat_permissions_from_dict (telegram_lib pf) default_perms with
        | inl e => reply_text ("Failed to unmute: " +:+ exn_text e)
        | inr perms =>
            let* chat := effective_chat_id update in
            let* failed := bot_restrict_chat_member chat target perms None in
            match failed with
            | Some e => reply_text ("Failed to unmute: " +:+ e)
            | None => reply_text ("Unmuted " +:+ str_of_Z target +:+ ".")
            end
        end
    end.

(** Warn *)
Definition warn_cmd (update : Update) (context : Context) : M unit :=
  let* ok := check_issuer_permission update "kick" in
  if negb ok then ret tt
  else
    let* target := resolve_target "Usage: /warn <user_id or reply>" update context in
    match target with
    | None => ret tt
    | Some target =>
        let* chat := effective_chat_id update in
        let chat_key := str_of_Z chat in
        let* store := get_STORE in
        (* STORE.setdefault("warns", {}); STORE["warns"].setdefault(chat_key, {}) *)
        let all_warns := default ∅ (warns store) in
        let chat_warns := default ∅ (all_warns !! chat_key) in
        let count := default 0 (chat_warns !! str_of_Z target) + 1 in
        put_STORE
          (set_warns
             (Some (<[chat_key := <[str_of_Z target := count]> chat_warns]> all_warns))
             store);;
        let* store := get_STORE in
        save_store store;;
        reply_text ("Warned " +:+ str_of_Z target +:+ " (" +:+ str_of_Z count
                    +:+ " total).")
    end.

(** [l.index(x)] when [x] is in [l]. *)
Fixpoint list_index (x : string) (l : list string) : option nat :=
  match l with
  | [] => None
  | y :: r => if bool_decide (x = y) then Some O else S <$> list_index x r
  end.

(** [s.strip()] of [reply_to_message.text], when there is a non-empty one. *)
Definition replied_text_of (update : Update) : option string :=
  match reply_to_message (effective_message update) with
  | Some replied =>
      match replied_text replied with
      | Some t => if is_empty t then None else Some (strip t)
      | None => None
      end
  | None => None
  end.

(** Welcome config *)
Definition setwelcome_cmd (update : Update) (context : Context) : M unit :=
  let* chat := effective_chat_id update in
  let* user := effective_user_id update in
  let* ok := is_chat_admin chat user in
  if negb ok then reply_text "You must be a chat admin to set welcome message."
  else
    match args context, reply_to_message (effective_message update) with
    | [], None =>
        reply_text "Usage: /setwelcome <text> [--channel <link>]. Use {user_mention} in text."
    | _, _ =>
        let '(channel_link, args) :=
          match list_index "--channel" (args context) with
          | Some i =>
              match args context !! S i with
              | Some link => (Some link, take i (args context) ++ drop (i + 2)%nat (args context))
              | None => (None, args context)
              end
          | None => (None, args context)
          end in
        let text := strip (join " " args) in
        let text :=
          if is_empty text
          then default text (replied_text_of update)
          else text in
        if is_empty text then reply_text "No welcome text provided."
        else
          let chat_key := str_of_Z chat in
          let* store := get_STORE in
          put_STORE
            (set_welcomes
               (Some (<[chat_key := {| message := text;
                                       channel_link := channel_link;
                                       last_welcome_message_id := None |}]>
                        (default ∅ (welcomes store))))
               store);;
          let* store := get_STORE in
          save_store store;;
          reply_text "Welcome message saved for this chat."
    end.

Definition clearwelcome_cmd (update : Update) (context : Context) : M unit :=
  let* chat := effective_chat_id update in
  let* user := effective_user_id update in
  let* ok := is_chat_admin chat user in
  if negb ok then reply_text "You must be a chat admin to clear welcome."
  else
    let chat_key := str_of_Z chat in
    let* store := get_STORE in
    match welcomes store with
    | Some ws =>
        match ws !! chat_key with
        | Some _ =>
            put_STORE (set_welcomes (Some (delete chat_key ws)) store);;
            let* store := get_STORE in
            save_store store;;
            reply_text "Welcome cleared."
        | None => reply_text "No welcome configured."
        end
    | None => reply_text "No welcome configured."
    end.

Definition NL : string := String "010" EmptyString.

Definition help_cmd (update : Update) (context : Context) : M unit :=
  let help_text :=
    "Commands:" +:+ NL +:+
    "/search <query>" +:+ NL +:+
    "/kick <user_id or reply>" +:+ NL +:+
    "/ban <user_id or reply> [duration]" +:+ NL +:+
    "/unban <user_id or reply>" +:+ NL +:+
    "/mute <duration> (reply) OR /mute <user_id> <duration>" +:+ NL +:+
    "/unmute <user_id or reply>" +:+ NL +:+
    "/warn <user_id or reply>" +:+ NL +:+
    "/setwelcome <text> [--channel <link>] (use {user_mention})" +:+ NL +:+
    "/clearwelcome" +:+ NL in
  reply_text help_text.

(** Welcome handler *)

(** [bool(x)] for an optional text and an optional message id. *)
Definition truthy_str (o : option string) : bool :=
  match o with Some s => negb (is_empty s) | None => false end.
Definition truthy_int (o : option Z) : bool :=
  match o with Some z => negb (z =? 0) | None => false end.

(** The text of one welcome message. *)
Definition welcome_text (template : string) (channel : option string) (mention : string)
    : string :=
  let text := replace "{user_mention}" mention template in
  if truthy_str channel then
    let text := if endswith_char "010" text then text else text +:+ NL in
    text +:+ NL +:+ "Channel: " +:+ default EmptyString channel
  else text.

(** The body of the loop over the new members. *)
Definition welcome_member (chat : Z) (chat_key template : string)
    (channel : option string) (last_msg_id : option Z) (member : User) : M unit :=
  (* Build mention safely *)
  let '(mention, parse_mode) :=
    match mention_html member with
    | Some m => (m, Some "HTML")
    | None => (default (str_of_Z (user_id member)) (full_name member), None)
    end in
  let text := welcome_text template channel mention in
  (* Try to delete the previous welcome message (if we have its id) *)
  (if truthy_int last_msg_id
   then bot_delete_message chat (default 0 last_msg_id);; ret tt
   else ret tt);;
  (* Send the welcome message *)
  let* sent := bot_send_message chat text parse_mode in
  match sent with
  | inr message_id =>
      (* store id *)
      let* store := get_STORE in
      match welcomes store with
      | Some ws =>
          match ws !! chat_key with
          | Some cfg =>
              put_STORE
                (set_welcomes
                   (Some (<[chat_key := set_last_welcome_message_id (Some message_id) cfg]> ws))
                   store);;
              let* store := get_STORE in
              save_store store
          | None => ret tt
          end
      | None => ret tt
      end
  | inl _ => ret tt
  end.

Definition welcome_handler (update : Update) (context : Context) : M unit :=
  match update_message update with
  | None => ret tt
  | Some msg =>
      match new_chat_members msg with
      | [] => ret tt
      | new_members =>
          match effective_chat update with
          | None => ret tt
          | Some chat =>
              let chat_key := str_of_Z (chat_id chat) in
              let* store := get_STORE in
              match welcomes store with
              | None => ret tt
              | Some ws =>
                  match ws !! chat_key with
                  | None => ret tt
                  | Some cfg =>
                      let template := message cfg in
                      let channel := channel_link cfg in
                      let last_msg_id := last_welcome_message_id cfg in
                      for_each new_members
                        (welcome_member (chat_id chat) chat_key template channel
                           last_msg_id)
                  end
              end
          end
      end
  end.

(** Misc *)
Definition block_ip_handler (update : Update) (context : Context) : M unit :=
  if truthy_str (text (effective_message update))
     && is_ip_query (text (effective_message update))
  then reply_text "I’m not allowed to share IP address information."
  else ret tt.

Definition ignore_non_commands (update : Update) (context : Context) : M unit :=
  ret tt.

(** *** Main: the handlers as [main] registers them *)

(** What an update is routed as. *)
Inductive Route :=
| Command (name : string)
| NewChatMembers
| PlainText.

Definition handle (route : Route) (update : Update) (context : Context) : M unit :=
  match route with
  | Command name =>
      if bool_decide (name = "start") then start update context
      else if bool_decide (name = "search") then search_cmd update context
      else if bool_decide (name = "blacklist") then blacklist_cmd update context
      else if bool_decide (name = "unblacklist") then unblacklist_cmd update context
      else if bool_decide (name = "list_blacklist") then list_blacklist_cmd update context
      else if bool_decide (name = "kick") then kick_cmd update context
      else if bool_decide (name = "ban") then ban_cmd update context
      else if bool_decide (name = "unban") then unban_cmd update context
      else if bool_decide (name = "mute") then mute_cmd update context
      else if bool_decide (name = "unmute") then unmute_cmd update context
      else if bool_decide (name = "warn") then warn_cmd update context
      else if bool_decide (name = "setwelcome") then setwelcome_cmd update context
      else if bool_decide (name = "clearwelcome") then clearwelcome_cmd update context
      else if bool_decide (name = "help") then help_cmd update context
      else ret tt
  | NewChatMembers => welcome_handler update context
  | PlainText =>
      block_ip_handler update context;;
      ignore_non_commands update context
  end.

End Handlers.

(** ** Observing a run *)

(** The calls a run made, given the world it started from. *)
Definition new_calls {A} (w : World) (r : (Exn + A) * World) : list Call :=
  drop (length (calls w)) (calls r.2).

(** The warn counter of a target in a chat, by their keys; [None] when the
    document holds none. *)
Definition warn_counter (d : Document) (chat_key target_key : string) : option Z :=
  ws ← warns d; cw ← ws !! chat_key; cw !! target_key.

(** The welcome configuration of a chat. *)
Definition welcome_config (d : Document) (chat_key : string) : option WelcomeConfig :=
  ws ← welcomes d; ws !! chat_key.

(** ** A sample environment

    Every call of the bot API succeeds, the issuer has the given member
    record, a sent message gets a fresh id, the file system works. *)

Definition sample_lib : TelegramLib :=
  {| signature_parameters := Some (dom CANONICAL_PERMS);
     init_parameters := dom CANONICAL_PERMS |}.

Definition sample_platform (member : option ChatMember) : Platform :=
  {| BOT_ADMINS := {[ 1 ]};
     telegram_lib := sample_lib;
     get_chat_member := λ _ _ _, member;
     ban_chat_member := λ _ _ _ _, None;
     unban_chat_member := λ _ _ _, None;
     restrict_chat_member := λ _ _ _ _ _, None;
     delete_message := λ _ _ _, None;
     send_message := λ h _ _ _, inr (100 + Z.of_nat (length h));
     duckduckgo_response := λ _ _, ResponseData (JObj []);
     IP_QUERY_RE_search := λ _, false;
     now_utc := λ _, 63900000000 * US_PER_SECOND;
     write_file := λ _ _, Written;
     read_file_ok := λ _, true |}.

Definition sample_admin : ChatMember :=
  {| status := "administrator";
     can_restrict_members := Some true;
     can_delete_messages := Some false |}.

Definition sample_user (i : Z) : User :=
  {| user_id := i; mention_html := None; full_name := Some "Ann" |}.

Definition sample_message : Message :=
  {| reply_to_message := None; text := None; new_chat_members := [] |}.

(** An update from user 7 in chat 5. *)
Definition sample_update : Update :=
  {| effective_user := Some (sample_user 7);
     effective_chat := Some {| chat_id := 5 |};
     effective_message := sample_message;
     update_message := Some sample_message |}.

(** The same update, as a reply to a message of user 9. *)
Definition sample_reply_update : Update :=
  {| effective_user := Some (sample_user 7);
     effective_chat := Some {| chat_id := 5 |};
     effective_message :=
       {| reply_to_message :=
            Some {| from_user := sample_user 9; replied_text := Some "hello" |};
          text := None; new_chat_members := [] |};
     update_message := None |}.

(** Users 20 and 21 join chat 5. *)
Definition sample_join (members : list User) : Update :=
  {| effective_user := None;
     effective_chat := Some {| chat_id := 5 |};
     effective_message :=
       {| reply_to_message := None; text := None; new_chat_members := members |};
     update_message :=
       Some {| reply_to_message := None; text := None; new_chat_members := members |} |}.

Definition sample_world : World :=
  {| STORE := empty_document; BLACKLIST := {[ 7 ]}; STORE_FILE := None; calls := [] |}.

(** The target that [resolve_target] finds, if any. *)
Definition target_of (update : Update) (context : Context) : option Z :=
  match reply_to_message (effective_message update) with
  | Some replied => Some (user_id (from_user replied))
  | None =>
      match args context with
      | a :: _ => py_int a
      | [] => None
      end
  end.

(** The world after [n] runs of a handler in a row. *)
Fixpoint after_runs (n : nat) (h : M unit) (w : World) : World :=
  match n with
  | O => w
  | S k => (h (after_runs k h w)).2
  end.

(** The six moderation commands. *)
Inductive Moderation := Kick | Ban | Unban | Mute | Unmute | Warn.

#[global] Instance Moderation_eq_dec : EqDecision Moderation.
Proof. solve_decision. Defined.

Definition moderation_handler (pf : Platform) (m : Moderation)
    : Update → Context → M unit :=
  match m with
  | Kick => kick_cmd pf
  | Ban => ban_cmd pf
  | Unban => unban_cmd pf
  | Mute => mute_cmd pf
  | Unmute => unmute_cmd pf
  | Warn => warn_cmd pf
  end.

(** The user a call of the bot API restricts or releases, if it is such a
    call. *)
Definition call_target (c : Call) : option Z :=
  match c with
  | BanChatMember _ user _ | UnbanChatMember _ user
  | RestrictChatMember _ user _ _ => Some user
  | _ => None
  end.

(** What [mute_cmd] finds: the target and the duration argument. *)
Definition mute_target_of (update : Update) (context : Context)
    : option (Z * option string) :=
  match reply_to_message (effective_message update) with
  | Some replied => Some (user_id (from_user replied), head (args context))
  | None =>
      match args context with
      | a0 :: a1 :: _ => (λ target, (target, Some a1)) <$> py_int a0
      | _ => None
      end
  end.

(** The usage texts. *)
Definition usage_text (m : Moderation) : string :=
  match m with
  | Kick => "Usage: /kick <user_id or reply>"
  | Ban => "Usage: /ban <user_id or reply> [duration]"
  | Unban => "Usage: /unban <user_id or reply>"
  | Mute => "Usage: /mute <duration> (reply) OR /mute <user_id> <duration>"
            +:+ String "010" "Examples: 10m, 2h"
  | Unmute => "Usage: /unmute <user_id or reply>"
  | Warn => "Usage: /warn <user_id or reply>"
  end.

Definition not_numeric_text (m : Moderation) : string :=
  match m with
  | Mute => "Provide a numeric user id or reply."
  | _ => "Provide numeric user id or reply."
  end.

Definition MUTE_AMBIGUOUS : string :=
  "Reply to a user's message and use /mute <duration>, or use /mute <user_id> <duration>.".

(** ** The grammar of durations, in the words of the specification

    An integer magnitude, optionally followed by a unit word; white space
    may surround the text and separate magnitude and unit. *)

Record DurationText := {
  lead : string;
  magnitude : string;
  gap : string;
  unit_word : string;
  trail : string;
}.

Definition duration_string (t : DurationText) : string :=
  lead t +:+ magnitude t +:+ gap t +:+ unit_word t +:+ trail t.

Definition duration_grammar (t : DurationText) : Prop :=
  all_chars is_space (lead t) = true
  ∧ all_chars is_digit (magnitude t) = true
  ∧ magnitude t ≠ EmptyString
  ∧ all_chars is_space (gap t) = true
  ∧ all_chars is_space (trail t) = true
  ∧ (unit_word t = EmptyString ∨ lower (unit_word t) ∈ DURATION_UNITS).

(** The span of one unit: the first letter of the unit word selects
    seconds, minutes, hours or days, in either case; no unit word means
    seconds. *)
Definition unit_span (unit : string) : Z :=
  match lower unit with
  | String "m" _ => 60 * US_PER_SECOND
  | String "h" _ => 3600 * US_PER_SECOND
  | String "d" _ => US_PER_DAY
  | _ => US_PER_SECOND
  end.

(** The span the specification assigns to a text of the grammar. *)
Definition duration_span (t : DurationText) : Z :=
  int_of_digits (magnitude t) * unit_span (unit_word t).

(** A span that [timedelta] can hold. *)
Definition timedelta_range (us : Z) : Prop :=
  - MAX_DELTA_DAYS ≤ us / US_PER_DAY ≤ MAX_DELTA_DAYS.

(** ** The calls of a join event

    What [welcome_handler] sends does not depend on the answers it gets:
    per new member, the deletion of the message whose id was stored when
    the event arrived (when there is one), then the welcome. *)

(** Text and parse mode of the welcome for one member. *)
Definition welcome_rendering (template : string) (channel : option string)
    (member : User) : string * option string :=
  match mention_html member with
  | Some m => (welcome_text template channel m, Some "HTML")
  | None =>
      (welcome_text template channel
         (default (str_of_Z (user_id member)) (full_name member)), None)
  end.

Definition welcome_deletion (chat : Z) (last_msg_id : option Z) : list Call :=
  if truthy_int last_msg_id then [DeleteMessage chat (default 0 last_msg_id)]
  else [].

Definition welcome_send (chat : Z) (template : string) (channel : option string)
    (member : User) : Call :=
  SendMessage chat (welcome_rendering template channel member).1
    (welcome_rendering template channel member).2.

Definition welcome_calls (chat : Z) (template : string) (channel : option string)
    (last_msg_id : option Z) (member : User) : list Call :=
  welcome_deletion chat last_msg_id ++ [welcome_send chat template channel member].

(** The id stored after the members have been welcomed: the id of the last
    welcome the platform accepted, else the id stored before.  [h] is the
    trace when the loop starts. *)
Fixpoint welcome_pointer (pf : Platform) (chat : Z) (template : string)
    (channel : option string) (last_msg_id : option Z) (h : list Call)
    (members : list User) (pointer : option Z) : option Z :=
  match members with
  | [] => pointer
  | member :: rest =>
      let h1 := h ++ welcome_deletion chat last_msg_id in
      let pointer1 :=
        match send_message pf h1 chat
                (welcome_rendering template channel member).1
                (welcome_rendering template channel member).2 with
        | inr message_id => Some message_id
        | inl _ => pointer
        end in
      welcome_pointer pf chat template channel last_msg_id
        (h1 ++ [welcome_send chat template channel member]) rest pointer1
  end.

(** Whether a call sends a message to the chat. *)
Definition is_send (c : Call) : bool :=
  match c with SendMessage _ _ _ => true | _ => false end.

(** * Notions of the statements *)

(** The record of the issuer, as the platform gives it when the check runs
    in world [w]. *)
Definition issuer_record (pf : Platform) (user : User) (chat : Chat) (w : World)
    : option ChatMember :=
  get_chat_member pf (calls w) (chat_id chat) (user_id user).

(** The lookup of the issuer. *)
Definition lookup_call (user : User) (chat : Chat) : Call :=
  GetChatMember (chat_id chat) (user_id user).



(** The library knows all eight flags by their canonical names. *)
Definition knows_canonical_flags (lib : TelegramLib) : Prop :=
  dom CANONICAL_PERMS ⊆ init_parameters lib
  ∧ match signature_parameters lib with
    | Some valid_params => dom CANONICAL_PERMS ⊆ valid_params
    | None => True
    end.





(** The issuer is an administrator or the creator of the chat whenever the
    platform is asked. *)
Definition always_admin (pf : Platform) (chat user : Z) : Prop :=
  ∀ h, ∃ member,
    get_chat_member pf h chat user = Some member
    ∧ status member ∈ ["administrator"; "creator"].

(** A computation that leaves the document as it is. *)
Definition keeps_store {A} (m : M A) : Prop :=
  ∀ w, STORE (m w).2 = STORE w.

(** Started with document [d], the computation ends with a document that
    [d] is related to. *)
Definition store_from (R : Document → Document → Prop) {A} (d : Document)
    (m : M A) : Prop :=
  ∀ w, STORE w = d → R d (STORE (m w).2).

(** The platform reports the issuer as the creator, or as an administrator
    who can restrict members, whenever it is asked. *)
Definition may_restrict (pf : Platform) (chat user : Z) : Prop :=
  ∀ h, ∃ member,
    get_chat_member pf h chat user = Some member
    ∧ (status member = "creator"
       ∨ (status member = "administrator"
          ∧ flag (can_restrict_members member) = true)).

(** The document after a warning of target key [tk] in chat key [ck]. *)
Definition warned (ck tk : string) (d : Document) : Document :=
  let all_warns := default ∅ (warns d) in
  let chat_warns := default ∅ (all_warns !! ck) in
  set_warns
    (Some (<[ck := <[tk := default 0 (chat_warns !! tk) + 1]> chat_warns]> all_warns))
    d.

(** No warn counter of [d] is missing or smaller in [d']. *)
Definition warns_grow (d d' : Document) : Prop :=
  ∀ ck tk n, warn_counter d ck tk = Some n →
    ∃ m, warn_counter d' ck tk = Some m ∧ n ≤ m.

(** A computation under which the warn counters only grow. *)
Definition warns_safe {A} (m : M A) : Prop :=
  ∀ d, store_from warns_grow d m.

(** The computation only adds calls, and each call it adds satisfies [P]. *)
Definition calls_all {A} (P : Call → Prop) (m : M A) : Prop :=
  ∀ w, ∃ l, calls (m w).2 = calls w ++ l ∧ Forall P l.

(** A call that restricts or releases nobody but [target]. *)
Definition aims_at (target : Z) (c : Call) : Prop :=
  call_target c = None ∨ call_target c = Some target.

(** The expiry [ban_cmd] computes from the arguments. *)
Definition ban_until (pf : Platform) (context : Context) : M (option datetime) :=
  match args context with
  | _ :: a1 :: _ =>
      let* dur := lift (parse_duration (Some a1)) in
      match dur with
      | Some dur =>
          if timedelta_truthy dur then
            let* now := datetime_now pf in
            let* t := lift (datetime_add now dur) in
            ret (Some t)
          else ret None
      | None => ret None
      end
  | _ => ret None
  end.

(** The steps of [mute_cmd] once target and duration argument are found. *)
Definition mute_steps (pf : Platform) (chat : Chat) (target : Z)
    (dur_arg : option string) : M unit :=
  let* dur := lift (parse_duration dur_arg) in
  match dur with
  | Some dur =>
      if timedelta_truthy dur then
        let* now := datetime_now pf in
        let* until := lift (datetime_add now dur) in
        let* perms := lift (build_full_mute_permissions (telegram_lib pf)) in
        let* failed :=
          bot_restrict_chat_member pf (chat_id chat) target perms (Some until) in
        match failed with
        | Some e => reply_text ("Failed to mute: " +:+ e)
        | None =>
            reply_text ("Muted " +:+ str_of_Z target +:+ " for "
                        +:+ default EmptyString dur_arg +:+ ".")
        end
      else reply_text "Invalid duration. Examples: 10m, 2h"
  | None => reply_text "Invalid duration. Examples: 10m, 2h"
  end.

(** The reply of [ban_cmd] to the answer of the platform. *)
Definition ban_reply (target : Z) (failed : option string) : Call :=
  ReplyText (match failed with
             | Some e => "Failed to ban: " +:+ e
             | None => "Banned " +:+ str_of_Z target +:+ "."
             end).

(** The first half of C4 as it is stated: whenever [parse_duration] accepts
    the second argument of [/ban], a ban is issued that expires at the
    current time plus the parsed duration. *)
Definition ban_expiry_as_stated (pf : Platform) (update : Update)
    (context : Context) (w : World) : Prop :=
  ∀ chat user target a1 d,
    effective_chat update = Some chat →
    effective_user update = Some user →
    target_of update context = Some target →
    args context !! 1%nat = Some a1 →
    parse_duration (Some a1) = inr (Some d) →
    let now :=
      now_utc pf (calls w ++ [GetChatMember (chat_id chat) (user_id user)]) in
    BanChatMember (chat_id chat) target (Some (now + d))
    ∈ new_calls w (ban_cmd pf update context w).

(** The first character of a text is not in class [p] (or there is none). *)
Definition head_not (p : ascii → bool) (s : string) : Prop :=
  match s with String c _ => p c = false | EmptyString => True end.

(** The last character of a text is not a space (or there is none). *)
Fixpoint last_not_space (s : string) : Prop :=
  match s with
  | EmptyString => True
  | String c EmptyString => is_space c = false
  | String _ r => last_not_space r
  end.

(** A character of a unit word, in either case. *)
Definition is_unit_letter (c : ascii) : bool :=
  negb (is_space c) && negb (is_digit c).

(** The reply of [setwelcome_cmd] after it has saved. *)
Definition SAVED : string := "Welcome message saved for this chat.".

(** After the lookup of the issuer, the computation says that it saved a
    welcome only if the chat is configured afterwards, without an id. *)
Definition saves_welcome (key : string) (lookup : Call) (w : World) (m : M unit)
    : Prop :=
  ∀ w1, calls w1 = calls w ++ [lookup] →
    ReplyText SAVED ∈ new_calls w (m w1) →
    ∃ cfg,
      welcome_config (STORE (m w1).2) key = Some cfg
      ∧ last_welcome_message_id cfg = None
      ∧ message cfg ≠ EmptyString.

(** A character a JSON value can start with. *)
Definition starts_value (c : ascii) : bool :=
  match c with
  | "n" | "t" | "f" | "-" | "034" | "[" | "{" => true
  | _ => is_digit c
  end%char.

(** The property that [json_ind'] carries through a tree. *)
Definition decodes (j : json) : Prop :=
  ∀ lvl fuel rest,
    (jsize j ≤ fuel)%nat → head_not is_digit rest →
    parse_value fuel (encode lvl j +:+ rest) = Some (j, rest).

(** What a moderation command does when it acts on [target]: the call after
    the lookup of the issuer, and that no call of the run is about another
    user.  [dur_arg] is the argument [/mute] takes for the duration. *)
Definition moderates (pf : Platform) (m : Moderation) (context : Context)
    (lookup : Call) (chat target : Z) (dur_arg : option string)
    (w : World) (run : (Exn + unit) * World) : Prop :=
  ∃ rest,
    new_calls w run = lookup :: rest
    ∧ Forall (aims_at target) rest
    ∧ match m with
      | Kick => head rest = Some (BanChatMember chat target None)
      | Ban =>
          (run.1 = inr tt →
           ∃ until, head rest = Some (BanChatMember chat target until))
          ∧ (args context !! 1%nat = None →
             head rest = Some (BanChatMember chat target None))
      | Unban => head rest = Some (UnbanChatMember chat target)
      | Mute =>
          (∀ d until,
             parse_duration dur_arg = inr (Some d) → d ≠ 0 →
             datetime_add (now_utc pf (calls w ++ [lookup])) d = inr until →
             ∃ perms,
               head rest
               = Some (RestrictChatMember chat target perms (Some until)))
          ∧ (parse_duration dur_arg = inr None
             ∨ parse_duration dur_arg = inr (Some 0) →
             rest = [ReplyText "Invalid duration. Examples: 10m, 2h"])
      | Unmute =>
          ∃ perms, head rest = Some (RestrictChatMember chat target perms None)
      | Warn =>
          let count :=
            default 0 (warn_counter (STORE w) (str_of_Z chat) (str_of_Z target))
            + 1 in
          rest = [ReplyText ("Warned " +:+ str_of_Z target +:+ " ("
                             +:+ str_of_Z count +:+ " total).")]
          ∧ warn_counter (STORE run.2) (str_of_Z chat) (str_of_Z target)
            = Some count
      end.

(** ** Notions of the further properties *)

(** The reply to somebody who is not an owner of the bot. *)
Definition NOT_AUTHORIZED : string := "You are not authorized to use this command.".

(** The reply to a question about IP addresses. *)
Definition IP_REFUSAL : string := "I’m not allowed to share IP address information.".

(** [update.effective_user.id] or [update.effective_chat.id] on [None]. *)
Definition NONE_HAS_NO_ID : Exn :=
  {| exn_class := AttributeError;
     exn_text := "'NoneType' object has no attribute 'id'" |}.

(** The handlers that read [update.effective_user.id] unguarded. *)
Definition user_id_readers (pf : Platform) : list (Update → Context → M unit) :=
  [search_cmd pf; blacklist_cmd pf; unblacklist_cmd pf; list_blacklist_cmd pf;
   setwelcome_cmd pf; clearwelcome_cmd pf].

(** The three commands on the blacklist. *)
Definition blacklist_commands (pf : Platform) : list (Update → Context → M unit) :=
  [blacklist_cmd pf; unblacklist_cmd pf; list_blacklist_cmd pf].

(** The capability each moderation command asks the check for. *)
Definition need_of (m : Moderation) : string :=
  match m with
  | Kick | Warn => "kick"
  | Ban | Unban => "ban"
  | Mute | Unmute => "mute"
  end.

(** Whenever the platform is asked, it has no record of the issuer, or a
    record that is neither the creator's nor that of an administrator who
    can restrict members. *)
Definition may_not_restrict (pf : Platform) (chat user : Z) : Prop :=
  ∀ h, match get_chat_member pf h chat user with
       | None => True
       | Some member =>
           status member ≠ "creator"
           ∧ (status member ≠ "administrator"
              ∨ flag (can_restrict_members member) = false)
       end.

(** The replies of a check that fails. *)
Definition DENIALS : list string :=
  ["Failed to fetch your chat permissions.";
   "You must be a chat admin to use this command.";
   "You don't have permission to restrict/ban members (can_restrict_members)."].

(** A computation that leaves an observation [f] of the world as it is. *)
Definition keeps {X} (f : World → X) {A} (m : M A) : Prop :=
  ∀ w, f (m w).2 = f w.

(** The persistent part of the state: the document and the store file. *)
Definition persistent (w : World) : Document * option string :=
  (STORE w, STORE_FILE w).

#[global] Instance Route_eq_dec : EqDecision Route.
Proof. solve_decision. Defined.

(** The routes whose handlers write the blacklist, and those whose handlers
    write the document. *)
Definition BLACKLIST_WRITERS : list Route :=
  [Command "blacklist"; Command "unblacklist"].

Definition STORE_WRITERS : list Route :=
  [Command "warn"; Command "setwelcome"; Command "clearwelcome"; NewChatMembers].

(** The document that [load_store] reads from the store file when the file
    can be read; [None] when reading it leaves the model. *)
Definition stored_document (w : World) : option Document :=
  match STORE_FILE w with
  | None => Some empty_document
  | Some content =>
      match loads content with
      | Some j => document_of_json j
      | None => if is_empty (skip_ws content) then Some empty_document else None
      end
  end.

(** The store file holds the document that is in memory. *)
Definition persisted (w : World) : Prop :=
  stored_document w = Some (STORE w).

(** A computation that keeps the store file up to date. *)
Definition keeps_persisted {A} (m : M A) : Prop :=
  ∀ w, persisted w → persisted (m w).2.

(** The updates of a session, handled one after the other.  A handler that
    raises leaves the world as it was when it raised, and the next update
    is handled. *)
Fixpoint run_events (pf : Platform) (events : list (Route * Update * Context))
    (w : World) : World :=
  match events with
  | [] => w
  | (route, update, context) :: rest =>
      run_events pf rest (handle pf route update context w).2
  end.

(** What [setwelcome_cmd] makes of its arguments: the link that follows the
    first [--channel], when one does, and the arguments without the two. *)
Definition welcome_arguments (args : list string) : option string * list string :=
  match list_index "--channel" args with
  | Some i =>
      match args !! S i with
      | Some link => (Some link, take i args ++ drop (i + 2)%nat args)
      | None => (None, args)
      end
  | None => (None, args)
  end.

(** The text [setwelcome_cmd] stores: the remaining arguments joined by
    spaces, or else the text of the message replied to. *)
Definition welcome_message_of (update : Update) (rest : list string) : string :=
  let text := strip (join " " rest) in
  if is_empty text then default text (replied_text_of update) else text.

(** The document with the configuration [cfg] for the chat of key [key]. *)
Definition configured (key : string) (cfg : WelcomeConfig) (d : Document)
    : Document :=
  set_welcomes (Some (<[key := cfg]> (default ∅ (welcomes d)))) d.

(** A configuration as [setwelcome_cmd] writes it. *)
Definition new_config (text : string) (link : option string) : WelcomeConfig :=
  {| message := text; channel_link := link; last_welcome_message_id := None |}.

(** Whenever the platform is asked, it has no record of the issuer, or one of
    somebody who is neither an administrator nor the creator. *)
Definition never_admin (pf : Platform) (chat user : Z) : Prop :=
  ∀ h, match get_chat_member pf h chat user with
       | None => True
       | Some member => status member ∉ ["administrator"; "creator"]
       end.

(** A text without an opening brace. *)
Definition no_brace (s : string) : Prop :=
  all_chars (λ c, negb (Ascii.eqb c "{")) s = true.
Example py_int_42 : Text.py_int "42" = Some 42.
Proof. reflexivity. Qed.
Example py_int_neg : Text.py_int "-7" = Some (-7).
Proof. reflexivity. Qed.
Example py_int_bad : Text.py_int "4x" = None.
Proof. reflexivity. Qed.
Example py_int_usc : Text.py_int "1_0" = Some 10.
Proof. reflexivity. Qed.
Example py_int_usc_bad : Text.py_int "1__0" = None.
Proof. reflexivity. Qed.
Example str_of_Z_neg : Text.str_of_Z (-120) = "-120".
Proof. reflexivity. Qed.
Example replace_ex :
  Text.replace "{user_mention}" "Bob" "Hi {user_mention}, bye {user_mention}!"
  = "Hi Bob, bye Bob!".
Proof. reflexivity. Qed.
Example strip_ex : Text.strip "  a b  " = "a b".
Proof. reflexivity. Qed.

Example dumps_ex :
  Json.dumps (Json.JObj [("a", Json.JInt 1); ("b", Json.JObj [("c", Json.JNull)])])
  = String "{" (String "010" ("  " +:+ String "034" ("a" +:+ String "034" (": 1,"
    +:+ String "010" ("  " +:+ String "034" ("b" +:+ String "034" (": {"
    +:+ String "010" ("    " +:+ String "034" ("c" +:+ String "034" (": null"
    +:+ String "010" ("  }" +:+ String "010" "}"))))))))))).
Proof. reflexivity. Qed.
Example loads_ex :
  Json.loads (Json.dumps (Json.JObj [("a", Json.JInt (-12)); ("b", Json.JArr [Json.JStr "x"; Json.JBool true])]))
  = Some (Json.JObj [("a", Json.JInt (-12)); ("b", Json.JArr [Json.JStr "x"; Json.JBool true])]).
Proof. vm_compute. reflexivity. Qed.
Example loads_float : Json.loads "1.5" = None.
Proof. reflexivity. Qed.
Example loads_lead0 : Json.loads "01" = None.
Proof. reflexivity. Qed.

Example parse_duration_10m : parse_duration (Some "10m") = inr (Some (600 * US_PER_SECOND)).
Proof. reflexivity. Qed.
Example parse_duration_2h : parse_duration (Some "2h") = inr (Some (7200 * US_PER_SECOND)).
Proof. reflexivity. Qed.
Example parse_duration_5 : parse_duration (Some "5") = inr (Some (5 * US_PER_SECOND)).
Proof. reflexivity. Qed.
Example parse_duration_abc : parse_duration (Some "abc") = inr None.
Proof. reflexivity. Qed.
Example parse_duration_sp : parse_duration (Some " 3  Days ") = inr (Some (3 * US_PER_DAY)).
Proof. reflexivity. Qed.
Example parse_duration_mo : parse_duration (Some "3mo") = inr None.
Proof. reflexivity. Qed.

(** * Properties *)

Import Text Json.
Local Open Scope handler_scope.

(** ** Running a computation *)

Ltac unfold_handler :=
  unfold bind, ret, raise, lift, call, reply_text, get_STORE, put_STORE,
    get_BLACKLIST, put_BLACKLIST, none_has_no_attribute, datetime_now,
    bot_get_chat_member, bot_ban_chat_member, bot_unban_chat_member,
    bot_restrict_chat_member, bot_delete_message, bot_send_message,
    duckduckgo, int_of_arg, effective_user_id, effective_chat_id in *.

(** Closes a decidable goal on closed terms by evaluating its decision. *)
Ltac by_compute := apply (bool_decide_unpack _); vm_compute; exact I.

Lemma bind_ret {A B} (a : A) (k : A → M B) w : bind (ret a) k w = k a w.
Proof. reflexivity. Qed.

Lemma bind_run {A B} (m : M A) (k : A → M B) w :
  bind m k w
  = match m w with (inr a, w') => k a w' | (inl e, w') => (inl e, w') end.
Proof. reflexivity. Qed.

Lemma new_calls_app {A} (w : World) (x : Exn + A) (w' : World) (l : list Call) :
  calls w' = calls w ++ l → new_calls w (x, w') = l.
Proof.
  intros E. unfold new_calls. simpl. rewrite E. by rewrite drop_app_length.
Qed.

Lemma new_calls_eq {A} (w : World) (r : (Exn + A) * World) (l : list Call) :
  calls r.2 = calls w ++ l → new_calls w r = l.
Proof. destruct r. apply new_calls_app. Qed.

(** ** Search and the blacklist (C10) *)

(** C10. When the issuer of [/search] is in the blacklist, the handler
    returns at once: the world is the one it started from, so no reply was
    sent and no lookup was made. *)
Theorem search_cmd_blacklisted_silent pf update context w user :
  effective_user update = Some user →
  user_id user ∈ BLACKLIST w →
  search_cmd pf update context w = (inr tt, w)
  ∧ new_calls w (search_cmd pf update context w) = [].
Proof.
  intros Hu Hb. unfold search_cmd. unfold_handler. rewrite Hu. simpl.
  rewrite bool_decide_eq_true_2 by done. split; [done|].
  apply new_calls_app. by rewrite app_nil_r.
Qed.

Lemma search_cmd_blacklisted_silent_witness :
  let context := {| args := ["rocq"] |} in
  search_cmd (sample_platform None) sample_update context sample_world
    = (inr tt, sample_world)
  ∧ new_calls sample_world
      (search_cmd (sample_platform None) sample_update context sample_world) = [].
Proof.
  apply (search_cmd_blacklisted_silent (sample_platform None) sample_update
           {| args := ["rocq"] |} sample_world (sample_user 7)).
  - reflexivity.
  - by_compute.
Defined.

(** ** Authorization (C1) *)

Section Authorization.

Variable pf : Platform.
Variables (update : Update) (user : User) (chat : Chat).
Hypothesis has_user : effective_user update = Some user.
Hypothesis has_chat : effective_chat update = Some chat.

Lemma check_fetch_failed need w :
  issuer_record pf user chat w = None →
  check_issuer_permission pf update need w
  = (inr false,
     add_call (ReplyText "Failed to fetch your chat permissions.")
       (add_call (lookup_call user chat) w)).
Proof.
  unfold issuer_record, check_issuer_permission. rewrite has_user, has_chat.
  unfold_handler. simpl. by intros ->.
Qed.

Lemma check_creator need w member :
  issuer_record pf user chat w = Some member → status member = "creator" →
  check_issuer_permission pf update need w = (inr true, add_call (lookup_call user chat) w).
Proof.
  unfold issuer_record, check_issuer_permission. rewrite has_user, has_chat.
  unfold_handler. simpl. intros -> Hs.
  by rewrite bool_decide_eq_true_2.
Qed.

Lemma check_not_admin need w member :
  issuer_record pf user chat w = Some member →
  status member ≠ "creator" → status member ≠ "administrator" →
  check_issuer_permission pf update need w
  = (inr false,
     add_call (ReplyText "You must be a chat admin to use this command.")
       (add_call (lookup_call user chat) w)).
Proof.
  unfold issuer_record, check_issuer_permission. rewrite has_user, has_chat.
  unfold_handler. simpl. intros -> Hc Ha.
  rewrite bool_decide_eq_false_2 by done.
  by rewrite bool_decide_eq_true_2.
Qed.

Lemma check_admin need w member :
  issuer_record pf user chat w = Some member → status member = "administrator" →
  check_issuer_permission pf update need w
  = if bool_decide (need ∈ ["ban"; "kick"; "mute"])
       && negb (flag (can_restrict_members member))
    then (inr false,
          add_call (ReplyText "You don't have permission to restrict/ban members (can_restrict_members).")
            (add_call (lookup_call user chat) w))
    else if bool_decide (need = "delete")
            && negb (flag (can_delete_messages member))
    then (inr false,
          add_call (ReplyText "You don't have permission to delete messages (can_delete_messages).")
            (add_call (lookup_call user chat) w))
    else (inr true, add_call (lookup_call user chat) w).
Proof.
  unfold issuer_record, check_issuer_permission. rewrite has_user, has_chat.
  unfold_handler. simpl. intros -> Hs. rewrite Hs.
  rewrite bool_decide_eq_false_2 by done.
  rewrite bool_decide_eq_false_2 by (intros H; by apply H).
  by repeat case_match.
Qed.

End Authorization.

(** C1. The decision of [check_issuer_permission] for a needed capability
    among kick, ban, mute and delete.  [inr true] is Allow; [inr false] is
    Deny, and the reply that was sent names the reason. *)
Theorem check_issuer_permission_decision pf update user chat need w :
  effective_user update = Some user →
  effective_chat update = Some chat →
  need ∈ ["kick"; "ban"; "mute"; "delete"] →
  let fetched := get_chat_member pf (calls w) (chat_id chat) (user_id user) in
  let run := check_issuer_permission pf update need w in
  let lookup := GetChatMember (chat_id chat) (user_id user) in
  (* the fetch fails: Deny *)
  (fetched = None →
     run.1 = inr false
     ∧ new_calls w run = [lookup; ReplyText "Failed to fetch your chat permissions."])
  ∧ (∀ member, fetched = Some member →
     (* creator: Allow, whatever the capability flags *)
     (status member = "creator" →
        run.1 = inr true ∧ new_calls w run = [lookup])
     (* neither creator nor administrator: Deny *)
     ∧ (status member ≠ "creator" → status member ≠ "administrator" →
        run.1 = inr false
        ∧ new_calls w run
          = [lookup; ReplyText "You must be a chat admin to use this command."])
     ∧ (status member = "administrator" →
        (* ban, kick, mute without can_restrict_members: Deny *)
        (need ∈ ["ban"; "kick"; "mute"] →
           flag (can_restrict_members member) = false →
           run.1 = inr false
           ∧ new_calls w run
             = [lookup; ReplyText "You don't have permission to restrict/ban members (can_restrict_members)."])
        (* delete without can_delete_messages: Deny, whatever
           can_restrict_members is *)
        ∧ (need = "delete" →
           flag (can_delete_messages member) = false →
           run.1 = inr false
           ∧ new_calls w run
             = [lookup; ReplyText "You don't have permission to delete messages (can_delete_messages)."])
        (* otherwise: Allow *)
        ∧ ((need ∈ ["ban"; "kick"; "mute"] ∧ flag (can_restrict_members member) = true)
           ∨ (need = "delete" ∧ flag (can_delete_messages member) = true) →
           run.1 = inr true ∧ new_calls w run = [lookup]))).
Proof.
  intros Hu Hc Hneed fetched run lookup. subst run.
  split.
  - intros Hf. rewrite (check_fetch_failed pf update user chat Hu Hc need w Hf).
    split; [done|]. apply new_calls_app. simpl. by rewrite <- app_assoc.
  - intros member Hf. split; [|split].
    + intros Hs. rewrite (check_creator pf update user chat Hu Hc need w member Hf Hs).
      split; [done|]. by apply new_calls_app.
    + intros H1 H2.
      rewrite (check_not_admin pf update user chat Hu Hc need w member Hf H1 H2).
      split; [done|]. apply new_calls_app. simpl. by rewrite <- app_assoc.
    + intros Hs.
      rewrite (check_admin pf update user chat Hu Hc need w member Hf Hs).
      split; [|split].
      * intros Hn Hr. rewrite bool_decide_eq_true_2 by done. rewrite Hr. simpl.
        split; [done|]. apply new_calls_app. simpl. by rewrite <- app_assoc.
      * intros -> Hd. rewrite Hd. simpl.
        split; [done|]. apply new_calls_app. simpl. by rewrite <- app_assoc.
      * intros [[Hn Hr] | [-> Hd]].
        -- rewrite Hr. simpl. rewrite andb_false_r.
           assert (need ≠ "delete") as Hnd.
           { intros ->. by apply (bool_decide_pack _) in Hn. }
           rewrite (bool_decide_eq_false_2 _ Hnd). simpl.
           split; [done|]. by apply new_calls_app.
        -- rewrite Hd. simpl.
           split; [done|]. by apply new_calls_app.
Qed.

Lemma check_issuer_permission_decision_witness :
  (check_issuer_permission (sample_platform (Some sample_admin)) sample_update
     "ban" sample_world).1 = inr true
  ∧ (check_issuer_permission (sample_platform (Some sample_admin)) sample_update
     "delete" sample_world).1 = inr false.
Proof.
  split.
  - destruct (check_issuer_permission_decision
                (sample_platform (Some sample_admin)) sample_update
                (sample_user 7) {| chat_id := 5 |} "ban" sample_world
                eq_refl eq_refl ltac:(by_compute)) as [_ H].
    destruct (H sample_admin eq_refl) as (_ & _ & H').
    destruct (H' eq_refl) as (_ & _ & H'').
    apply H''. left. split; [by_compute | reflexivity].
  - destruct (check_issuer_permission_decision
                (sample_platform (Some sample_admin)) sample_update
                (sample_user 7) {| chat_id := 5 |} "delete" sample_world
                eq_refl eq_refl ltac:(by_compute)) as [_ H].
    destruct (H sample_admin eq_refl) as (_ & _ & H').
    destruct (H' eq_refl) as (_ & H'' & _).
    apply H''; reflexivity.
Defined.

(** ** The permission mapper (C7) *)

Lemma ChatPermissions_init_empty lib : ChatPermissions_init lib ∅ = inr ∅.
Proof.
  unfold ChatPermissions_init. rewrite dom_empty_L.
  by rewrite decide_True by set_solver.
Qed.


Lemma ChatPermissions_init_inl lib kwargs e :
  ChatPermissions_init lib kwargs = inl e → exn_class e = TypeError.
Proof. unfold ChatPermissions_init. case_decide; [done|]. by intros [= <-]. Qed.

Lemma make_chat_permissions_never_raises lib perms :
  ∃ p, make_chat_permissions_from_dict lib perms = inr p.
Proof.
  unfold make_chat_permissions_from_dict.
  destruct (signature_parameters lib) as [vp|].
  - destruct (ChatPermissions_init lib (filter _ perms)) eqn:E; [|by eauto].
    rewrite ChatPermissions_init_empty. eauto.
  - destruct (ChatPermissions_init lib perms) as [e|p] eqn:E; [|by eauto].
    rewrite (ChatPermissions_init_inl _ _ _ E).
    destruct (ChatPermissions_init lib (remap_media perms)); [|by eauto].
    rewrite ChatPermissions_init_empty. eauto.
Qed.




Lemma dom_default_perms : dom default_perms = dom CANONICAL_PERMS.
Proof. by_compute. Qed.

Lemma make_chat_permissions_known lib perms :
  knows_canonical_flags lib → dom perms = dom CANONICAL_PERMS →
  make_chat_permissions_from_dict lib perms = inr perms.
Proof.
  intros [Hi Hs] Hd. unfold make_chat_permissions_from_dict.
  destruct (signature_parameters lib) as [vp|].
  - rewrite map_filter_id.
    + unfold ChatPermissions_init. rewrite Hd. by rewrite decide_True.
    + intros k b Hk. simpl. apply Hs. rewrite <- Hd. by apply elem_of_dom_2 in Hk.
  - unfold ChatPermissions_init. rewrite Hd. by rewrite decide_True.
Qed.







(** ** Clearing the welcome (C8) *)

Lemma is_chat_admin_true pf chat user w :
  always_admin pf chat user →
  is_chat_admin pf chat user w = (inr true, add_call (GetChatMember chat user) w).
Proof.
  intros Ha. unfold is_chat_admin. unfold_handler. simpl.
  destruct (Ha (calls w)) as (member & -> & Hs).
  by rewrite bool_decide_eq_true_2.
Qed.

Lemma clearwelcome_unconfigured pf update context w user chat :
  effective_user update = Some user →
  effective_chat update = Some chat →
  always_admin pf (chat_id chat) (user_id user) →
  welcome_config (STORE w) (str_of_Z (chat_id chat)) = None →
  clearwelcome_cmd pf update context w
  = (inr tt,
     add_call (ReplyText "No welcome configured.")
       (add_call (GetChatMember (chat_id chat) (user_id user)) w)).
Proof.
  intros Hu Hc Ha Hn. unfold clearwelcome_cmd.
  unfold effective_chat_id, effective_user_id. rewrite Hu, Hc.
  unfold bind at 1. unfold ret at 1. unfold bind at 1. unfold ret at 1.
  unfold bind at 1. rewrite is_chat_admin_true by done. simpl.
  unfold_handler. simpl. unfold welcome_config in Hn.
  destruct (welcomes (STORE w)) as [ws|]; [|done]. simpl in Hn. by rewrite Hn.
Qed.

Lemma clearwelcome_configured pf update context w user chat cfg :
  effective_user update = Some user →
  effective_chat update = Some chat →
  always_admin pf (chat_id chat) (user_id user) →
  welcome_config (STORE w) (str_of_Z (chat_id chat)) = Some cfg →
  ∃ w',
    clearwelcome_cmd pf update context w = (inr tt, w')
    ∧ welcome_config (STORE w') (str_of_Z (chat_id chat)) = None
    ∧ calls w' = calls w ++ [GetChatMember (chat_id chat) (user_id user);
                             ReplyText "Welcome cleared."].
Proof.
  intros Hu Hc Ha Hn. unfold clearwelcome_cmd.
  unfold effective_chat_id, effective_user_id. rewrite Hu, Hc.
  unfold bind at 1. unfold ret at 1. unfold bind at 1. unfold ret at 1.
  unfold bind at 1. rewrite is_chat_admin_true by done. simpl.
  unfold_handler. simpl. unfold welcome_config in Hn.
  destruct (welcomes (STORE w)) as [ws|]; [|done]. simpl in Hn. rewrite Hn.
  unfold save_store. simpl.
  destruct (write_file pf _ _); simpl; eexists; (split; [reflexivity|]);
    simpl; (split; [unfold welcome_config; simpl; apply lookup_delete_eq
                   | by rewrite <- app_assoc]).
Qed.

(** C8. [/clearwelcome] twice in a row, by an administrator or the creator:
    the second run ends normally, leaves the document, the store file and
    the blacklist as the first run left them, and replies that no welcome
    is configured. *)
Theorem clearwelcome_twice pf update context w user chat :
  effective_user update = Some user →
  effective_chat update = Some chat →
  always_admin pf (chat_id chat) (user_id user) →
  let first := clearwelcome_cmd pf update context w in
  let second := clearwelcome_cmd pf update context first.2 in
  first.1 = inr tt
  ∧ second.1 = inr tt
  ∧ STORE second.2 = STORE first.2
  ∧ STORE_FILE second.2 = STORE_FILE first.2
  ∧ BLACKLIST second.2 = BLACKLIST first.2
  ∧ new_calls first.2 second
    = [GetChatMember (chat_id chat) (user_id user);
       ReplyText "No welcome configured."].
Proof.
  intros Hu Hc Ha first second.
  assert (first.1 = inr tt
          ∧ welcome_config (STORE first.2) (str_of_Z (chat_id chat)) = None)
    as [H1 Hnone].
  { subst first.
    destruct (welcome_config (STORE w) (str_of_Z (chat_id chat))) as [cfg|] eqn:E.
    - destruct (clearwelcome_configured pf update context w user chat cfg
                  Hu Hc Ha E) as (w' & -> & Hn & _). done.
    - by rewrite (clearwelcome_unconfigured pf update context w user chat
                    Hu Hc Ha E). }
  subst second.
  rewrite (clearwelcome_unconfigured pf update context first.2 user chat
             Hu Hc Ha Hnone).
  repeat split; try done.
  apply new_calls_app. simpl. by rewrite <- app_assoc.
Qed.

Lemma clearwelcome_twice_witness :
  let pf := sample_platform (Some sample_admin) in
  let context := {| args := [] |} in
  let w :=
    {| STORE :=
         {| welcomes :=
              Some {[ "5" := {| message := "Hi {user_mention}";
                                channel_link := None;
                                last_welcome_message_id := Some 41 |} ]};
            warns := Some ∅ |};
       BLACKLIST := ∅; STORE_FILE := None; calls := [] |} in
  let first := clearwelcome_cmd pf sample_update context w in
  let second := clearwelcome_cmd pf sample_update context first.2 in
  STORE second.2 = STORE first.2
  ∧ new_calls first.2 second
    = [GetChatMember 5 7; ReplyText "No welcome configured."].
Proof.
  intros pf context w first second.
  destruct (clearwelcome_twice pf sample_update context w (sample_user 7)
              {| chat_id := 5 |} eq_refl eq_refl) as (_ & _ & H1 & _ & _ & H2).
  - intros h. exists sample_admin. split; [reflexivity | by_compute].
  - split; [exact H1 | exact H2].
Defined.

(** ** Computations and the document *)

Section StoreRelation.

Context (R : Document → Document → Prop) `{!PreOrder R}.

Lemma store_from_keeps {A} d (m : M A) : keeps_store m → store_from R d m.
Proof. intros H w <-. by rewrite H. Qed.

Lemma store_from_bind {A B} d (m : M A) (k : A → M B) :
  keeps_store m → (∀ a, store_from R d (k a)) → store_from R d (bind m k).
Proof.
  intros Hm Hk w Hw. unfold bind. specialize (Hm w).
  destruct (m w) as [[e|a] w1]; simpl in *.
  - rewrite Hm, Hw. reflexivity.
  - apply Hk. congruence.
Qed.

Lemma store_from_get {B} d (k : Document → M B) :
  store_from R d (k d) → store_from R d (bind get_STORE k).
Proof. intros Hk w Hw. unfold bind, get_STORE. rewrite Hw. by apply Hk. Qed.

Lemma store_from_put {B} d d' (k : unit → M B) :
  R d d' → store_from R d' (k tt) → store_from R d (bind (put_STORE d') k).
Proof.
  intros Hr Hk w Hw. unfold bind, put_STORE. etrans; [exact Hr|].
  by apply Hk.
Qed.

End StoreRelation.

Lemma keeps_store_ret {A} (a : A) : keeps_store (ret a).
Proof. done. Qed.
Lemma keeps_store_raise {A} e : keeps_store (@raise A e).
Proof. done. Qed.
Lemma keeps_store_lift {A} (r : Exn + A) : keeps_store (lift r).
Proof. by destruct r. Qed.
Lemma keeps_store_call {A} (f : list Call → A) c : keeps_store (call f c).
Proof. done. Qed.
Lemma keeps_store_get_STORE : keeps_store get_STORE.
Proof. done. Qed.
Lemma keeps_store_get_BLACKLIST : keeps_store get_BLACKLIST.
Proof. done. Qed.
Lemma keeps_store_put_BLACKLIST b : keeps_store (put_BLACKLIST b).
Proof. done. Qed.
Lemma keeps_store_datetime_now pf : keeps_store (datetime_now pf).
Proof. done. Qed.
Lemma keeps_store_save_store pf d : keeps_store (save_store pf d).
Proof. intros w. unfold save_store. by destruct (write_file _ _ _). Qed.
Lemma keeps_store_bind {A B} (m : M A) (k : A → M B) :
  keeps_store m → (∀ a, keeps_store (k a)) → keeps_store (bind m k).
Proof.
  intros Hm Hk w. unfold bind. specialize (Hm w).
  destruct (m w) as [[e|a] w1]; simpl in *; [done|]. by rewrite Hk.
Qed.
Lemma keeps_store_for_each {A} (l : list A) (body : A → M unit) :
  (∀ x, keeps_store (body x)) → keeps_store (for_each l body).
Proof.
  intros Hb. induction l as [|x l IH]; simpl; [done|].
  apply keeps_store_bind; auto.
Qed.

(** Proves [keeps_store] along the structure of a computation. *)
Ltac keeps_store_step :=
  first
    [ apply keeps_store_ret | apply keeps_store_raise | apply keeps_store_lift
    | apply keeps_store_call | apply keeps_store_get_STORE
    | apply keeps_store_get_BLACKLIST | apply keeps_store_put_BLACKLIST
    | apply keeps_store_datetime_now | apply keeps_store_save_store
    | apply keeps_store_bind; [|intros]
    | match goal with
      | |- keeps_store (match ?x with _ => _ end) => destruct x
      | |- keeps_store (let '(_, _) := ?x in _) => destruct x
      end ].

Ltac keeps_store :=
  unfold reply_text, bot_get_chat_member, bot_ban_chat_member,
    bot_unban_chat_member, bot_restrict_chat_member, bot_delete_message,
    bot_send_message, duckduckgo, int_of_arg, effective_user_id, effective_chat_id,
    none_has_no_attribute;
  solve [repeat keeps_store_step].

Lemma keeps_store_check pf update need :
  keeps_store (check_issuer_permission pf update need).
Proof. unfold check_issuer_permission. keeps_store. Qed.

Lemma keeps_store_is_chat_admin pf chat user :
  keeps_store (is_chat_admin pf chat user).
Proof. unfold is_chat_admin. keeps_store. Qed.

Lemma keeps_store_resolve_target usage update context :
  keeps_store (resolve_target usage update context).
Proof. unfold resolve_target. keeps_store. Qed.

Lemma keeps_store_start u c : keeps_store (start u c).
Proof. unfold start. keeps_store. Qed.
Lemma keeps_store_search pf u c : keeps_store (search_cmd pf u c).
Proof. unfold search_cmd. keeps_store. Qed.
Lemma keeps_store_blacklist pf u c : keeps_store (blacklist_cmd pf u c).
Proof. unfold blacklist_cmd. keeps_store. Qed.
Lemma keeps_store_unblacklist pf u c : keeps_store (unblacklist_cmd pf u c).
Proof. unfold unblacklist_cmd. keeps_store. Qed.
Lemma keeps_store_list_blacklist pf u c : keeps_store (list_blacklist_cmd pf u c).
Proof. unfold list_blacklist_cmd. keeps_store. Qed.
Lemma keeps_store_help u c : keeps_store (help_cmd u c).
Proof. unfold help_cmd. keeps_store. Qed.
Lemma keeps_store_block_ip pf u c : keeps_store (block_ip_handler pf u c).
Proof. unfold block_ip_handler. keeps_store. Qed.

Lemma keeps_store_kick pf u c : keeps_store (kick_cmd pf u c).
Proof.
  unfold kick_cmd.
  apply keeps_store_bind; [apply keeps_store_check|intros].
  destruct (negb a); [keeps_store|].
  apply keeps_store_bind; [apply keeps_store_resolve_target|intros].
  keeps_store.
Qed.

Lemma keeps_store_ban pf u c : keeps_store (ban_cmd pf u c).
Proof.
  unfold ban_cmd.
  apply keeps_store_bind; [apply keeps_store_check|intros].
  destruct (negb a); [keeps_store|].
  apply keeps_store_bind; [apply keeps_store_resolve_target|intros].
  keeps_store.
Qed.

Lemma keeps_store_unban pf u c : keeps_store (unban_cmd pf u c).
Proof.
  unfold unban_cmd.
  apply keeps_store_bind; [apply keeps_store_check|intros].
  destruct (negb a); [keeps_store|].
  apply keeps_store_bind; [apply keeps_store_resolve_target|intros].
  keeps_store.
Qed.

Lemma keeps_store_mute pf u c : keeps_store (mute_cmd pf u c).
Proof.
  unfold mute_cmd.
  apply keeps_store_bind; [apply keeps_store_check|intros].
  destruct (negb a); [keeps_store|].
  keeps_store.
Qed.

Lemma keeps_store_unmute pf u c : keeps_store (unmute_cmd pf u c).
Proof.
  unfold unmute_cmd.
  apply keeps_store_bind; [apply keeps_store_check|intros].
  destruct (negb a); [keeps_store|].
  apply keeps_store_bind; [apply keeps_store_resolve_target|intros].
  keeps_store.
Qed.

(** ** Decimal text of integers *)

Lemma digits_inj u v : digits u = digits v → u = v.
Proof.
  revert v. induction u; intros v; destruct v; simpl; try discriminate;
    try (intros [= H]; f_equal; auto); done.
Qed.

Lemma digits_no_minus u r : digits u ≠ String "-" r.
Proof. destruct u; simpl; congruence. Qed.

Lemma str_of_Z_inj a b : str_of_Z a = str_of_Z b → a = b.
Proof.
  unfold str_of_Z. intros H. apply DecimalZ.to_int_inj.
  destruct (Z.to_int a) as [u|u], (Z.to_int b) as [v|v].
  - f_equal. by apply digits_inj.
  - by apply digits_no_minus in H.
  - symmetry in H. by apply digits_no_minus in H.
  - injection H as H. f_equal. by apply digits_inj.
Qed.

(** ** Warnings (C3) *)

Lemma check_passes pf update user chat need w :
  effective_user update = Some user →
  effective_chat update = Some chat →
  may_restrict pf (chat_id chat) (user_id user) →
  need ∈ ["ban"; "kick"; "mute"] →
  check_issuer_permission pf update need w
  = (inr true, add_call (GetChatMember (chat_id chat) (user_id user)) w).
Proof.
  intros Hu Hc Hm Hn.
  destruct (Hm (calls w)) as (member & Hf & [Hs | [Hs Hr]]).
  - by apply (check_creator pf update user chat Hu Hc need w member).
  - rewrite (check_admin pf update user chat Hu Hc need w member Hf Hs).
    rewrite Hr. simpl. rewrite andb_false_r.
    assert (need ≠ "delete") as Hnd.
    { intros ->. by apply (bool_decide_pack _) in Hn. }
    by rewrite (bool_decide_eq_false_2 _ Hnd).
Qed.

Lemma int_of_arg_number a n : py_int a = Some n → int_of_arg a = ret (Some n).
Proof. unfold int_of_arg. by intros ->. Qed.

Lemma int_of_arg_refused a :
  py_int a = None → is_ascii_text a = true → int_of_arg a = ret None.
Proof. unfold int_of_arg. by intros -> ->. Qed.

Lemma resolve_target_found usage update context target w :
  target_of update context = Some target →
  resolve_target usage update context w = (inr (Some target), w).
Proof.
  unfold target_of, resolve_target.
  destruct (reply_to_message _) as [r|]; [by intros [= <-]|].
  destruct (args context) as [|a l]; [done|].
  intros H. by rewrite (int_of_arg_number _ _ H).
Qed.

Lemma resolve_target_missing usage update context w :
  reply_to_message (effective_message update) = None →
  match args context with
  | a :: _ => py_int a = None ∧ is_ascii_text a = true
  | [] => True
  end →
  resolve_target usage update context w
  = (inr None,
     add_call (ReplyText (match args context with
                          | [] => usage
                          | _ => "Provide numeric user id or reply."
                          end)) w).
Proof.
  unfold resolve_target. intros ->.
  destruct (args context) as [|a l]; [done|].
  intros [H Ha]. by rewrite (int_of_arg_refused _ H Ha).
Qed.

Lemma warn_counter_default d ck tk :
  default 0 (default ∅ (default ∅ (warns d) !! ck) !! tk)
  = default 0 (warn_counter d ck tk).
Proof.
  unfold warn_counter. destruct (warns d) as [ws|]; simpl; [|done].
  destruct (ws !! ck) as [cw|]; simpl; done.
Qed.

Lemma warn_counter_warned d ck tk :
  warn_counter (warned ck tk d) ck tk
  = Some (default 0 (warn_counter d ck tk) + 1).
Proof.
  unfold warned. rewrite warn_counter_default. unfold warn_counter. simpl.
  rewrite lookup_insert_eq. simpl. by rewrite lookup_insert_eq.
Qed.

Lemma warn_counter_warned_other d ck tk ck' tk' :
  (ck', tk') ≠ (ck, tk) →
  warn_counter (warned ck tk d) ck' tk' = warn_counter d ck' tk'.
Proof.
  intros Hne. unfold warned, warn_counter. simpl.
  destruct (decide (ck' = ck)) as [->|Hc].
  - rewrite lookup_insert_eq. simpl.
    rewrite lookup_insert_ne by congruence.
    destruct (warns d) as [ws|]; simpl; [|done].
    by destruct (ws !! ck).
  - rewrite lookup_insert_ne by done.
    destruct (warns d) as [ws|]; simpl; done.
Qed.

Lemma warn_cmd_run pf update context w user chat target :
  effective_user update = Some user →
  effective_chat update = Some chat →
  may_restrict pf (chat_id chat) (user_id user) →
  target_of update context = Some target →
  let ck := str_of_Z (chat_id chat) in
  let tk := str_of_Z target in
  let d := warned ck tk (STORE w) in
  let h := calls w ++ [GetChatMember (chat_id chat) (user_id user)] in
  warn_cmd pf update context w
  = (inr tt,
     {| STORE := d;
        BLACKLIST := BLACKLIST w;
        STORE_FILE :=
          match write_file pf h (dumps (json_of_document d)) with
          | Written => Some (dumps (json_of_document d))
          | WriteFailed left_behind => left_behind
          end;
        calls :=
          h ++ [ReplyText ("Warned " +:+ tk +:+ " ("
                           +:+ str_of_Z (default 0 (warn_counter (STORE w) ck tk) + 1)
                           +:+ " total).")] |}).
Proof.
  intros Hu Hc Hm Ht ck tk d h. unfold warn_cmd.
  unfold bind at 1.
  rewrite (check_passes pf update user chat "kick" w Hu Hc Hm) by by_compute.
  simpl. unfold bind at 1. rewrite (resolve_target_found _ _ _ _ _ Ht).
  unfold effective_chat_id. rewrite Hc. unfold_handler. simpl.
  unfold save_store. simpl. fold ck tk.
  rewrite <- (warn_counter_default (STORE w) ck tk).
  subst d h. unfold warned.
  by destruct (write_file pf _ _).
Qed.

#[local] Instance warns_grow_preorder : PreOrder warns_grow.
Proof.
  split.
  - intros d ck tk n H. exists n. split; [done | lia].
  - intros d1 d2 d3 H12 H23 ck tk n H.
    destruct (H12 _ _ _ H) as (m & Hm & Hle).
    destruct (H23 _ _ _ Hm) as (k & Hk & Hle').
    exists k. split; [done | lia].
Qed.

Lemma warns_grow_set_welcomes ws d : warns_grow d (set_welcomes ws d).
Proof. intros ck tk n H. exists n. split; [done | lia]. Qed.

Lemma warns_grow_warned ck tk d : warns_grow d (warned ck tk d).
Proof.
  intros ck' tk' n H.
  destruct (decide ((ck', tk') = (ck, tk))) as [[= -> ->]|Hne].
  - rewrite warn_counter_warned, H. simpl. exists (n + 1). split; [done | lia].
  - rewrite warn_counter_warned_other by done. exists n. split; [done | lia].
Qed.

Lemma warns_safe_keeps {A} (m : M A) : keeps_store m → warns_safe m.
Proof. intros H d. by apply (store_from_keeps warns_grow). Qed.

Lemma warns_safe_bind {A B} (m : M A) (k : A → M B) :
  warns_safe m → (∀ a, warns_safe (k a)) → warns_safe (bind m k).
Proof.
  intros Hm Hk d w Hw. unfold bind. specialize (Hm d w Hw).
  destruct (m w) as [[e|a] w1] eqn:E; simpl in *; [done|].
  etrans; [exact Hm|]. by apply (Hk a (STORE w1) w1).
Qed.

Lemma warns_safe_for_each {A} (l : list A) (body : A → M unit) :
  (∀ x, warns_safe (body x)) → warns_safe (for_each l body).
Proof.
  intros Hb. induction l as [|x l IH]; simpl.
  - apply warns_safe_keeps, keeps_store_ret.
  - apply warns_safe_bind; auto.
Qed.

Lemma warns_safe_warn pf u c : warns_safe (warn_cmd pf u c).
Proof.
  intros d. unfold warn_cmd.
  apply (store_from_bind warns_grow); [apply keeps_store_check | intros ok].
  destruct (negb ok); [apply (store_from_keeps warns_grow); [keeps_store]|].
  apply (store_from_bind warns_grow); [apply keeps_store_resolve_target | intros t].
  destruct t as [t|]; [|apply (store_from_keeps warns_grow); [keeps_store]].
  apply (store_from_bind warns_grow); [keeps_store | intros chat].
  apply (store_from_get warns_grow).
  apply (store_from_put warns_grow); [apply warns_grow_warned |].
  apply (store_from_keeps warns_grow); [keeps_store].
Qed.

Lemma warns_safe_setwelcome pf u c : warns_safe (setwelcome_cmd pf u c).
Proof.
  intros d. unfold setwelcome_cmd.
  apply (store_from_bind warns_grow); [keeps_store | intros chat].
  apply (store_from_bind warns_grow); [keeps_store | intros user].
  apply (store_from_bind warns_grow); [apply keeps_store_is_chat_admin | intros ok].
  destruct (negb ok); [apply (store_from_keeps warns_grow); [keeps_store]|].
  assert (∀ (cl : option string) (l : list string),
    store_from warns_grow d
      (let text := strip (join " " l) in
       let text0 := if is_empty text then default text (replied_text_of u) else text in
       if is_empty text0
       then reply_text "No welcome text provided."
       else
         let chat_key := str_of_Z chat in
         let* store := get_STORE in
         put_STORE
           (set_welcomes
              (Some (<[chat_key := {| message := text0; channel_link := cl;
                                      last_welcome_message_id := None |}]>
                       (default ∅ (welcomes store)))) store);;
         let* store0 := get_STORE in
         save_store pf store0;; reply_text "Welcome message saved for this chat.")) as Hset.
  { intros cl l. simpl. destruct (is_empty _).
    - apply (store_from_keeps warns_grow); [keeps_store].
    - apply (store_from_get warns_grow).
      apply (store_from_put warns_grow); [apply warns_grow_set_welcomes |].
      apply (store_from_keeps warns_grow); [keeps_store]. }
  destruct (args c) as [|a l] eqn:Ea.
  - destruct (reply_to_message (effective_message u));
      [|apply (store_from_keeps warns_grow); [keeps_store]].
    simpl. apply (Hset None []).
  - destruct (reply_to_message (effective_message u));
      (destruct (list_index "--channel" (a :: l)) as [i|];
       [destruct ((a :: l) !! S i)|]; apply Hset).
Qed.

Lemma warns_safe_clearwelcome pf u c : warns_safe (clearwelcome_cmd pf u c).
Proof.
  intros d. unfold clearwelcome_cmd.
  apply (store_from_bind warns_grow); [keeps_store | intros chat].
  apply (store_from_bind warns_grow); [keeps_store | intros user].
  apply (store_from_bind warns_grow); [apply keeps_store_is_chat_admin | intros ok].
  destruct (negb ok); [apply (store_from_keeps warns_grow); [keeps_store]|].
  apply (store_from_get warns_grow).
  destruct (welcomes d) as [ws|];
    [destruct (ws !! _)|]; try (apply (store_from_keeps warns_grow); [keeps_store]).
  apply (store_from_put warns_grow); [apply warns_grow_set_welcomes |].
  apply (store_from_keeps warns_grow); [keeps_store].
Qed.

Lemma warns_safe_welcome_member pf chat ck template channel last member :
  warns_safe (welcome_member pf chat ck template channel last member).
Proof.
  intros d. unfold welcome_member.
  destruct (mention_html member).
  all: apply (store_from_bind warns_grow); [keeps_store | intros _].
  all: apply (store_from_bind warns_grow); [keeps_store | intros sent].
  all: destruct sent as [e|mid]; [apply (store_from_keeps warns_grow); [keeps_store]|].
  all: apply (store_from_get warns_grow).
  all: destruct (welcomes d) as [ws|];
    [destruct (ws !! _)|]; try (apply (store_from_keeps warns_grow); [keeps_store]).
  all: apply (store_from_put warns_grow); [apply warns_grow_set_welcomes |].
  all: apply (store_from_keeps warns_grow); [keeps_store].
Qed.

Lemma warns_safe_welcome_handler pf u c : warns_safe (welcome_handler pf u c).
Proof.
  unfold welcome_handler.
  destruct (update_message u) as [msg|]; [|apply warns_safe_keeps; keeps_store].
  destruct (new_chat_members msg) as [|m l];
    [apply warns_safe_keeps; keeps_store|].
  destruct (effective_chat u) as [chat|]; [|apply warns_safe_keeps; keeps_store].
  intros d. apply (store_from_get warns_grow).
  destruct (welcomes d) as [ws|];
    [destruct (ws !! _)|]; try (apply (store_from_keeps warns_grow); [keeps_store]).
  apply warns_safe_for_each. intros x. apply warns_safe_welcome_member.
Qed.

Lemma warns_safe_handle pf route u c : warns_safe (handle pf route u c).
Proof.
  destruct route as [name| |]; simpl.
  - repeat case_bool_decide;
      first [ apply warns_safe_warn | apply warns_safe_setwelcome
            | apply warns_safe_clearwelcome
            | apply warns_safe_keeps;
              first [ apply keeps_store_start | apply keeps_store_search
                    | apply keeps_store_blacklist | apply keeps_store_unblacklist
                    | apply keeps_store_list_blacklist | apply keeps_store_kick
                    | apply keeps_store_ban | apply keeps_store_unban
                    | apply keeps_store_mute | apply keeps_store_unmute
                    | apply keeps_store_help | apply keeps_store_ret ] ].
  - apply warns_safe_welcome_handler.
  - apply warns_safe_keeps. apply keeps_store_bind; [apply keeps_store_block_ip|].
    intros. apply keeps_store_ret.
Qed.

Lemma after_runs_warn pf update context w user chat target n :
  effective_user update = Some user →
  effective_chat update = Some chat →
  may_restrict pf (chat_id chat) (user_id user) →
  target_of update context = Some target →
  let ck := str_of_Z (chat_id chat) in
  let tk := str_of_Z target in
  warn_counter (STORE (after_runs (S n) (warn_cmd pf update context) w)) ck tk
  = Some (default 0 (warn_counter (STORE w) ck tk) + Z.of_nat (S n)).
Proof.
  intros Hu Hc Hm Ht ck tk. induction n as [|n IH].
  - simpl. rewrite (warn_cmd_run pf update context w user chat target Hu Hc Hm Ht).
    simpl. by rewrite warn_counter_warned.
  - change (after_runs (S (S n)) ?h w) with ((h (after_runs (S n) h w)).2).
    remember (after_runs (S n) (warn_cmd pf update context) w) as w1 eqn:E.
    rewrite (warn_cmd_run pf update context w1 user chat target Hu Hc Hm Ht).
    cbn [snd STORE]. rewrite warn_counter_warned. fold ck tk. rewrite IH.
    cbn [default]. unfold id. f_equal. lia.
Qed.

(** C3. A successful [/warn]: the counter of the target in the chat becomes
    its prior value plus one (the prior value of a fresh pair is 0), so [n]
    warnings in a row add [n]; the counter of every other pair of chat and
    target is left as it was; the new document is what is written to the
    store file; and no handler of the bot ever removes or lowers a
    counter. *)
Theorem warn_cmd_counts pf update context w user chat target :
  effective_user update = Some user →
  effective_chat update = Some chat →
  may_restrict pf (chat_id chat) (user_id user) →
  target_of update context = Some target →
  let ck := str_of_Z (chat_id chat) in
  let tk := str_of_Z target in
  let prior := default 0 (warn_counter (STORE w) ck tk) in
  let run := warn_cmd pf update context w in
  run.1 = inr tt
  ∧ warn_counter (STORE run.2) ck tk = Some (prior + 1)
  ∧ new_calls w run
    = [GetChatMember (chat_id chat) (user_id user);
       ReplyText ("Warned " +:+ tk +:+ " (" +:+ str_of_Z (prior + 1) +:+ " total).")]
  ∧ (∀ n, warn_counter
            (STORE (after_runs (S n) (warn_cmd pf update context) w)) ck tk
          = Some (prior + Z.of_nat (S n)))
  ∧ (∀ chat' target', (chat', target') ≠ (chat_id chat, target) →
       warn_counter (STORE run.2) (str_of_Z chat') (str_of_Z target')
       = warn_counter (STORE w) (str_of_Z chat') (str_of_Z target'))
  ∧ (write_file pf (calls w ++ [GetChatMember (chat_id chat) (user_id user)])
       (dumps (json_of_document (STORE run.2))) = Written →
     STORE_FILE run.2 = Some (dumps (json_of_document (STORE run.2))))
  ∧ (∀ route update' context' w',
       warns_grow (STORE w') (STORE (handle pf route update' context' w').2)).
Proof.
  intros Hu Hc Hm Ht ck tk prior run. subst run.
  rewrite (warn_cmd_run pf update context w user chat target Hu Hc Hm Ht).
  fold ck tk. simpl.
  split; [done|]. split; [apply warn_counter_warned|].
  split; [apply new_calls_app; simpl; by rewrite <- app_assoc|].
  split; [intros n; by apply (after_runs_warn pf update context w user chat)|].
  split.
  { intros chat' target' Hne. apply warn_counter_warned_other.
    intros [= E1 E2]. apply Hne. f_equal; by apply str_of_Z_inj. }
  split; [by intros ->|].
  intros route update' context' w'.
  by apply (warns_safe_handle pf route update' context' (STORE w') w').
Qed.

Lemma warn_cmd_counts_witness :
  let pf := sample_platform (Some sample_admin) in
  let context := {| args := [] |} in
  let run := warn_cmd pf sample_reply_update context sample_world in
  warn_counter (STORE run.2) "5" "9" = Some 1
  ∧ warn_counter
      (STORE (after_runs 3 (warn_cmd pf sample_reply_update context) sample_world))
      "5" "9" = Some 3.
Proof.
  intros pf context run.
  destruct (warn_cmd_counts pf sample_reply_update context sample_world
              (sample_user 7) {| chat_id := 5 |} 9 eq_refl eq_refl)
    as (_ & H1 & _ & Hn & _).
  - intros h. exists sample_admin. split; [reflexivity|]. right. by split.
  - reflexivity.
  - split; [exact H1 | exact (Hn 2%nat)].
Defined.

(** ** Calls of a computation *)

Lemma calls_all_quiet {A} P (m : M A) :
  (∀ w, calls (m w).2 = calls w) → calls_all P m.
Proof. intros H w. exists []. by rewrite app_nil_r. Qed.

Lemma calls_all_ret {A} P (a : A) : calls_all P (ret a).
Proof. by apply calls_all_quiet. Qed.
Lemma calls_all_raise {A} P e : calls_all P (@raise A e).
Proof. by apply calls_all_quiet. Qed.
Lemma calls_all_lift {A} P (r : Exn + A) : calls_all P (lift r).
Proof. apply calls_all_quiet. by destruct r. Qed.
Lemma calls_all_get_STORE P : calls_all P get_STORE.
Proof. by apply calls_all_quiet. Qed.
Lemma calls_all_put_STORE P d : calls_all P (put_STORE d).
Proof. by apply calls_all_quiet. Qed.
Lemma calls_all_datetime_now P pf : calls_all P (datetime_now pf).
Proof. by apply calls_all_quiet. Qed.
Lemma calls_all_save_store P pf d : calls_all P (save_store pf d).
Proof.
  apply calls_all_quiet. intros w. unfold save_store.
  by destruct (write_file _ _ _).
Qed.
Lemma calls_all_call {A} (P : Call → Prop) (f : list Call → A) c :
  P c → calls_all P (call f c).
Proof. intros H w. exists [c]. split; [done|]. by constructor. Qed.
Lemma calls_all_bind {A B} P (m : M A) (k : A → M B) :
  calls_all P m → (∀ a, calls_all P (k a)) → calls_all P (bind m k).
Proof.
  intros Hm Hk w. unfold bind. destruct (Hm w) as (l & El & Hl).
  destruct (m w) as [[e|a] w1]; simpl in *; [by eauto|].
  destruct (Hk a w1) as (l' & El' & Hl').
  exists (l ++ l'). split; [by rewrite El', El, app_assoc|].
  by apply Forall_app.
Qed.

Ltac calls_all_step :=
  first
    [ apply calls_all_ret | apply calls_all_raise | apply calls_all_lift
    | apply calls_all_get_STORE | apply calls_all_put_STORE
    | apply calls_all_datetime_now | apply calls_all_save_store
    | apply calls_all_call; simpl; solve [auto]
    | apply calls_all_bind; [|intros]
    | match goal with
      | |- calls_all _ (match ?x with _ => _ end) => destruct x
      | |- calls_all _ (let '(_, _) := ?x in _) => destruct x
      end ].

Ltac calls_all :=
  unfold reply_text, bot_get_chat_member, bot_ban_chat_member,
    bot_unban_chat_member, bot_restrict_chat_member, bot_delete_message,
    bot_send_message, duckduckgo, int_of_arg, effective_user_id, effective_chat_id,
    none_has_no_attribute;
  solve [repeat calls_all_step].

(** ** Target resolution (C6) *)

Section Moderation.

Variable pf : Platform.
Variables (update : Update) (context : Context) (user : User) (chat : Chat).
Hypothesis has_user : effective_user update = Some user.
Hypothesis has_chat : effective_chat update = Some chat.
Hypothesis allowed : may_restrict pf (chat_id chat) (user_id user).

Let lookup : Call := GetChatMember (chat_id chat) (user_id user).

(** What a handler does once the check has passed and the target is found:
    it runs its remaining steps in the world after the lookup. *)
Lemma kick_cmd_resolved target w :
  target_of update context = Some target →
  kick_cmd pf update context w
  = (let* failed := bot_ban_chat_member pf (chat_id chat) target None in
     match failed with
     | Some e => reply_text ("Failed to kick: " +:+ e)
     | None =>
         let* failed := bot_unban_chat_member pf (chat_id chat) target in
         match failed with
         | Some e => reply_text ("Failed to kick: " +:+ e)
         | None => reply_text ("Kicked " +:+ str_of_Z target +:+ ".")
         end
     end) (add_call lookup w).
Proof.
  intros Ht. unfold kick_cmd. unfold bind at 1.
  rewrite (check_passes pf update user chat "kick" w has_user has_chat allowed)
    by by_compute.
  simpl. unfold bind at 1. rewrite (resolve_target_found _ _ _ _ _ Ht).
  unfold effective_chat_id. rewrite has_chat. done.
Qed.

Lemma unban_cmd_resolved target w :
  target_of update context = Some target →
  unban_cmd pf update context w
  = (let* failed := bot_unban_chat_member pf (chat_id chat) target in
     match failed with
     | Some e => reply_text ("Failed to unban: " +:+ e)
     | None => reply_text ("Unbanned " +:+ str_of_Z target +:+ ".")
     end) (add_call lookup w).
Proof.
  intros Ht. unfold unban_cmd. unfold bind at 1.
  rewrite (check_passes pf update user chat "ban" w has_user has_chat allowed)
    by by_compute.
  simpl. unfold bind at 1. rewrite (resolve_target_found _ _ _ _ _ Ht).
  unfold effective_chat_id. rewrite has_chat. done.
Qed.

Lemma unmute_cmd_resolved target w :
  target_of update context = Some target →
  ∃ perms,
    make_chat_permissions_from_dict (telegram_lib pf) default_perms = inr perms
    ∧ unmute_cmd pf update context w
      = (let* failed :=
           bot_restrict_chat_member pf (chat_id chat) target perms None in
         match failed with
         | Some e => reply_text ("Failed to unmute: " +:+ e)
         | None => reply_text ("Unmuted " +:+ str_of_Z target +:+ ".")
         end) (add_call lookup w).
Proof.
  intros Ht.
  destruct (make_chat_permissions_never_raises (telegram_lib pf) default_perms)
    as [perms Hp].
  exists perms. split; [done|].
  unfold unmute_cmd. unfold bind at 1.
  rewrite (check_passes pf update user chat "mute" w has_user has_chat allowed)
    by by_compute.
  simpl. unfold bind at 1. rewrite (resolve_target_found _ _ _ _ _ Ht).
  rewrite Hp. unfold effective_chat_id. rewrite has_chat. done.
Qed.

Lemma ban_cmd_resolved target w :
  target_of update context = Some target →
  ban_cmd pf update context w
  = (let* until := ban_until pf context in
     let* failed := bot_ban_chat_member pf (chat_id chat) target until in
     match failed with
     | Some e => reply_text ("Failed to ban: " +:+ e)
     | None => reply_text ("Banned " +:+ str_of_Z target +:+ ".")
     end) (add_call lookup w).
Proof.
  intros Ht. unfold ban_cmd. unfold bind at 1.
  rewrite (check_passes pf update user chat "ban" w has_user has_chat allowed)
    by by_compute.
  simpl. unfold bind at 1. rewrite (resolve_target_found _ _ _ _ _ Ht).
  unfold effective_chat_id. rewrite has_chat. reflexivity.
Qed.

Lemma mute_cmd_resolved target dur_arg w :
  mute_target_of update context = Some (target, dur_arg) →
  mute_cmd pf update context w = mute_steps pf chat target dur_arg (add_call lookup w).
Proof.
  intros Ht. unfold mute_cmd. unfold bind at 1.
  rewrite (check_passes pf update user chat "mute" w has_user has_chat allowed)
    by by_compute.
  simpl. unfold bind at 1. unfold mute_target_of in Ht.
  unfold mute_steps, effective_chat_id. rewrite has_chat.
  destruct (reply_to_message (effective_message update)) as [r|].
  - injection Ht as <- <-. done.
  - destruct (args context) as [|a0 [|a1 l]]; try done. simpl in Ht.
    destruct (py_int a0) as [t|] eqn:E; [|done]. injection Ht as <- <-.
    by rewrite (int_of_arg_number _ _ E).
Qed.

End Moderation.

Lemma calls_after_lookup {A} (m : M A) (P : Call → Prop) lookup w :
  calls_all P m →
  ∃ l, new_calls w (m (add_call lookup w)) = lookup :: l ∧ Forall P l.
Proof.
  intros H. destruct (H (add_call lookup w)) as (l & El & Hl).
  exists l. split; [|done]. unfold new_calls. rewrite El. simpl.
  rewrite <- app_assoc. by rewrite drop_app_length.
Qed.

Lemma mute_steps_calls pf chat target dur_arg :
  calls_all (aims_at target) (mute_steps pf chat target dur_arg).
Proof. unfold mute_steps, aims_at. calls_all. Qed.

(** The calls of a run that starts after the lookup. *)
Lemma new_calls_after_lookup {A} (m : M A) lookup w l :
  calls (m (add_call lookup w)).2 = calls w ++ lookup :: l →
  new_calls w (m (add_call lookup w)) = lookup :: l.
Proof. intros H. by apply new_calls_eq. Qed.

Ltac aims :=
  repeat first
    [ apply List.Forall_nil
    | apply List.Forall_cons; [unfold aims_at; simpl; auto|] ].

Section Resolved.

Variable pf : Platform.
Variables (update : Update) (context : Context) (user : User) (chat : Chat).
Hypothesis has_user : effective_user update = Some user.
Hypothesis has_chat : effective_chat update = Some chat.
Hypothesis allowed : may_restrict pf (chat_id chat) (user_id user).

Let lookup : Call := GetChatMember (chat_id chat) (user_id user).

Lemma kick_cmd_moderates target dur_arg w :
  target_of update context = Some target →
  moderates pf Kick context lookup (chat_id chat) target dur_arg w
    (kick_cmd pf update context w).
Proof.
  intros Ht. unfold moderates.
  rewrite (kick_cmd_resolved pf update context user chat has_user has_chat
             allowed target w Ht).
  fold lookup. unfold_handler. simpl.
  destruct (ban_chat_member pf _ _ _ _) as [e|]; simpl;
    [|destruct (unban_chat_member pf _ _ _) as [e|]; simpl];
    eexists; (split; [apply new_calls_app; simpl; rewrite <- ?app_assoc;
                      reflexivity|]);
    (split; [aims | done]).
Qed.

Lemma unban_cmd_moderates target dur_arg w :
  target_of update context = Some target →
  moderates pf Unban context lookup (chat_id chat) target dur_arg w
    (unban_cmd pf update context w).
Proof.
  intros Ht. unfold moderates.
  rewrite (unban_cmd_resolved pf update context user chat has_user has_chat
             allowed target w Ht).
  fold lookup. unfold_handler. simpl.
  destruct (unban_chat_member pf _ _ _) as [e|]; simpl;
    eexists; (split; [apply new_calls_app; simpl; rewrite <- ?app_assoc;
                      reflexivity|]);
    (split; [aims | done]).
Qed.

Lemma unmute_cmd_moderates target dur_arg w :
  target_of update context = Some target →
  moderates pf Unmute context lookup (chat_id chat) target dur_arg w
    (unmute_cmd pf update context w).
Proof.
  intros Ht. unfold moderates.
  destruct (unmute_cmd_resolved pf update context user chat has_user has_chat
              allowed target w Ht) as (perms & _ & ->).
  fold lookup. unfold_handler. simpl.
  destruct (restrict_chat_member pf _ _ _ _ _) as [e|]; simpl;
    eexists; (split; [apply new_calls_app; simpl; rewrite <- ?app_assoc;
                      reflexivity|]);
    (split; [aims | by exists perms]).
Qed.

Lemma ban_until_run w :
  ∃ r, ban_until pf context w = (r, w)
       ∧ (args context !! 1%nat = None → r = inr None).
Proof.
  unfold ban_until. destruct (args context) as [|a0 [|a1 l]];
    [by eexists..|].
  assert (∀ r : Exn + option datetime,
    ∃ r', (r, w) = (r', w) ∧ ((a0 :: a1 :: l) !! 1%nat = None → r' = inr None))
    as Hany by (intros r; by exists r).
  destruct (parse_duration (Some a1)) as [e|[d|]]; unfold_handler; simpl;
    [apply Hany| |apply Hany].
  destruct (timedelta_truthy d); simpl; [|apply Hany].
  destruct (datetime_add _ d); simpl; apply Hany.
Qed.

Lemma ban_cmd_moderates target dur_arg w :
  target_of update context = Some target →
  moderates pf Ban context lookup (chat_id chat) target dur_arg w
    (ban_cmd pf update context w).
Proof.
  intros Ht. unfold moderates.
  rewrite (ban_cmd_resolved pf update context user chat has_user has_chat
             allowed target w Ht).
  fold lookup. rewrite (bind_run (ban_until pf context)).
  destruct (ban_until_run (add_call lookup w)) as ([e|until] & -> & Hnone).
  - exists []. split; [apply new_calls_app; simpl; reflexivity|].
    split; [constructor|]. split; [done|]. intros H. by specialize (Hnone H).
  - unfold_handler. simpl.
    destruct (ban_chat_member pf _ _ _ _) as [e|]; simpl;
      eexists; (split; [apply new_calls_app; simpl; rewrite <- ?app_assoc;
                        reflexivity|]);
      (split; [aims|]);
      (split; [intros _; by exists until|]);
      intros H; by injection (Hnone H) as ->.
Qed.

Lemma mute_cmd_moderates target dur_arg w :
  mute_target_of update context = Some (target, dur_arg) →
  moderates pf Mute context lookup (chat_id chat) target dur_arg w
    (mute_cmd pf update context w).
Proof.
  intros Ht. unfold moderates.
  rewrite (mute_cmd_resolved pf update context user chat has_user has_chat
             allowed target dur_arg w Ht).
  fold lookup.
  destruct (make_chat_permissions_never_raises (telegram_lib pf) CANONICAL_PERMS)
    as [perms Hperms].
  unfold mute_steps, build_full_mute_permissions. rewrite Hperms.
  unfold_handler. simpl.
  destruct (parse_duration dur_arg) as [e|[d|]] eqn:Ep; simpl.
  - exists []. split; [apply new_calls_app; simpl; reflexivity|].
    split; [constructor|]. split; [done|]. by intros [?|?].
  - unfold timedelta_truthy. destruct (Z.eqb_spec d 0) as [->|Hd]; simpl.
    + eexists. split; [apply new_calls_app; simpl; rewrite <- ?app_assoc;
                       reflexivity|].
      split; [aims|]. split; [|done].
      intros d until [= <-] Hd. by destruct Hd.
    + destruct (datetime_add _ d) as [e|until] eqn:Ed; simpl.
      * exists []. split; [apply new_calls_app; simpl; reflexivity|].
        split; [constructor|]. split; [|intros [[=]|[= ->]]; by destruct Hd].
        intros d' until [= <-] _ Hu. rewrite Hu in Ed. discriminate.
      * destruct (restrict_chat_member pf _ _ _ _ _) as [e|]; simpl;
          eexists; (split; [apply new_calls_app; simpl; rewrite <- ?app_assoc;
                            reflexivity|]);
          (split; [aims|]);
          (split; [|intros [[=]|[= ->]]; by destruct Hd]);
          intros d' until' [= <-] _ Hu; rewrite Hu in Ed;
          injection Ed as ->; by exists perms.
  - eexists. split; [apply new_calls_app; simpl; rewrite <- ?app_assoc;
                     reflexivity|].
    split; [aims|]. split; [done|done].
Qed.

Lemma warn_cmd_moderates target dur_arg w :
  target_of update context = Some target →
  moderates pf Warn context lookup (chat_id chat) target dur_arg w
    (warn_cmd pf update context w).
Proof.
  intros Ht. unfold moderates.
  rewrite (warn_cmd_run pf update context w user chat target has_user has_chat
             allowed Ht).
  fold lookup. eexists.
  split; [apply new_calls_app; simpl; rewrite <- ?app_assoc; reflexivity|].
  split; [aims|]. simpl.
  split; [done|]. apply warn_counter_warned.
Qed.

(** A command other than [/mute] with a target. *)
Lemma moderation_moderates m target dur_arg w :
  m ≠ Mute →
  target_of update context = Some target →
  moderates pf m context lookup (chat_id chat) target dur_arg w
    (moderation_handler pf m update context w).
Proof.
  intros Hm Ht. destruct m; simpl; [| | |done| |].
  - by apply kick_cmd_moderates.
  - by apply ban_cmd_moderates.
  - by apply unban_cmd_moderates.
  - by apply unmute_cmd_moderates.
  - by apply warn_cmd_moderates.
Qed.

(** A command that finds no target. *)
Lemma moderation_unresolved m w :
  reply_to_message (effective_message update) = None →
  match args context with
  | [] => True
  | [a] => m = Mute ∨ (py_int a = None ∧ is_ascii_text a = true)
  | a :: _ => py_int a = None ∧ is_ascii_text a = true
  end →
  moderation_handler pf m update context w
  = (inr tt,
     add_call (ReplyText
                 match args context with
                 | [] => usage_text m
                 | [_] => match m with
                          | Mute => MUTE_AMBIGUOUS
                          | _ => not_numeric_text m
                          end
                 | _ => not_numeric_text m
                 end)
       (add_call lookup w)).
Proof.
  intros Hr Hargs.
  assert (∀ need, need ∈ ["ban"; "kick"; "mute"] →
    check_issuer_permission pf update need w = (inr true, add_call lookup w))
    as Hck.
  { intros need Hn. by apply check_passes. }
  assert (match args context with
          | a :: _ => m ≠ Mute → py_int a = None ∧ is_ascii_text a = true
          | [] => True
          end) as Hargs'.
  { destruct (args context) as [|a [|a1 l]]; [done| |by intros _].
    intros Hm. by destruct Hargs. }
  destruct m; simpl;
    try (unfold kick_cmd, ban_cmd, unban_cmd, unmute_cmd, warn_cmd;
         unfold bind at 1; rewrite Hck by by_compute; simpl; unfold bind at 1;
         rewrite resolve_target_missing;
         [ by destruct (args context) as [|? [|? ?]]
         | done
         | destruct (args context) as [|? ?]; [done | by apply Hargs'] ]).
  unfold mute_cmd. unfold bind at 1. rewrite Hck by by_compute. simpl.
  rewrite Hr.
  destruct (args context) as [|a0 [|a1 l]]; try done.
  destruct Hargs as [H Ha]. unfold bind at 1.
  by rewrite (int_of_arg_refused _ H Ha).
Qed.

End Resolved.

(** C6. Target resolution of the six moderation commands, for an issuer who
    passes the permission check.  In reply to a message the command acts on
    the author of that message.  Without a reply it acts on the user whose
    id is the first argument, when that is an integer ([/mute] then needs a
    second argument); when it is not, the command answers that it needs a
    numeric id, and without arguments it answers with its usage: in both
    cases the run is the lookup of the issuer and that one answer, and
    nothing else happens.  [/mute] with one argument and no reply is turned
    down with a text of its own, whatever the argument is.  To act on a
    target is: the call after the lookup bans, releases or restricts that
    user in the chat of the command ([/ban] and [/mute] where their
    duration allows it, [/warn] counts the warning instead), and no call of
    the run is about anybody else.  Of an argument beyond ASCII the model
    says nothing. *)
Theorem moderation_target_resolution pf m update context user chat w :
  effective_user update = Some user →
  effective_chat update = Some chat →
  may_restrict pf (chat_id chat) (user_id user) →
  let run := moderation_handler pf m update context w in
  let lookup := GetChatMember (chat_id chat) (user_id user) in
  let answers text :=
    run = (inr tt, add_call (ReplyText text) (add_call lookup w)) in
  (* in reply to a message *)
  (∀ replied, reply_to_message (effective_message update) = Some replied →
     moderates pf m context lookup (chat_id chat) (user_id (from_user replied))
       (head (args context)) w run)
  (* the first argument *)
  ∧ (∀ a rest target,
       reply_to_message (effective_message update) = None →
       args context = a :: rest → (m = Mute → rest ≠ []) →
       py_int a = Some target →
       moderates pf m context lookup (chat_id chat) target (head rest) w run)
  ∧ (∀ a rest,
       reply_to_message (effective_message update) = None →
       args context = a :: rest → (m = Mute → rest ≠ []) →
       py_int a = None → is_ascii_text a = true →
       answers (not_numeric_text m))
  (* no argument *)
  ∧ (reply_to_message (effective_message update) = None →
     args context = [] → answers (usage_text m))
  (* the ambiguous [/mute] *)
  ∧ (∀ a, m = Mute →
       reply_to_message (effective_message update) = None →
       args context = [a] → answers MUTE_AMBIGUOUS)
  ∧ MUTE_AMBIGUOUS ≠ usage_text Mute
  ∧ MUTE_AMBIGUOUS ≠ not_numeric_text Mute.
Proof.
  intros Hu Hc Ha run lookup answers. subst run lookup answers. cbv beta.
  split; [|split; [|split; [|split; [|split; [|split]]]]]; [| | | | |done|done].
  - intros replied Hr. destruct (decide (m = Mute)) as [->|Hm].
    + apply (mute_cmd_moderates pf update context user chat Hu Hc Ha).
      unfold mute_target_of. by rewrite Hr.
    + apply (moderation_moderates pf update context user chat Hu Hc Ha); [done|].
      unfold target_of. by rewrite Hr.
  - intros a rest target Hr Hargs Hrest Hi.
    destruct (decide (m = Mute)) as [->|Hm].
    + apply (mute_cmd_moderates pf update context user chat Hu Hc Ha).
      unfold mute_target_of. rewrite Hr, Hargs.
      destruct rest as [|a1 rest]; [by destruct Hrest|]. simpl. by rewrite Hi.
    + apply (moderation_moderates pf update context user chat Hu Hc Ha); [done|].
      unfold target_of. by rewrite Hr, Hargs.
  - intros a rest Hr Hargs Hrest Hi Hascii.
    rewrite (moderation_unresolved pf update context user chat Hu Hc Ha m w Hr).
    + rewrite Hargs. destruct rest as [|a1 rest]; [|done].
      destruct m; try done. by destruct Hrest.
    + rewrite Hargs. destruct rest as [|a1 rest]; [by right|done].
  - intros Hr Hargs.
    rewrite (moderation_unresolved pf update context user chat Hu Hc Ha m w Hr);
      by rewrite Hargs.
  - intros a -> Hr Hargs.
    rewrite (moderation_unresolved pf update context user chat Hu Hc Ha Mute w Hr);
      rewrite Hargs; [done | by left].
Qed.

Lemma moderation_target_resolution_witness :
  let pf := sample_platform (Some sample_admin) in
  moderates pf Kick {| args := ["12"] |} (GetChatMember 5 7) 5 9 (Some "12")
    sample_world
    (kick_cmd pf sample_reply_update {| args := ["12"] |} sample_world)
  ∧ mute_cmd pf sample_update {| args := ["12"] |} sample_world
    = (inr tt,
       add_call (ReplyText MUTE_AMBIGUOUS)
         (add_call (GetChatMember 5 7) sample_world)).
Proof.
  intros pf.
  assert (may_restrict pf 5 7) as Ha.
  { intros h. exists sample_admin. split; [reflexivity|]. right. by split. }
  split.
  - destruct (moderation_target_resolution pf Kick sample_reply_update
                {| args := ["12"] |} (sample_user 7) {| chat_id := 5 |}
                sample_world eq_refl eq_refl Ha) as (H & _).
    exact (H _ eq_refl).
  - destruct (moderation_target_resolution pf Mute sample_update
                {| args := ["12"] |} (sample_user 7) {| chat_id := 5 |}
                sample_world eq_refl eq_refl Ha) as (_ & _ & _ & _ & H & _).
    exact (H "12" eq_refl eq_refl eq_refl).
Defined.

(** ** Durations of [/ban] and [/mute] (C4) *)

Section Durations.

Variable pf : Platform.
Variables (update : Update) (context : Context) (user : User) (chat : Chat).
Hypothesis has_user : effective_user update = Some user.
Hypothesis has_chat : effective_chat update = Some chat.
Hypothesis allowed : may_restrict pf (chat_id chat) (user_id user).

Let lookup : Call := GetChatMember (chat_id chat) (user_id user).

Lemma ban_cmd_with_until target until w :
  target_of update context = Some target →
  ban_until pf context (add_call lookup w) = (inr until, add_call lookup w) →
  let run := ban_cmd pf update context w in
  run.1 = inr tt
  ∧ new_calls w run
    = [lookup; BanChatMember (chat_id chat) target until;
       ban_reply target
         (ban_chat_member pf (calls w ++ [lookup]) (chat_id chat) target until)].
Proof.
  intros Ht Hb run. subst run. unfold lookup in *.
  set (h := calls w ++ [GetChatMember (chat_id chat) (user_id user)]).
  assert (ban_cmd pf update context w
          = (inr tt,
             add_call (ban_reply target
                         (ban_chat_member pf h (chat_id chat) target until))
               (add_call (BanChatMember (chat_id chat) target until)
                  (add_call (GetChatMember (chat_id chat) (user_id user)) w))))
    as ->.
  { rewrite (ban_cmd_resolved pf update context user chat has_user has_chat
               allowed target w Ht).
    unfold bind at 1. cbv beta. rewrite Hb. unfold_handler. simpl.
    unfold ban_reply. fold h. by destruct (ban_chat_member pf h _ _ _). }
  split; [done|]. apply new_calls_eq. simpl. by rewrite <- !app_assoc.
Qed.

Lemma ban_until_expiry a0 a1 rest d w :
  args context = a0 :: a1 :: rest →
  parse_duration (Some a1) = inr (Some d) →
  d ≠ 0 →
  0 ≤ now_utc pf (calls w) + d ≤ DATETIME_MAX →
  ban_until pf context w = (inr (Some (now_utc pf (calls w) + d)), w).
Proof.
  intros Hargs Hp Hd Hr. unfold ban_until. rewrite Hargs, Hp.
  unfold_handler. simpl. unfold timedelta_truthy.
  rewrite (proj2 (Z.eqb_neq d 0) Hd). simpl. unfold datetime_add.
  rewrite (proj2 (Z.leb_le _ _) (proj1 Hr)).
  by rewrite (proj2 (Z.leb_le _ _) (proj2 Hr)).
Qed.

Lemma ban_until_rejected a0 a1 rest w :
  args context = a0 :: a1 :: rest →
  parse_duration (Some a1) = inr None →
  ban_until pf context w = (inr None, w).
Proof. intros Hargs Hp. unfold ban_until. by rewrite Hargs, Hp. Qed.

Lemma mute_cmd_rejected target dur_arg w :
  mute_target_of update context = Some (target, dur_arg) →
  parse_duration dur_arg = inr None →
  let run := mute_cmd pf update context w in
  run.1 = inr tt
  ∧ new_calls w run = [lookup; ReplyText "Invalid duration. Examples: 10m, 2h"].
Proof.
  intros Ht Hp run. subst run. unfold lookup in *.
  rewrite (mute_cmd_resolved pf update context user chat has_user has_chat
             allowed target dur_arg w Ht).
  unfold mute_steps. rewrite Hp. unfold_handler. simpl.
  split; [done|]. apply new_calls_eq. simpl. by rewrite <- app_assoc.
Qed.

End Durations.

(** [/ban 42 0]: the duration is accepted, as zero, and the ban is issued
    without an expiry. *)
Lemma ban_zero_duration_no_expiry :
  let pf := sample_platform (Some sample_admin) in
  let context := {| args := ["42"; "0"] |} in
  parse_duration (Some "0") = inr (Some 0)
  ∧ new_calls sample_world (ban_cmd pf sample_update context sample_world)
    = [GetChatMember 5 7; BanChatMember 5 42 None; ReplyText "Banned 42."].
Proof. split; reflexivity. Qed.

Lemma ban_expiry_as_stated_fails :
  ¬ ban_expiry_as_stated (sample_platform (Some sample_admin)) sample_update
      {| args := ["42"; "0"] |} sample_world.
Proof.
  intros H.
  specialize (H {| chat_id := 5 |} (sample_user 7) 42 "0" 0
                eq_refl eq_refl eq_refl eq_refl eq_refl).
  simpl in H. destruct ban_zero_duration_no_expiry as [_ E].
  simpl in E. rewrite E in H.
  repeat (apply elem_of_cons in H as [H|H]; [discriminate H|]).
  by apply elem_of_nil in H.
Qed.

(** C4, amended.  [/ban] with a target and a second argument: when
    [parse_duration] returns a span that is not zero and the current time
    plus the span is a [datetime], the ban is issued with that expiry; when
    [parse_duration] rejects the argument, the ban is issued without expiry
    and the reply is the one of a ban ("Banned ..." when the platform
    accepts it).  [/mute] with a target: when [parse_duration] rejects the
    duration argument (or there is none), the only reply is the error text
    and no call restricts anybody. *)
Theorem ban_mute_durations pf update context user chat w :
  effective_user update = Some user →
  effective_chat update = Some chat →
  may_restrict pf (chat_id chat) (user_id user) →
  let lookup := GetChatMember (chat_id chat) (user_id user) in
  let now := now_utc pf (calls w ++ [lookup]) in
  let answer := ban_chat_member pf (calls w ++ [lookup]) (chat_id chat) in
  (∀ target a0 a1 rest,
     target_of update context = Some target →
     args context = a0 :: a1 :: rest →
     let run := ban_cmd pf update context w in
     (∀ d, parse_duration (Some a1) = inr (Some d) →
        d ≠ 0 → 0 ≤ now + d ≤ DATETIME_MAX →
        run.1 = inr tt
        ∧ new_calls w run
          = [lookup; BanChatMember (chat_id chat) target (Some (now + d));
             ban_reply target (answer target (Some (now + d)))])
     ∧ (parse_duration (Some a1) = inr None →
        run.1 = inr tt
        ∧ new_calls w run
          = [lookup; BanChatMember (chat_id chat) target None;
             ban_reply target (answer target None)]))
  ∧ (∀ target dur_arg,
       mute_target_of update context = Some (target, dur_arg) →
       parse_duration dur_arg = inr None →
       let run := mute_cmd pf update context w in
       run.1 = inr tt
       ∧ new_calls w run
         = [lookup; ReplyText "Invalid duration. Examples: 10m, 2h"]).
Proof.
  intros Hu Hc Ha lookup now answer. split.
  - intros target a0 a1 rest Ht Hargs run. split.
    + intros d Hp Hd Hr.
      apply (ban_cmd_with_until pf update context user chat Hu Hc Ha); [done|].
      by apply (ban_until_expiry pf context a0 a1 rest).
    + intros Hp.
      apply (ban_cmd_with_until pf update context user chat Hu Hc Ha); [done|].
      by apply (ban_until_rejected pf context a0 a1 rest).
  - intros target dur_arg Ht Hp.
    by apply (mute_cmd_rejected pf update context user chat Hu Hc Ha target dur_arg).
Qed.

Lemma ban_mute_durations_witness :
  let pf := sample_platform (Some sample_admin) in
  new_calls sample_world
    (ban_cmd pf sample_update {| args := ["42"; "10m"] |} sample_world)
  = [GetChatMember 5 7;
     BanChatMember 5 42 (Some (63900000600 * US_PER_SECOND));
     ReplyText "Banned 42."]
  ∧ new_calls sample_world
      (ban_cmd pf sample_update {| args := ["42"; "soon"] |} sample_world)
    = [GetChatMember 5 7; BanChatMember 5 42 None; ReplyText "Banned 42."]
  ∧ new_calls sample_world
      (mute_cmd pf sample_update {| args := ["42"; "soon"] |} sample_world)
    = [GetChatMember 5 7; ReplyText "Invalid duration. Examples: 10m, 2h"].
Proof.
  intros pf.
  assert (may_restrict pf 5 7) as Ha.
  { intros h. exists sample_admin. split; [reflexivity|]. right. by split. }
  split; [|split].
  - destruct (ban_mute_durations pf sample_update {| args := ["42"; "10m"] |}
                (sample_user 7) {| chat_id := 5 |} sample_world
                eq_refl eq_refl Ha) as [H _].
    destruct (H 42 "42" "10m" [] eq_refl eq_refl) as [H' _].
    destruct (H' (600 * US_PER_SECOND)) as [_ E];
      [reflexivity | done | by vm_compute | exact E].
  - destruct (ban_mute_durations pf sample_update {| args := ["42"; "soon"] |}
                (sample_user 7) {| chat_id := 5 |} sample_world
                eq_refl eq_refl Ha) as [H _].
    destruct (H 42 "42" "soon" [] eq_refl eq_refl) as [_ H'].
    destruct (H' eq_refl) as [_ E]. exact E.
  - destruct (ban_mute_durations pf sample_update {| args := ["42"; "soon"] |}
                (sample_user 7) {| chat_id := 5 |} sample_world
                eq_refl eq_refl Ha) as [_ H].
    destruct (H 42 (Some "soon") eq_refl eq_refl) as [_ E]. exact E.
Defined.

(** ** Facts about text *)

Lemma app_cons_str c a b : String c a +:+ b = String c (a +:+ b).
Proof. reflexivity. Qed.

Lemma app_nil_l_str s : EmptyString +:+ s = s.
Proof. reflexivity. Qed.

(** Simplification that also unfolds the append of texts. *)
Ltac str_simpl :=
  repeat first [ progress simpl | rewrite app_cons_str | rewrite app_nil_l_str ].
Tactic Notation "str_simpl" "in" hyp(H) :=
  repeat first [ progress simpl in H | rewrite app_cons_str in H
               | rewrite app_nil_l_str in H ].

Lemma app_nil_r_str s : s +:+ EmptyString = s.
Proof. induction s; str_simpl; congruence. Qed.

Lemma app_assoc_str a b c : (a +:+ b) +:+ c = a +:+ b +:+ c.
Proof. induction a; str_simpl; congruence. Qed.

Lemma length_app_str a b :
  String.length (a +:+ b) = (String.length a + String.length b)%nat.
Proof. induction a; str_simpl; congruence. Qed.

Lemma all_chars_app p a b :
  all_chars p (a +:+ b) = all_chars p a && all_chars p b.
Proof. induction a; str_simpl; [done|]. rewrite IHa. by rewrite andb_assoc. Qed.

Lemma lower_app a b : lower (a +:+ b) = lower a +:+ lower b.
Proof. induction a; str_simpl; congruence. Qed.

Lemma lower_char_digit c : is_digit (lower_char c) = is_digit c.
Proof. by destruct c as [[] [] [] [] [] [] [] []]. Qed.

Lemma lower_char_space c : is_space (lower_char c) = is_space c.
Proof. by destruct c as [[] [] [] [] [] [] [] []]. Qed.

Lemma lower_char_fix_digit c : is_digit c = true → lower_char c = c.
Proof. by destruct c as [[] [] [] [] [] [] [] []]. Qed.

Lemma lower_char_fix_space c : is_space c = true → lower_char c = c.
Proof. by destruct c as [[] [] [] [] [] [] [] []]. Qed.

Lemma digit_not_space c : is_digit c = true → is_space c = false.
Proof. by destruct c as [[] [] [] [] [] [] [] []]. Qed.

Lemma lower_digits s : all_chars is_digit s = true → lower s = s.
Proof.
  induction s as [|c s IH]; str_simpl; [done|].
  intros [Hc Hs]%andb_true_iff. by rewrite lower_char_fix_digit, IH.
Qed.

Lemma lower_spaces s : all_chars is_space s = true → lower s = s.
Proof.
  induction s as [|c s IH]; str_simpl; [done|].
  intros [Hc Hs]%andb_true_iff. by rewrite lower_char_fix_space, IH.
Qed.

Lemma all_digits_lower s : all_chars is_digit (lower s) = all_chars is_digit s.
Proof. induction s; str_simpl; [done|]. by rewrite lower_char_digit, IHs. Qed.

Lemma all_spaces_lower s : all_chars is_space (lower s) = all_chars is_space s.
Proof. induction s; str_simpl; [done|]. by rewrite lower_char_space, IHs. Qed.

Lemma lower_app_inv s a b :
  lower s = a +:+ b → ∃ s1 s2, s = s1 +:+ s2 ∧ lower s1 = a ∧ lower s2 = b.
Proof.
  revert s. induction a as [|c a IH]; intros s H.
  - exists EmptyString, s. done.
  - destruct s as [|d s]; [done|]. str_simpl in H. injection H as Hc Hs.
    destruct (IH s Hs) as (s1 & s2 & -> & <- & <-).
    exists (String d s1), s2. str_simpl. by rewrite Hc.
Qed.

Lemma lower_empty s : lower s = EmptyString → s = EmptyString.
Proof. by destruct s. Qed.

Lemma span_app p a b :
  all_chars p a = true → head_not p b → span p (a +:+ b) = (a, b).
Proof.
  intros Ha Hb. induction a as [|c a IH]; simpl in *.
  - destruct b as [|c b]; simpl in *; [done|]. by rewrite Hb.
  - apply andb_true_iff in Ha as [Hc Ha]. by rewrite Hc, IH.
Qed.

Lemma span_spec p s a b :
  span p s = (a, b) → s = a +:+ b ∧ all_chars p a = true ∧ head_not p b.
Proof.
  revert a b. induction s as [|c s IH]; str_simpl; intros a b.
  - by intros [= <- <-].
  - destruct (p c) eqn:Hc.
    + destruct (span p s) as [a' b']. intros [= <- <-].
      destruct (IH a' b' eq_refl) as (-> & Ha & Hb). str_simpl. by rewrite Hc.
    + intros [= <- <-]. done.
Qed.

Lemma lstrip_app pre s :
  all_chars is_space pre = true → lstrip (pre +:+ s) = lstrip s.
Proof.
  induction pre as [|c pre IH]; str_simpl; [done|].
  intros [Hc Hp]%andb_true_iff. rewrite Hc. auto.
Qed.

Lemma lstrip_head s : head_not is_space s → lstrip s = s.
Proof. destruct s as [|c s]; str_simpl; [done|]. by intros ->. Qed.

Lemma lstrip_spec s :
  ∃ pre, s = pre +:+ lstrip s ∧ all_chars is_space pre = true
         ∧ head_not is_space (lstrip s).
Proof.
  induction s as [|c s (pre & E & Hp & Hh)]; str_simpl.
  - by exists EmptyString.
  - destruct (is_space c) eqn:Hc.
    + exists (String c pre). str_simpl. rewrite Hc, Hp. split; [congruence | done].
    + exists EmptyString. str_simpl. by rewrite Hc.
Qed.

Lemma rstrip_spaces s : all_chars is_space s = true → rstrip s = EmptyString.
Proof.
  induction s as [|c s IH]; str_simpl; [done|].
  intros [Hc Hs]%andb_true_iff. by rewrite IH, Hc.
Qed.

Lemma rstrip_fix s : last_not_space s → rstrip s = s.
Proof.
  induction s as [|c s IH]; str_simpl; [done|].
  destruct s as [|d s]; [by intros ->|].
  intros H. rewrite IH by done. done.
Qed.

Lemma rstrip_app s post :
  s ≠ EmptyString → last_not_space s →
  all_chars is_space post = true → rstrip (s +:+ post) = s.
Proof.
  intros Hne Hl Hp. induction s as [|c s IH]; [done|]. str_simpl.
  destruct s as [|d s].
  - str_simpl. rewrite rstrip_spaces by done. str_simpl in Hl. by rewrite Hl.
  - rewrite IH by done. done.
Qed.

Lemma rstrip_spec s :
  ∃ post, s = rstrip s +:+ post ∧ all_chars is_space post = true.
Proof.
  induction s as [|c s (post & E & Hp)]; str_simpl.
  - by exists EmptyString.
  - destruct (rstrip s) as [|d r] eqn:Er.
    + destruct (is_space c) eqn:Hc.
      * exists (String c s). str_simpl in E. subst post. str_simpl. by rewrite Hc.
      * exists s. str_simpl in E. by subst post.
    + exists post. str_simpl. split; [|done]. f_equal. exact E.
Qed.

Lemma last_not_space_app a b :
  b ≠ EmptyString → last_not_space b → last_not_space (a +:+ b).
Proof.
  intros Hne Hb. induction a as [|c a IH]; str_simpl; [done|].
  destruct (a +:+ b) eqn:E; [|done].
  destruct a; str_simpl in E; [by subst|done].
Qed.

Lemma strip_spec s :
  ∃ pre post,
    s = pre +:+ strip s +:+ post
    ∧ all_chars is_space pre = true ∧ all_chars is_space post = true.
Proof.
  destruct (lstrip_spec s) as (pre & E & Hp & _).
  destruct (rstrip_spec (lstrip s)) as (post & E' & Hq).
  exists pre, post. unfold strip. split; [|done]. by rewrite <- E', <- E.
Qed.

(** ** Durations (C5) *)

Lemma all_digits_last_not_space s :
  all_chars is_digit s = true → last_not_space s.
Proof.
  induction s as [|c s IH]; simpl; [done|].
  intros [Hc Hs]%andb_true_iff. destruct s; [by apply digit_not_space | auto].
Qed.

Lemma all_digits_head s b :
  all_chars is_digit s = true → s ≠ EmptyString →
  head_not is_space (s +:+ b).
Proof.
  destruct s as [|c s]; [done|]. simpl. intros [Hc _]%andb_true_iff _.
  by apply digit_not_space.
Qed.

Lemma lower_char_unit_letter c : is_unit_letter (lower_char c) = is_unit_letter c.
Proof. by destruct c as [[] [] [] [] [] [] [] []]. Qed.

Lemma all_unit_letters_lower s :
  all_chars is_unit_letter (lower s) = all_chars is_unit_letter s.
Proof. induction s; simpl; [done|]. by rewrite lower_char_unit_letter, IHs. Qed.

Lemma units_are_letters u :
  u ∈ DURATION_UNITS → all_chars is_unit_letter u = true ∧ u ≠ EmptyString.
Proof.
  unfold DURATION_UNITS. intros H.
  repeat (apply elem_of_cons in H as [->|H]; [by split|]).
  by apply elem_of_nil in H.
Qed.

Lemma unit_letters_last s :
  all_chars is_unit_letter s = true → last_not_space s.
Proof.
  induction s as [|c s IH]; simpl; [done|].
  intros [Hc Hs]%andb_true_iff. destruct s; [|auto].
  unfold is_unit_letter in Hc. apply andb_true_iff in Hc as [Hc _].
  by apply negb_true_iff in Hc.
Qed.

Lemma unit_letters_head p s :
  (p = is_space ∨ p = is_digit) →
  all_chars is_unit_letter s = true → head_not p s.
Proof.
  intros Hp. destruct s as [|c s]; simpl; [done|].
  intros [Hc _]%andb_true_iff. unfold is_unit_letter in Hc.
  apply andb_true_iff in Hc as [H1 H2]. apply negb_true_iff in H1, H2.
  by destruct Hp as [-> | ->].
Qed.

Lemma spaces_then_letters_head gap u :
  all_chars is_space gap = true →
  u = EmptyString ∨ all_chars is_unit_letter u = true →
  head_not is_digit (gap +:+ u).
Proof.
  intros Hg Hu. destruct gap as [|c gap]; str_simpl.
  - destruct Hu as [-> | Hu]; [done|]. apply unit_letters_head; auto.
  - simpl in Hg. apply andb_true_iff in Hg as [Hc _].
    destruct (is_digit c) eqn:Hd; [|done].
    apply digit_not_space in Hd. congruence.
Qed.

(** What the pattern finds in a lower-case text of the grammar. *)
Lemma duration_re_match_grammar ds gap u :
  all_chars is_digit ds = true → ds ≠ EmptyString →
  all_chars is_space gap = true →
  u = EmptyString ∨ u ∈ DURATION_UNITS →
  duration_re_match (ds +:+ gap +:+ u)
  = Some (ds, if is_empty u then None else Some u).
Proof.
  intros Hd Hne Hg Hu. unfold duration_re_match.
  assert (u = EmptyString ∨ all_chars is_unit_letter u = true) as Hu'.
  { destruct Hu as [-> | Hu]; [by left | right]. by apply units_are_letters. }
  rewrite (span_app is_digit ds (gap +:+ u))
    by (try done; by apply spaces_then_letters_head).
  destruct ds as [|c ds]; [done|]. simpl.
  rewrite (span_app is_space gap u); first last.
  { destruct Hu' as [-> | Hu']; [done|]. apply unit_letters_head; auto. }
  { done. }
  destruct Hu as [-> | Hu]; [done|].
  destruct (units_are_letters u Hu) as [_ Hn].
  destruct u; [done|]. simpl. by rewrite bool_decide_eq_true_2.
Qed.

Lemma duration_re_match_sound s0 g1 unit :
  duration_re_match s0 = Some (g1, unit) →
  ∃ gap u,
    s0 = g1 +:+ gap +:+ u
    ∧ all_chars is_digit g1 = true ∧ g1 ≠ EmptyString
    ∧ all_chars is_space gap = true
    ∧ (u = EmptyString ∨ u ∈ DURATION_UNITS).
Proof.
  unfold duration_re_match.
  destruct (span is_digit s0) as [ds r] eqn:E1.
  destruct (span_spec _ _ _ _ E1) as (-> & Hd & _).
  destruct (is_empty ds) eqn:Hne; [done|].
  destruct (span is_space r) as [gap u] eqn:E2.
  destruct (span_spec _ _ _ _ E2) as (-> & Hg & _).
  destruct (is_empty u) eqn:Hu.
  - intros [= <- <-]. exists gap, u. repeat split; try done.
    + by destruct ds.
    + left. by destruct u.
  - case_bool_decide as Hin; [|done]. intros [= <- <-].
    exists gap, u. repeat split; try done.
    + by destruct ds.
    + by right.
Qed.

(** The text that [parse_duration] matches against, for a text of the
    grammar. *)
Lemma lower_strip_grammar t :
  duration_grammar t →
  duration_string t ≠ EmptyString
  ∧ lower (strip (duration_string t))
    = magnitude t +:+ (if is_empty (unit_word t) then EmptyString else gap t)
      +:+ lower (unit_word t).
Proof.
  destruct t as [pre ds gap u post]. unfold duration_grammar, duration_string.
  simpl. intros (Hpre & Hd & Hne & Hg & Hpost & Hu).
  split.
  { destruct pre; str_simpl; [|done]. by destruct ds. }
  unfold strip. rewrite lstrip_app by done.
  destruct Hu as [-> | Hu].
  - str_simpl. rewrite lstrip_head by (by apply all_digits_head).
    rewrite rstrip_app; try done.
    + rewrite app_nil_r_str. by apply lower_digits.
    + by apply all_digits_last_not_space.
    + by rewrite all_chars_app, Hg, Hpost.
  - destruct (units_are_letters _ Hu) as [Hl Hn].
    rewrite all_unit_letters_lower in Hl.
    assert (u ≠ EmptyString) as Hun by (intros ->; done).
    destruct (is_empty u) eqn:Eu; [by destruct u|].
    rewrite lstrip_head by (by apply all_digits_head).
    rewrite <- (app_assoc_str gap u post), <- (app_assoc_str ds (gap +:+ u) post).
    rewrite rstrip_app; try done.
    + rewrite !lower_app. by rewrite lower_digits, lower_spaces.
    + destruct ds; [done|]. by str_simpl.
    + apply last_not_space_app.
      * intros E. destruct gap; str_simpl in E; [done | discriminate].
      * apply last_not_space_app; [done|]. by apply unit_letters_last.
Qed.

Lemma new_timedelta_range us : timedelta_range us → new_timedelta us = inr us.
Proof.
  intros [H1 H2]. unfold new_timedelta.
  rewrite (proj2 (Z.leb_le _ _) H1), (proj2 (Z.leb_le _ _) H2). done.
Qed.

(** The texts of the grammar are ASCII. *)
Lemma all_chars_impl (p q : ascii → bool) s :
  (∀ c, p c = true → q c = true) → all_chars p s = true → all_chars q s = true.
Proof.
  intros Hpq. induction s as [|c s IH]; simpl; [done|].
  intros [Hc Hs]%andb_true_iff. by rewrite (Hpq c Hc), IH.
Qed.

Lemma is_space_ascii c : is_space c = true → (N_of_ascii c <? 128)%N = true.
Proof. by destruct c as [[] [] [] [] [] [] [] []]. Qed.

Lemma is_digit_ascii c : is_digit c = true → (N_of_ascii c <? 128)%N = true.
Proof. by destruct c as [[] [] [] [] [] [] [] []]. Qed.

Lemma lower_char_ascii c :
  (N_of_ascii (lower_char c) <? 128)%N = true → (N_of_ascii c <? 128)%N = true.
Proof. by destruct c as [[] [] [] [] [] [] [] []]. Qed.

Lemma lower_ascii s : is_ascii_text (lower s) = true → is_ascii_text s = true.
Proof.
  unfold is_ascii_text. induction s as [|c s IH]; simpl; [done|].
  intros [Hc Hs]%andb_true_iff. by rewrite (lower_char_ascii c Hc), IH.
Qed.

Lemma units_are_ascii u : u ∈ DURATION_UNITS → is_ascii_text u = true.
Proof.
  unfold DURATION_UNITS. intros H.
  repeat (apply elem_of_cons in H as [->|H]; [done|]).
  by apply elem_of_nil in H.
Qed.

Lemma duration_grammar_ascii t :
  duration_grammar t → is_ascii_text (duration_string t) = true.
Proof.
  intros (Hpre & Hd & _ & Hg & Hpost & Hu).
  unfold duration_string, is_ascii_text. rewrite !all_chars_app.
  rewrite (all_chars_impl _ _ _ is_space_ascii Hpre),
    (all_chars_impl _ _ _ is_digit_ascii Hd),
    (all_chars_impl _ _ _ is_space_ascii Hg),
    (all_chars_impl _ _ _ is_space_ascii Hpost).
  destruct Hu as [-> | Hu]; [done|].
  apply units_are_ascii, lower_ascii in Hu. unfold is_ascii_text in Hu.
  by rewrite Hu.
Qed.

Lemma int_of_group_digits ds :
  (String.length ds ≤ INT_MAX_STR_DIGITS)%nat →
  int_of_group ds = inr (int_of_digits ds).
Proof.
  intros H. unfold int_of_group. by rewrite (proj2 (Nat.leb_le _ _) H).
Qed.

(** A text of the grammar whose magnitude [int] converts and whose span
    [timedelta] can hold is mapped to its span. *)
Lemma parse_duration_of_grammar t :
  duration_grammar t →
  (String.length (magnitude t) ≤ INT_MAX_STR_DIGITS)%nat →
  timedelta_range (duration_span t) →
  parse_duration (Some (duration_string t)) = inr (Some (duration_span t)).
Proof.
  intros Hg Hlen Hr. destruct (lower_strip_grammar t Hg) as [Hne E].
  unfold parse_duration.
  assert (is_empty (duration_string t) = false) as ->
    by (by destruct (duration_string t)).
  rewrite (duration_grammar_ascii t Hg). cbn [negb]. cbv zeta.
  rewrite E.
  destruct Hg as (_ & Hd & Hdn & Hgap & _ & Hu).
  unfold duration_span, unit_span in Hr |- *.
  destruct Hu as [Hu | Hu].
  - rewrite Hu in *. simpl lower in *. simpl is_empty. cbv iota.
    rewrite app_nil_r_str.
    rewrite <- (app_nil_r_str (magnitude t)) at 1.
    rewrite <- (app_nil_l_str EmptyString) at 1.
    rewrite (duration_re_match_grammar (magnitude t) EmptyString EmptyString)
      by auto.
    cbn [is_empty]. rewrite (int_of_group_digits _ Hlen).
    unfold timedelta_seconds. by rewrite new_timedelta_range.
  - assert (is_empty (unit_word t) = false) as ->.
    { destruct (unit_word t); [|done]. apply units_are_letters in Hu. by destruct Hu. }
    rewrite (duration_re_match_grammar (magnitude t) (gap t) (lower (unit_word t)))
      by auto.
    rewrite (int_of_group_digits _ Hlen).
    revert Hr. unfold DURATION_UNITS in Hu.
    repeat (apply elem_of_cons in Hu as [-> | Hu];
            [ simpl; unfold timedelta_seconds, timedelta_minutes, timedelta_hours,
                timedelta_days;
              intros Hr; rewrite ?Z.mul_assoc in Hr |- *;
              by rewrite new_timedelta_range |]).
    by apply elem_of_nil in Hu.
Qed.

(** An ASCII text that is mapped to anything but [None] is of the
    grammar. *)
Lemma parse_duration_sound s r :
  is_ascii_text s = true →
  parse_duration (Some s) = r → r ≠ inr None →
  ∃ t, duration_grammar t ∧ duration_string t = s.
Proof.
  intros Ha. unfold parse_duration. destruct (is_empty s); [by intros <- |].
  rewrite Ha. cbn [negb]. cbv zeta.
  destruct (duration_re_match (lower (strip s))) as [[g1 unit]|] eqn:E;
    [|by intros <-].
  intros _ _.
  destruct (duration_re_match_sound _ _ _ E) as (gap & u & E0 & Hd & Hn & Hg & Hu).
  destruct (strip_spec s) as (pre & post & Es & Hpre & Hpost).
  destruct (lower_app_inv _ _ _ E0) as (x1 & x2 & Ex & L1 & L2).
  destruct (lower_app_inv _ _ _ L2) as (y1 & y2 & Ey & L3 & L4).
  exists {| lead := pre; magnitude := x1; gap := y1; unit_word := y2; trail := post |}.
  unfold duration_grammar, duration_string. simpl. split.
  - repeat split; try done.
    + by rewrite <- all_digits_lower, L1.
    + intros ->. by subst g1.
    + by rewrite <- all_spaces_lower, L3.
    + destruct Hu as [-> | Hu]; [left; by apply lower_empty | right; by rewrite L4].
  - symmetry. etrans; [exact Es|]. rewrite Ex, Ey. by rewrite !app_assoc_str.
Qed.

(** An ASCII text outside the grammar is mapped to [None]. *)
Lemma parse_duration_outside_grammar s :
  is_ascii_text s = true →
  (¬ ∃ t, duration_grammar t ∧ duration_string t = s) →
  parse_duration (Some s) = inr None.
Proof.
  intros Ha Hs.
  destruct (parse_duration (Some s)) as [e|[td|]] eqn:E; [| |done].
  - destruct Hs. by apply (parse_duration_sound s (inl e)).
  - destruct Hs. by apply (parse_duration_sound s (inr (Some td))).
Qed.

Lemma returning_not_None r : returning r ≠ inr None.
Proof. by destruct r. Qed.

(** A text of the grammar is never mapped to [None]. *)
Lemma parse_duration_of_grammar_not_None t :
  duration_grammar t → parse_duration (Some (duration_string t)) ≠ inr None.
Proof.
  intros Hg E.
  destruct (lower_strip_grammar t Hg) as [Hne El].
  unfold parse_duration in E.
  destruct (is_empty (duration_string t)) eqn:Ee.
  { by destruct (duration_string t). }
  rewrite (duration_grammar_ascii t Hg) in E. cbn [negb] in E. cbv zeta in E.
  rewrite El in E.
  destruct Hg as (_ & Hd & Hdn & Hgap & _ & Hu).
  assert (lower (unit_word t) = EmptyString ∨ lower (unit_word t) ∈ DURATION_UNITS)
    as Hu'.
  { destruct Hu as [-> | Hu]; [by left | by right]. }
  assert (all_chars is_space
            (if is_empty (unit_word t) then EmptyString else gap t) = true) as Hg'.
  { by destruct (is_empty (unit_word t)). }
  rewrite (duration_re_match_grammar (magnitude t) _ (lower (unit_word t))
             Hd Hdn Hg' Hu') in E.
  destruct (int_of_group (magnitude t)); [done|].
  by apply returning_not_None in E.
Qed.

(** C5.  The specification maps every text of the grammar to its span.
    The text [1000000000d] is of the grammar (magnitude [1000000000], unit
    [d]) and its span is a thousand million days; on it the constructor
    [timedelta(days=1000000000)] raises [OverflowError], which
    [parse_duration] does not catch.  Neither do [/mute] and [/ban]: given
    this duration, they end in the exception after the lookup of the
    issuer, without a call that restricts and without an answer. *)
Theorem parse_duration_overflow :
  let t := {| lead := EmptyString; magnitude := "1000000000";
              gap := EmptyString; unit_word := "d"; trail := EmptyString |} in
  let overflow :=
    {| exn_class := OverflowError;
       exn_text := "days=1000000000; must have magnitude <= 999999999" |} in
  let pf := sample_platform (Some sample_admin) in
  let muted :=
    mute_cmd pf sample_reply_update {| args := ["1000000000d"] |} sample_world in
  let banned :=
    ban_cmd pf sample_update {| args := ["42"; "1000000000d"] |} sample_world in
  duration_grammar t
  ∧ duration_string t = "1000000000d"
  ∧ duration_span t = 1000000000 * US_PER_DAY
  ∧ parse_duration (Some "1000000000d") = inl overflow
  ∧ muted.1 = inl overflow
  ∧ new_calls sample_world muted = [GetChatMember 5 7]
  ∧ banned.1 = inl overflow
  ∧ new_calls sample_world banned = [GetChatMember 5 7].
Proof.
  split; [|repeat split; by vm_compute].
  repeat split; try done. right. by_compute.
Qed.

(** ** The welcome lifecycle (C2) *)

Lemma set_last_set_last i j cfg :
  set_last_welcome_message_id i (set_last_welcome_message_id j cfg)
  = set_last_welcome_message_id i cfg.
Proof. done. Qed.

Lemma set_last_same cfg :
  set_last_welcome_message_id (last_welcome_message_id cfg) cfg = cfg.
Proof. by destruct cfg. Qed.

Lemma set_welcomes_same d ws : welcomes d = Some ws → set_welcomes (Some ws) d = d.
Proof. destruct d. simpl. by intros ->. Qed.

(** One turn of the loop, in a world where the chat is configured. *)
Lemma welcome_member_run pf chat key template channel last member w ws cfg :
  welcomes (STORE w) = Some ws → ws !! key = Some cfg →
  let h1 := calls w ++ welcome_deletion chat last in
  let answer :=
    send_message pf h1 chat
      (welcome_rendering template channel member).1
      (welcome_rendering template channel member).2 in
  let pointer :=
    match answer with
    | inr message_id => Some message_id
    | inl _ => last_welcome_message_id cfg
    end in
  let run := welcome_member pf chat key template channel last member w in
  run.1 = inr tt
  ∧ calls run.2 = calls w ++ welcome_calls chat template channel last member
  ∧ STORE run.2
    = set_welcomes
        (Some (<[key := set_last_welcome_message_id pointer cfg]> ws)) (STORE w)
  ∧ BLACKLIST run.2 = BLACKLIST w
  ∧ (∀ e, answer = inl e → STORE_FILE run.2 = STORE_FILE w)
  ∧ (∀ message_id, answer = inr message_id →
       write_file pf (calls run.2) (dumps (json_of_document (STORE run.2)))
       = Written →
       STORE_FILE run.2 = Some (dumps (json_of_document (STORE run.2)))).
Proof.
  intros Hws Hcfg h1 answer pointer run. subst run pointer answer h1.
  unfold welcome_member, welcome_calls, welcome_send, welcome_rendering,
    welcome_deletion.
  destruct (mention_html member) as [m|]; simpl;
    destruct (truthy_int last); unfold_handler; simpl;
    rewrite ?app_nil_r;
    (destruct (send_message pf _ chat _ _) as [e|mid] eqn:Es; simpl;
     [ rewrite set_last_same, insert_id, set_welcomes_same by done;
       repeat split; rewrite <- ?app_assoc; done
     | rewrite Hws, Hcfg; unfold save_store; simpl;
       destruct (write_file pf _ _) eqn:Ew; simpl;
       repeat split; rewrite <- ?app_assoc; try done;
       intros ? _ Hw; rewrite <- ?app_assoc in Ew; rewrite <- ?app_assoc in Hw;
       simpl in Ew, Hw; congruence ]).
Qed.

(** The loop over the new members. *)
Lemma welcome_loop pf chat key template channel last members :
  ∀ w ws cfg,
    welcomes (STORE w) = Some ws → ws !! key = Some cfg →
    let run :=
      for_each members (welcome_member pf chat key template channel last) w in
    run.1 = inr tt
    ∧ calls run.2
      = calls w ++ flat_map (welcome_calls chat template channel last) members
    ∧ STORE run.2
      = set_welcomes
          (Some (<[key := set_last_welcome_message_id
                            (welcome_pointer pf chat template channel last
                               (calls w) members (last_welcome_message_id cfg))
                            cfg]> ws))
          (STORE w)
    ∧ BLACKLIST run.2 = BLACKLIST w.
Proof.
  induction members as [|member rest IH]; intros w ws cfg Hws Hcfg; simpl.
  - rewrite app_nil_r, set_last_same, insert_id, set_welcomes_same by done.
    done.
  - destruct (welcome_member_run pf chat key template channel last member
                w ws cfg Hws Hcfg) as (H1 & Hc & Hs & Hb & _ & _).
    unfold bind.
    destruct (welcome_member pf chat key template channel last member w)
      as [[e|[]] w1]; simpl in *; [done|].
    specialize (IH w1 _ _ (f_equal welcomes Hs) (lookup_insert_eq _ _ _)).
    simpl in IH. destruct IH as (I1 & Ic & Is & Ib).
    split; [done|]. split; [by rewrite Ic, Hc, <- app_assoc|].
    split; [|congruence].
    rewrite Is, Hs, Hc. unfold welcome_calls at 1. rewrite app_assoc.
    rewrite set_last_set_last, insert_insert_eq. simpl.
    by destruct (STORE w).
Qed.

Lemma welcome_calls_sends chat template channel last members :
  length (filter (λ c, is_send c = true)
            (flat_map (welcome_calls chat template channel last) members))
  = length members.
Proof.
  induction members as [|m l IH]; simpl; [done|].
  unfold welcome_calls at 1, welcome_deletion.
  destruct (truthy_int last); simpl;
    rewrite ?filter_cons_True, ?filter_cons_False by done; simpl; by rewrite IH.
Qed.

Lemma welcome_handler_configured pf update context w msg chat ws cfg :
  update_message update = Some msg →
  new_chat_members msg ≠ [] →
  effective_chat update = Some chat →
  welcomes (STORE w) = Some ws →
  ws !! str_of_Z (chat_id chat) = Some cfg →
  welcome_handler pf update context w
  = for_each (new_chat_members msg)
      (welcome_member pf (chat_id chat) (str_of_Z (chat_id chat)) (message cfg)
         (channel_link cfg) (last_welcome_message_id cfg)) w.
Proof.
  intros Hm Hn Hc Hws Hcfg. unfold welcome_handler. rewrite Hm, Hc.
  destruct (new_chat_members msg) as [|m l]; [done|].
  unfold bind at 1, get_STORE. by rewrite Hws, Hcfg.
Qed.

Lemma welcome_handler_unconfigured pf update context w :
  (∀ chat, effective_chat update = Some chat →
     welcome_config (STORE w) (str_of_Z (chat_id chat)) = None) →
  welcome_handler pf update context w = (inr tt, w).
Proof.
  intros H. unfold welcome_handler.
  destruct (update_message update) as [msg|]; [|done].
  destruct (new_chat_members msg) as [|m l]; [done|].
  destruct (effective_chat update) as [chat|]; [|done].
  specialize (H chat eq_refl). unfold welcome_config in H.
  unfold bind, get_STORE.
  destruct (welcomes (STORE w)) as [ws|]; [|done]. simpl in H. by rewrite H.
Qed.

Lemma is_chat_admin_run pf chat user w :
  ∃ ok, is_chat_admin pf chat user w
        = (inr ok, add_call (GetChatMember chat user) w).
Proof.
  unfold is_chat_admin. unfold_handler. simpl.
  destruct (get_chat_member pf (calls w) chat user); eauto.
Qed.

Lemma saves_welcome_reply key lookup w other :
  other ≠ SAVED → ReplyText SAVED ≠ lookup →
  saves_welcome key lookup w (reply_text other).
Proof.
  intros Ho Hl w1 Hw1. unfold reply_text, call.
  rewrite (new_calls_eq w _ [lookup; ReplyText other])
    by (simpl; by rewrite Hw1, <- app_assoc).
  intros H. apply elem_of_cons in H as [H|H]; [done|].
  apply elem_of_cons in H as [H|H]; [congruence|]. by apply elem_of_nil in H.
Qed.

Lemma saves_welcome_store pf key lookup w text cl :
  text ≠ EmptyString →
  saves_welcome key lookup w
    (let* store := get_STORE in
     put_STORE
       (set_welcomes
          (Some (<[key := {| message := text; channel_link := cl;
                             last_welcome_message_id := None |}]>
                   (default ∅ (welcomes store)))) store);;
     let* store0 := get_STORE in
     save_store pf store0;; reply_text SAVED).
Proof.
  intros Ht w1 Hw1 _. unfold_handler. unfold save_store. simpl.
  destruct (write_file pf _ _); simpl; eexists;
    (split; [unfold welcome_config; simpl; apply lookup_insert_eq | done]).
Qed.

(** [/setwelcome] has saved a welcome only if it says so; the chat is then
    configured, with no id of a welcome message. *)
Lemma setwelcome_saved pf update context w chat :
  effective_chat update = Some chat →
  let run := setwelcome_cmd pf update context w in
  ReplyText SAVED ∈ new_calls w run →
  ∃ cfg,
    welcome_config (STORE run.2) (str_of_Z (chat_id chat)) = Some cfg
    ∧ last_welcome_message_id cfg = None
    ∧ message cfg ≠ EmptyString.
Proof.
  intros Hc run. subst run. unfold setwelcome_cmd.
  unfold effective_chat_id, effective_user_id. rewrite Hc. rewrite bind_ret.
  destruct (effective_user update) as [user|].
  2: { unfold none_has_no_attribute. rewrite bind_run. unfold raise.
       rewrite (new_calls_eq w _ []) by (simpl; by rewrite app_nil_r).
       by intros ?%elem_of_nil. }
  rewrite bind_ret, bind_run.
  destruct (is_chat_admin_run pf (chat_id chat) (user_id user) w) as [ok ->].
  set (lookup := GetChatMember (chat_id chat) (user_id user)).
  set (key := str_of_Z (chat_id chat)).
  assert (∀ m, saves_welcome key lookup w m →
    ReplyText SAVED ∈ new_calls w (m (add_call lookup w)) →
    ∃ cfg,
      welcome_config (STORE (m (add_call lookup w)).2) key = Some cfg
      ∧ last_welcome_message_id cfg = None ∧ message cfg ≠ EmptyString) as Hrun.
  { intros m Hm. by apply Hm. }
  destruct ok; simpl negb; cbv iota; apply Hrun.
  2: { by apply saves_welcome_reply. }
  assert (∀ (cl : option string) (l : list string),
    saves_welcome key lookup w
      (let text := strip (join " " l) in
       let text0 :=
         if is_empty text then default text (replied_text_of update) else text in
       if is_empty text0
       then reply_text "No welcome text provided."
       else
         let chat_key := str_of_Z (chat_id chat) in
         let* store := get_STORE in
         put_STORE
           (set_welcomes
              (Some (<[chat_key := {| message := text0; channel_link := cl;
                                      last_welcome_message_id := None |}]>
                       (default ∅ (welcomes store)))) store);;
         let* store0 := get_STORE in
         save_store pf store0;; reply_text "Welcome message saved for this chat."))
    as Hset.
  { intros cl l. cbv zeta.
    destruct (is_empty (if is_empty _ then _ else _)) eqn:Et.
    - by apply saves_welcome_reply.
    - apply (saves_welcome_store pf key lookup w). intros E. by rewrite E in Et. }
  destruct (args context) as [|a l] eqn:Ea.
  - destruct (reply_to_message (effective_message update)).
    + apply (Hset None []).
    + by apply saves_welcome_reply.
  - destruct (reply_to_message (effective_message update));
      (destruct (list_index "--channel" (a :: l)) as [i|];
       [destruct ((a :: l) !! S i)|]; apply Hset).
Qed.

Lemma welcome_single pf update context w msg chat ws cfg member :
  update_message update = Some msg →
  new_chat_members msg = [member] →
  effective_chat update = Some chat →
  welcomes (STORE w) = Some ws →
  ws !! str_of_Z (chat_id chat) = Some cfg →
  welcome_handler pf update context w
  = (let* _ := welcome_member pf (chat_id chat) (str_of_Z (chat_id chat))
                 (message cfg) (channel_link cfg) (last_welcome_message_id cfg)
                 member in ret tt) w.
Proof.
  intros Hm Hn Hc Hws Hcfg.
  rewrite (welcome_handler_configured pf update context w msg chat ws cfg)
    by (try done; by rewrite Hn).
  by rewrite Hn.
Qed.

(** C2. The welcome lifecycle.  In a configured chat a join event makes,
    per new member and in this order, the deletion of the message whose id
    was stored before the event (when an id was stored) and one welcome; it
    ends normally whatever the platform answers.  The id stored afterwards
    is the id of the last welcome the platform accepted; when the welcome
    of a single new member is refused, document and store file stay as they
    were.  In a chat that is not configured the event does nothing.
    [/setwelcome] configures the chat without an id when it reports
    success, and [/clearwelcome] by an administrator leaves the chat not
    configured. *)
Theorem welcome_lifecycle pf update context w msg chat :
  update_message update = Some msg →
  new_chat_members msg ≠ [] →
  effective_chat update = Some chat →
  let key := str_of_Z (chat_id chat) in
  let members := new_chat_members msg in
  let run := welcome_handler pf update context w in
  (∀ ws cfg,
     welcomes (STORE w) = Some ws → ws !! key = Some cfg →
     let last := last_welcome_message_id cfg in
     let deletion := welcome_deletion (chat_id chat) last in
     run.1 = inr tt
     ∧ new_calls w run
       = flat_map (welcome_calls (chat_id chat) (message cfg) (channel_link cfg) last)
           members
     ∧ length (filter (λ c, is_send c = true) (new_calls w run)) = length members
     ∧ (∀ p, last = Some p → p ≠ 0 → deletion = [DeleteMessage (chat_id chat) p])
     ∧ (last = None → deletion = [])
     ∧ STORE run.2
       = set_welcomes
           (Some (<[key := set_last_welcome_message_id
                             (welcome_pointer pf (chat_id chat) (message cfg)
                                (channel_link cfg) last (calls w) members last)
                             cfg]> ws))
           (STORE w)
     ∧ (∀ member, members = [member] →
          let send := welcome_send (chat_id chat) (message cfg) (channel_link cfg) member in
          let answer :=
            send_message pf (calls w ++ deletion) (chat_id chat)
              (welcome_rendering (message cfg) (channel_link cfg) member).1
              (welcome_rendering (message cfg) (channel_link cfg) member).2 in
          new_calls w run = deletion ++ [send]
          ∧ (∀ message_id, answer = inr message_id →
               welcome_config (STORE run.2) key
               = Some (set_last_welcome_message_id (Some message_id) cfg)
               ∧ (write_file pf (calls w ++ deletion ++ [send])
                    (dumps (json_of_document (STORE run.2))) = Written →
                  STORE_FILE run.2 = Some (dumps (json_of_document (STORE run.2)))))
          ∧ (∀ e, answer = inl e →
               STORE run.2 = STORE w ∧ STORE_FILE run.2 = STORE_FILE w)))
  ∧ (welcome_config (STORE w) key = None → run = (inr tt, w))
  ∧ (∀ update' context' w0,
       effective_chat update' = Some chat →
       ReplyText SAVED ∈ new_calls w0 (setwelcome_cmd pf update' context' w0) →
       ∃ cfg,
         welcome_config (STORE (setwelcome_cmd pf update' context' w0).2) key
         = Some cfg
         ∧ last_welcome_message_id cfg = None)
  ∧ (∀ update' context' w0 user,
       effective_user update' = Some user →
       effective_chat update' = Some chat →
       always_admin pf (chat_id chat) (user_id user) →
       welcome_config (STORE (clearwelcome_cmd pf update' context' w0).2) key = None).
Proof.
  intros Hm Hn Hc key members run. split; [|split; [|split]].
  - intros ws cfg Hws Hcfg last deletion. subst run key members last deletion.
    rewrite (welcome_handler_configured pf update context w msg chat ws cfg)
      by done.
    destruct (welcome_loop pf (chat_id chat) (str_of_Z (chat_id chat))
                (message cfg) (channel_link cfg) (last_welcome_message_id cfg)
                (new_chat_members msg) w ws cfg Hws Hcfg) as (H1 & H2 & H3 & _).
    pose proof (new_calls_eq w _ _ H2) as Hcalls.
    split; [done|]. split; [done|].
    split; [rewrite Hcalls; apply welcome_calls_sends|].
    split.
    { intros p Hp Hz. unfold welcome_deletion, truthy_int.
      rewrite Hp. simpl. by rewrite (proj2 (Z.eqb_neq p 0) Hz). }
    split; [by intros ->|].
    split; [done|].
    intros member Hone send answer. subst send answer.
    rewrite Hcalls, Hone. simpl. rewrite app_nil_r.
    split; [done|].
    destruct (welcome_member_run pf (chat_id chat) (str_of_Z (chat_id chat))
                (message cfg) (channel_link cfg) (last_welcome_message_id cfg)
                member w ws cfg Hws Hcfg)
      as (M1 & M2 & M3 & _ & M5 & M6).
    unfold bind.
    destruct (welcome_member pf (chat_id chat) (str_of_Z (chat_id chat))
                (message cfg) (channel_link cfg) (last_welcome_message_id cfg)
                member w) as [[e|[]] w1];
      simpl in *; [done|].
    split.
    + intros message_id Ha. rewrite Ha in M3. split.
      * rewrite M3. unfold welcome_config. simpl. apply lookup_insert_eq.
      * intros Hw. apply (M6 message_id Ha). by rewrite M2.
    + intros e Ha. rewrite Ha in M3. split; [|by apply (M5 e)].
      rewrite M3. by rewrite set_last_same, insert_id, set_welcomes_same.
  - intros Hnone. subst run. apply welcome_handler_unconfigured.
    intros chat' Hc'. rewrite Hc in Hc'. by injection Hc' as <-.
  - intros update' context' w0 Hc' Hs.
    destruct (setwelcome_saved pf update' context' w0 chat Hc' Hs)
      as (cfg & H1 & H2 & _).
    by exists cfg.
  - intros update' context' w0 user Hu' Hc' Ha.
    destruct (welcome_config (STORE w0) key) as [cfg|] eqn:E.
    + destruct (clearwelcome_configured pf update' context' w0 user chat cfg
                  Hu' Hc' Ha E) as (w' & -> & Hn' & _). done.
    + by rewrite (clearwelcome_unconfigured pf update' context' w0 user chat
                    Hu' Hc' Ha E).
Qed.

(** A chat is configured, two users join one after the other, the welcome
    is cleared, a third user joins. *)
Lemma welcome_lifecycle_witness :
  let pf := sample_platform (Some sample_admin) in
  let none := {| args := [] |} in
  let w1 := (setwelcome_cmd pf sample_update
               {| args := ["Hi"; "{user_mention}"] |} sample_world).2 in
  let w2 := (welcome_handler pf (sample_join [sample_user 20]) none w1).2 in
  let third := welcome_handler pf (sample_join [sample_user 21]) none w2 in
  let w4 := (clearwelcome_cmd pf sample_update none third.2).2 in
  welcome_config (STORE w2) "5"
  = Some {| message := "Hi {user_mention}"; channel_link := None;
            last_welcome_message_id := Some 102 |}
  ∧ new_calls w2 third
    = [DeleteMessage 5 102; SendMessage 5 "Hi Ann" None]
  ∧ welcome_config (STORE third.2) "5"
    = Some {| message := "Hi {user_mention}"; channel_link := None;
              last_welcome_message_id := Some 104 |}
  ∧ welcome_handler pf (sample_join [sample_user 22]) none w4 = (inr tt, w4).
Proof.
  intros pf none w1 w2 third w4.
  split; [by vm_compute|].
  destruct (welcome_lifecycle pf (sample_join [sample_user 21]) none w2
              {| reply_to_message := None; text := None;
                 new_chat_members := [sample_user 21] |} {| chat_id := 5 |}
              eq_refl ltac:(done) eq_refl) as (Hconf & _ & _ & _).
  destruct (Hconf {[ "5" := {| message := "Hi {user_mention}";
                                channel_link := None;
                                last_welcome_message_id := Some 102 |} ]}
              {| message := "Hi {user_mention}"; channel_link := None;
                 last_welcome_message_id := Some 102 |})
    as (_ & _ & _ & _ & _ & _ & Hone).
  { by vm_compute. }
  { by vm_compute. }
  destruct (Hone (sample_user 21) eq_refl) as (Hcalls & Hok & _).
  split; [exact Hcalls|].
  split; [exact (proj1 (Hok 104 eq_refl))|].
  destruct (welcome_lifecycle pf (sample_join [sample_user 22]) none w4
              {| reply_to_message := None; text := None;
                 new_chat_members := [sample_user 22] |} {| chat_id := 5 |}
              eq_refl ltac:(done) eq_refl) as (_ & Hnone & _).
  apply Hnone. by vm_compute.
Defined.


(** ** Decimal numbers *)

Lemma take_digits_digits u rest :
  head_not is_digit rest → take_digits (digits u +:+ rest) = (u, rest).
Proof.
  intros Hr. induction u; str_simpl; rewrite ?IHu; try done.
  destruct rest as [|c rest]; [done|]. simpl in *. unfold is_digit in Hr.
  by destruct (digit_of_char c).
Qed.

Lemma to_uint_head p :
  Pos.to_uint p ≠ Nil ∧ ∀ d, Pos.to_uint p ≠ D0 d.
Proof.
  assert (Pos.to_uint p = unorm (Pos.to_uint p)) as E.
  { rewrite <- (DecimalPos.Unsigned.to_of (Pos.to_uint p)).
    by rewrite DecimalPos.Unsigned.of_to. }
  split; [apply DecimalPos.Unsigned.to_uint_nonnil|].
  intros d Hd.
  pose proof (DecimalPos.Unsigned.to_uint_nonzero p) as Hz.
  pose proof (nzhead_nonzero (Pos.to_uint p)) as Hh.
  unfold unorm in E. destruct (nzhead (Pos.to_uint p)) eqn:En.
  - by rewrite E in Hz.
  - by destruct (Hh u).
  - congruence.
  - congruence.
  - congruence.
  - congruence.
  - congruence.
  - congruence.
  - congruence.
  - congruence.
  - congruence.
Qed.

Lemma of_uint_to_uint p : Z.of_uint (Pos.to_uint p) = Z.pos p.
Proof.
  unfold Z.of_uint. by rewrite DecimalPos.Unsigned.of_to.
Qed.

Lemma scan_int_digits u rest :
  u ≠ Nil → (∀ d, u ≠ D0 d) → head_not is_digit rest →
  scan_int (digits u +:+ rest) = Some (Z.of_uint u, rest)
  ∧ scan_int (String "-" (digits u +:+ rest)) = Some (- Z.of_uint u, rest).
Proof.
  intros Hn Hz Hr.
  destruct u as [|u|u|u|u|u|u|u|u|u|u]; [done | by destruct (Hz u) | ..];
    unfold scan_int; str_simpl; rewrite take_digits_digits by done; done.
Qed.

Lemma scan_int_str_of_Z z rest :
  head_not is_digit rest → scan_int (str_of_Z z +:+ rest) = Some (z, rest).
Proof.
  intros Hr. unfold str_of_Z. destruct z as [|p|p]; simpl Z.to_int; cbv iota.
  - reflexivity.
  - destruct (to_uint_head p) as [Hn Hz].
    rewrite (proj1 (scan_int_digits _ rest Hn Hz Hr)).
    by rewrite of_uint_to_uint.
  - destruct (to_uint_head p) as [Hn Hz]. rewrite app_cons_str.
    rewrite (proj2 (scan_int_digits _ rest Hn Hz Hr)).
    by rewrite of_uint_to_uint.
Qed.

(** ** JSON texts *)

Lemma scanstring_escape s rest :
  scanstring (escape s +:+ String dquote rest) = Some (s, rest).
Proof.
  induction s as [|c s IH]; [done|].
  simpl escape. rewrite app_assoc_str.
  remember (escape s +:+ String dquote rest) as tail eqn:Et.
  destruct c as [[] [] [] [] [] [] [] []];
    str_simpl; rewrite IH; reflexivity.
Qed.

Lemma encode_str_app s rest :
  encode_str s +:+ rest = String dquote (escape s +:+ String dquote rest).
Proof. unfold encode_str. by rewrite app_cons_str, app_assoc_str. Qed.

(** *** White space and the first character of a value *)

Lemma skip_ws_spaces n s : skip_ws (spaces n +:+ s) = skip_ws s.
Proof. induction n; str_simpl; done. Qed.

Lemma skip_ws_newline_indent lvl s :
  skip_ws (newline_indent lvl +:+ s) = skip_ws s.
Proof. unfold newline_indent. str_simpl. apply skip_ws_spaces. Qed.

Lemma digits_head u :
  u ≠ Nil → ∃ c s, digits u = String c s ∧ is_digit c = true.
Proof. destruct u; [done|..]; intros _; simpl; eauto. Qed.

Lemma str_of_Z_head z :
  ∃ c s, str_of_Z z = String c s ∧ starts_value c = true.
Proof.
  unfold str_of_Z. destruct z as [|p|p]; simpl Z.to_int; cbv iota.
  - by eexists _, _.
  - destruct (digits_head (Pos.to_uint p)) as (c & s & -> & Hd);
      [apply to_uint_head|].
    exists c, s. split; [done|]. unfold starts_value.
    by destruct c as [[] [] [] [] [] [] [] []].
  - by eexists _, _.
Qed.

Lemma encode_head lvl j :
  ∃ c s, encode lvl j = String c s ∧ starts_value c = true.
Proof.
  destruct j as [|[]|z|s|[|x l]|[|kv l]]; simpl; try (by eexists _, _).
  apply str_of_Z_head.
Qed.

Lemma starts_value_not_ws c : starts_value c = true → is_ws c = false.
Proof. by destruct c as [[] [] [] [] [] [] [] []]. Qed.

Lemma skip_ws_encode lvl j rest :
  skip_ws (encode lvl j +:+ rest) = encode lvl j +:+ rest.
Proof.
  destruct (encode_head lvl j) as (c & s & -> & Hc). str_simpl.
  by rewrite (starts_value_not_ws c Hc).
Qed.

(** *** Decoding what was encoded *)

Lemma parse_value_number f c s :
  (is_digit c || Ascii.eqb c "-") = true →
  parse_value (S f) (String c s)
  = match scan_int (String c s) with
    | Some (z, r) => Some (JInt z, r)
    | None => None
    end.
Proof. by destruct c as [[] [] [] [] [] [] [] []]. Qed.

Lemma not_closing {A} c s (close : ascii) (yes : string → A) (no : string → A) :
  starts_value c = true → close = "]"%char ∨ close = "}"%char →
  (if Ascii.eqb c close then yes s else no (String c s)) = no (String c s).
Proof.
  intros Hc [-> | ->]; by destruct c as [[] [] [] [] [] [] [] []].
Qed.

Lemma parse_value_array f r c s :
  skip_ws r = String c s → starts_value c = true →
  parse_value (S f) (String "[" r)
  = match parse_elems f (String c s) with
    | Some (l, r') => Some (JArr l, r')
    | None => None
    end.
Proof.
  intros E Hc. simpl. rewrite E.
  by destruct c as [[] [] [] [] [] [] [] []].
Qed.

Lemma parse_value_object f r s :
  skip_ws r = String dquote s →
  parse_value (S f) (String "{" r)
  = match parse_members f (String dquote s) with
    | Some (l, r') => Some (JObj l, r')
    | None => None
    end.
Proof. intros E. simpl. by rewrite E. Qed.

Lemma head_not_digit_items enc lvl l rest :
  head_not is_digit (encode_items enc lvl l +:+ rest).
Proof. by destruct l. Qed.

Lemma head_not_digit_members enc lvl l rest :
  head_not is_digit (encode_members enc lvl l +:+ rest).
Proof. by destruct l. Qed.

Lemma parse_elems_encode lvl xs :
  ∀ x fuel rest,
    Forall decodes (x :: xs) →
    (list_sum (map (λ x, S (jsize x)) (x :: xs)) ≤ fuel)%nat →
    parse_elems fuel
      (encode (S lvl) x +:+ encode_items (encode (S lvl)) lvl xs +:+ rest)
    = Some (x :: xs, rest).
Proof.
  induction xs as [|y ys IH]; intros x fuel rest Hall Hfuel;
    apply Forall_cons in Hall as [Hx Hall];
    (destruct fuel as [|f]; [simpl in Hfuel; lia|]); simpl parse_elems.
  - rewrite Hx; [|simpl in Hfuel |- *; lia|done].
    simpl encode_items. rewrite app_assoc_str, skip_ws_newline_indent.
    by str_simpl.
  - rewrite Hx; [|simpl in Hfuel |- *; lia|done].
    simpl encode_items. rewrite !app_assoc_str. str_simpl.
    rewrite ?skip_ws_newline_indent, ?skip_ws_spaces, skip_ws_encode.
    rewrite IH; [done | done | simpl in Hfuel |- *; lia].
Qed.

Lemma parse_members_encode lvl kvs :
  ∀ kv fuel rest,
    Forall (λ kv, decodes kv.2) (kv :: kvs) →
    (list_sum (map (λ kv, S (jsize kv.2)) (kv :: kvs)) ≤ fuel)%nat →
    parse_members fuel
      (encode_member (encode (S lvl)) kv
         +:+ encode_members (encode (S lvl)) lvl kvs +:+ rest)
    = Some (kv :: kvs, rest).
Proof.
  induction kvs as [|kv' kvs IH]; intros [k v] fuel rest Hall Hfuel;
    apply Forall_cons in Hall as [Hx Hall];
    (destruct fuel as [|f]; [simpl in Hfuel; lia|]);
    unfold encode_member at 1; simpl fst; simpl snd;
    rewrite !app_assoc_str, encode_str_app; simpl parse_members;
    rewrite scanstring_escape; str_simpl;
    rewrite skip_ws_encode.
  - rewrite Hx; [|simpl in Hfuel |- *; lia|done].
    simpl encode_members. rewrite app_assoc_str, skip_ws_newline_indent.
    by str_simpl.
  - rewrite Hx; [|simpl in Hfuel |- *; lia|done].
    simpl encode_members. rewrite !app_assoc_str. str_simpl.
    rewrite ?skip_ws_newline_indent, ?skip_ws_spaces.
    destruct kv' as [k' v']. unfold encode_member at 1. simpl fst. simpl snd.
    rewrite !app_assoc_str, encode_str_app. str_simpl.
    specialize (IH (k', v') f rest Hall).
    unfold encode_member at 1 in IH. simpl fst in IH. simpl snd in IH.
    rewrite !app_assoc_str, encode_str_app in IH. str_simpl in IH.
    rewrite IH; [done | simpl in Hfuel |- *; lia].
Qed.

Lemma parse_value_encode j : decodes j.
Proof.
  induction j as [|b|z|s|l IH|l IH] using json_ind';
    intros lvl fuel rest Hfuel Hrest;
    (destruct fuel as [|f]; [simpl in Hfuel; lia|]).
  - by str_simpl.
  - destruct b; by str_simpl.
  - simpl encode.
    destruct (str_of_Z_head z) as (c & s & E & Hc).
    pose proof (scan_int_str_of_Z z rest Hrest) as Hs.
    rewrite E in Hs |- *. rewrite app_cons_str in Hs |- *.
    destruct (is_digit c || Ascii.eqb c "-") eqn:Hd.
    + rewrite parse_value_number by done. by rewrite Hs.
    + unfold scan_int in Hs.
      destruct c as [[] [] [] [] [] [] [] []]; try done.
  - simpl encode. rewrite encode_str_app. simpl parse_value.
    by rewrite scanstring_escape.
  - destruct l as [|x xs]; [by str_simpl|].
    simpl encode. rewrite !app_assoc_str. rewrite app_cons_str.
    destruct (encode_head (S lvl) x) as (c & s & E & Hc).
    erewrite parse_value_array; first last.
    { exact Hc. }
    { rewrite app_nil_l_str, skip_ws_newline_indent, skip_ws_encode.
      rewrite E. by rewrite app_cons_str. }
    rewrite <- app_cons_str, <- E.
    rewrite parse_elems_encode; [done | done | simpl in Hfuel |- *; lia].
  - destruct l as [|[k v] kvs]; [by str_simpl|].
    simpl encode. rewrite !app_assoc_str. rewrite app_cons_str.
    erewrite parse_value_object; first last.
    { rewrite app_nil_l_str, skip_ws_newline_indent.
      unfold encode_member. simpl fst. rewrite !app_assoc_str, encode_str_app.
      by str_simpl. }
    pose proof (parse_members_encode lvl kvs (k, v) f rest IH) as Hm.
    unfold encode_member at 1 in Hm. simpl fst in Hm. simpl snd in Hm.
    rewrite !app_assoc_str, encode_str_app in Hm. str_simpl in Hm.
    rewrite Hm; [done | simpl in Hfuel |- *; lia].
Qed.

Lemma length_encode_items lvl l :
  Forall (λ x, ∀ lvl, (jsize x ≤ String.length (encode lvl x))%nat) l →
  (list_sum (map (λ x, S (jsize x)) l)
   ≤ String.length (encode_items (encode (S lvl)) lvl l))%nat.
Proof.
  induction 1 as [|x l Hx _ IH]; simpl; [lia|].
  rewrite !length_app_str. specialize (Hx (S lvl)). simpl. lia.
Qed.

Lemma length_encode_members lvl l :
  Forall (λ kv, ∀ lvl, (jsize kv.2 ≤ String.length (encode lvl kv.2))%nat) l →
  (list_sum (map (λ kv, S (jsize kv.2)) l)
   ≤ String.length (encode_members (encode (S lvl)) lvl l))%nat.
Proof.
  induction 1 as [|[k v] l Hx _ IH]; simpl; [lia|].
  unfold encode_member. rewrite !length_app_str. specialize (Hx (S lvl)).
  simpl in *. lia.
Qed.

Lemma jsize_length j lvl : (jsize j ≤ String.length (encode lvl j))%nat.
Proof.
  revert lvl. induction j as [|b|z|s|l IH|l IH] using json_ind'; intros lvl.
  - simpl. lia.
  - destruct b; simpl; lia.
  - simpl. destruct (str_of_Z_head z) as (c & s & -> & _). simpl. lia.
  - simpl. lia.
  - destruct l as [|x xs]; [simpl; lia|].
    apply Forall_cons in IH as [Hx Hxs].
    simpl encode. rewrite !length_app_str.
    pose proof (length_encode_items lvl xs Hxs). specialize (Hx (S lvl)).
    simpl in *. lia.
  - destruct l as [|[k v] kvs]; [simpl; lia|].
    apply Forall_cons in IH as [Hx Hxs].
    simpl encode. unfold encode_member. rewrite !length_app_str.
    pose proof (length_encode_members lvl kvs Hxs). specialize (Hx (S lvl)).
    simpl in *. lia.
Qed.

(** Decoding the text of a tree gives the tree back. *)
Lemma loads_dumps j : loads (dumps j) = Some j.
Proof.
  unfold loads, dumps.
  rewrite <- (app_nil_r_str (encode 0 j)) at 2.
  rewrite skip_ws_encode.
  rewrite (parse_value_encode j 0%nat _ EmptyString); [done | | done].
  apply jsize_length.
Qed.

(** ** The document and its JSON tree *)

Lemma py_dict_of_dict {A} (f : A → json) (m : gmap string A) :
  py_dict (prod_map id f <$> map_to_list m) = f <$> m.
Proof.
  unfold py_dict. rewrite <- fmap_reverse, list_to_map_fmap. f_equal.
  rewrite <- (list_to_map_to_list m) at 2. symmetry.
  apply list_to_map_proper; [apply NoDup_fst_map_to_list|].
  symmetry. apply reverse_Permutation.
Qed.

Lemma dict_of_json_of_dict {A} (f : json → option A) (g : A → json)
    (m : gmap string A) :
  (∀ x, f (g x) = Some x) → dict_of_json f (json_of_dict g m) = Some m.
Proof.
  intros Hfg. unfold dict_of_json, json_of_dict. rewrite py_dict_of_dict.
  rewrite decide_True.
  - f_equal. apply map_eq. intros k. rewrite lookup_omap, lookup_fmap.
    destruct (m !! k); simpl; [apply Hfg | done].
  - intros k v. rewrite lookup_fmap. destruct (m !! k); simpl; [|done].
    intros [= <-]. rewrite Hfg. by eexists.
Qed.

Lemma config_of_json_of_config c : config_of_json (json_of_config c) = Some c.
Proof.
  destruct c as [m [ch|] [i|]]; unfold config_of_json, json_of_config, py_dict;
    simpl; rewrite ?lookup_insert_eq, ?lookup_insert_ne by done;
    rewrite ?lookup_insert_eq; done.
Qed.

Lemma document_of_json_of_document d :
  document_of_json (json_of_document d) = Some d.
Proof.
  assert (∀ m : gmap string (gmap string Z),
    dict_of_json (dict_of_json int_of_json) (json_of_dict (json_of_dict JInt) m)
    = Some m) as Hwarns.
  { intros m. apply dict_of_json_of_dict. intros x.
    by apply dict_of_json_of_dict. }
  pose proof (λ m, dict_of_json_of_dict config_of_json json_of_config m
                     config_of_json_of_config) as Hwel.
  destruct d as [w n]. unfold document_of_json, json_of_document. simpl.
  assert (∀ jw jn,
    (∀ w0, w = Some w0 → dict_of_json config_of_json jw = Some w0) →
    (∀ n0, n = Some n0 →
       dict_of_json (dict_of_json int_of_json) jn = Some n0) →
    (let d := py_dict (match w with Some _ => [("welcomes", jw)] | None => [] end
                       ++ match n with Some _ => [("warns", jn)] | None => [] end)
     in
     w1 ← match d !! "welcomes" with
           | None => Some None
           | Some jw => Some <$> dict_of_json config_of_json jw
           end;
     n1 ← match d !! "warns" with
           | None => Some None
           | Some jn => Some <$> dict_of_json (dict_of_json int_of_json) jn
           end;
     Some {| welcomes := w1; warns := n1 |})
    = Some {| welcomes := w; warns := n |}) as Hgen.
  { intros jw jn Hw Hn. destruct w as [w0|], n as [n0|]; unfold py_dict; simpl;
      rewrite ?lookup_insert_eq, ?lookup_insert_ne by done;
      rewrite ?lookup_insert_eq, ?lookup_empty; simpl;
      rewrite ?(Hw _ eq_refl), ?(Hn _ eq_refl); done. }
  destruct w as [w0|], n as [n0|];
    first [ apply (Hgen (json_of_dict json_of_config w0)
                     (json_of_dict (json_of_dict JInt) n0))
          | apply (Hgen (json_of_dict json_of_config w0) JNull)
          | apply (Hgen JNull (json_of_dict (json_of_dict JInt) n0))
          | apply (Hgen JNull JNull) ];
    try (intros ? [= <-]; first [apply Hwel | apply Hwarns]); done.
Qed.

(** ** Saving and loading (C9) *)

(** C9. Saving a document and loading it again gives the document back,
    whatever welcome configurations and warn counters it holds, when the
    file is written and can be read. *)
Theorem save_then_load pf d w :
  write_file pf (calls w) (dumps (json_of_document d)) = Written →
  read_file_ok pf (calls w) = true →
  let saved := save_store pf d w in
  saved.1 = inr tt
  ∧ STORE_FILE saved.2 = Some (dumps (json_of_document d))
  ∧ load_store pf saved.2 = (inr d, saved.2)
  ∧ (let* _ := save_store pf d in startup pf) w
    = (inr tt, set_STORE d saved.2).
Proof.
  intros Hw Hr saved. subst saved.
  assert (save_store pf d w
          = (inr tt, set_STORE_FILE (Some (dumps (json_of_document d))) w)) as Es.
  { unfold save_store. by rewrite Hw. }
  assert (load_store pf (set_STORE_FILE (Some (dumps (json_of_document d))) w)
          = (inr d, set_STORE_FILE (Some (dumps (json_of_document d))) w)) as El.
  { unfold load_store. simpl. rewrite Hr, loads_dumps.
    by rewrite document_of_json_of_document. }
  rewrite Es. simpl. split; [done|]. split; [done|]. split; [done|].
  unfold bind, startup. rewrite Es. unfold bind. by rewrite El.
Qed.

Lemma save_then_load_witness :
  let pf := sample_platform None in
  let d :=
    {| welcomes :=
         Some {[ "5" := {| message := "Hi {user_mention}";
                           channel_link := Some "https://t.me/c";
                           last_welcome_message_id := Some 41 |};
                 "-100" := {| message := "Welcome"; channel_link := None;
                              last_welcome_message_id := None |} ]};
       warns := Some {[ "5" := {[ "9" := 2; "12" := 1 ]} ]} |} in
  load_store pf (save_store pf d sample_world).2
  = (inr d, (save_store pf d sample_world).2).
Proof.
  intros pf d.
  destruct (save_then_load pf d sample_world eq_refl eq_refl)
    as (_ & _ & H & _).
  exact H.
Defined.

(** * Further properties *)

(** ** The blacklist *)

Lemma blacklist_cmd_run pf update context owner a rest uid w :
  effective_user update = Some owner →
  user_id owner ∈ BOT_ADMINS pf →
  args context = a :: rest →
  py_int a = Some uid →
  blacklist_cmd pf update context w
  = (inr tt,
     add_call (ReplyText ("User " +:+ str_of_Z uid +:+ " blacklisted."))
       (set_BLACKLIST ({[uid]} ∪ BLACKLIST w) w)).
Proof.
  intros Hu Ho Ha Hi. unfold blacklist_cmd, is_bot_owner. unfold_handler.
  rewrite Hu. simpl. rewrite bool_decide_eq_true_2 by done. simpl.
  by rewrite Ha, Hi.
Qed.

Lemma unblacklist_cmd_run pf update context owner a rest uid w :
  effective_user update = Some owner →
  user_id owner ∈ BOT_ADMINS pf →
  args context = a :: rest →
  py_int a = Some uid →
  unblacklist_cmd pf update context w
  = (inr tt,
     add_call (ReplyText ("User " +:+ str_of_Z uid +:+ " removed from blacklist."))
       (set_BLACKLIST (BLACKLIST w ∖ {[uid]}) w)).
Proof.
  intros Hu Ho Ha Hi. unfold unblacklist_cmd, is_bot_owner. unfold_handler.
  rewrite Hu. simpl. rewrite bool_decide_eq_true_2 by done. simpl.
  by rewrite Ha, Hi.
Qed.

(** X1. An owner's [/blacklist <id>] adds the id to the blacklist and says
    so; from then on a [/search] of that user is dropped without a word,
    whatever it asks for. *)
Theorem blacklist_then_search pf update context owner a rest uid w :
  effective_user update = Some owner →
  user_id owner ∈ BOT_ADMINS pf →
  args context = a :: rest →
  py_int a = Some uid →
  let listed := blacklist_cmd pf update context w in
  listed.1 = inr tt
  ∧ BLACKLIST listed.2 = {[uid]} ∪ BLACKLIST w
  ∧ new_calls w listed
    = [ReplyText ("User " +:+ str_of_Z uid +:+ " blacklisted.")]
  ∧ ∀ update' context' victim,
      effective_user update' = Some victim →
      user_id victim = uid →
      search_cmd pf update' context' listed.2 = (inr tt, listed.2).
Proof.
  intros Hu Ho Ha Hi listed. subst listed.
  rewrite (blacklist_cmd_run pf update context owner a rest uid w Hu Ho Ha Hi).
  simpl. split; [done|]. split; [done|]. split; [by apply new_calls_app|].
  intros update' context' victim Hv Hid.
  unfold search_cmd. unfold_handler. rewrite Hv. simpl.
  rewrite bool_decide_eq_true_2; [done|].
  apply elem_of_union_l, elem_of_singleton. done.
Qed.

Lemma blacklist_then_search_witness :
  let pf := sample_platform None in
  let update :=
    {| effective_user := Some (sample_user 1);
       effective_chat := Some {| chat_id := 5 |};
       effective_message := sample_message;
       update_message := Some sample_message |} in
  let listed := blacklist_cmd pf update {| args := ["9"] |} sample_world in
  BLACKLIST listed.2 = {[9]} ∪ BLACKLIST sample_world.
Proof.
  intros pf update listed.
  refine (proj1 (proj2 (blacklist_then_search pf update {| args := ["9"] |}
                          (sample_user 1) "9" [] 9 sample_world
                          eq_refl _ eq_refl eq_refl))).
  by_compute.
Defined.

(** X2. An owner's [/unblacklist <id>] removes the id and nothing else, and
    reports a removal also when the id was not listed; after
    [/blacklist <id>] it gives back the blacklist there was, but for that
    id. *)
Theorem unblacklist_after_blacklist pf update context owner a rest uid w :
  effective_user update = Some owner →
  user_id owner ∈ BOT_ADMINS pf →
  args context = a :: rest →
  py_int a = Some uid →
  let removed := unblacklist_cmd pf update context w in
  let listed := blacklist_cmd pf update context w in
  let undone := unblacklist_cmd pf update context listed.2 in
  removed
  = (inr tt,
     add_call (ReplyText ("User " +:+ str_of_Z uid +:+ " removed from blacklist."))
       (set_BLACKLIST (BLACKLIST w ∖ {[uid]}) w))
  ∧ (uid ∉ BLACKLIST w → BLACKLIST removed.2 = BLACKLIST w)
  ∧ undone.1 = inr tt
  ∧ BLACKLIST undone.2 = BLACKLIST w ∖ {[uid]}
  ∧ STORE undone.2 = STORE w
  ∧ STORE_FILE undone.2 = STORE_FILE w.
Proof.
  intros Hu Ho Ha Hi removed listed undone. subst removed listed undone.
  rewrite (blacklist_cmd_run pf update context owner a rest uid w Hu Ho Ha Hi).
  rewrite !(unblacklist_cmd_run pf update context owner a rest uid _ Hu Ho Ha Hi).
  simpl. split; [done|].
  split; [intros Hn; apply difference_disjoint_L, disjoint_singleton_r, Hn|].
  split; [done|]. split; [|done].
  rewrite difference_union_distr_l_L, difference_diag_L. apply (left_id_L ∅ (∪)).
Qed.

Lemma unblacklist_after_blacklist_witness :
  let pf := sample_platform None in
  let update :=
    {| effective_user := Some (sample_user 1);
       effective_chat := Some {| chat_id := 5 |};
       effective_message := sample_message;
       update_message := Some sample_message |} in
  let context := {| args := ["7"] |} in
  BLACKLIST
    (unblacklist_cmd pf update context
       (blacklist_cmd pf update context sample_world).2).2
  = BLACKLIST sample_world ∖ {[7]}.
Proof.
  intros pf update context.
  refine (proj1 (proj2 (proj2 (proj2
            (unblacklist_after_blacklist pf update context (sample_user 1)
               "7" [] 7 sample_world eq_refl _ eq_refl eq_refl))))).
  by_compute.
Defined.

(** X3. The three commands on the blacklist are for owners only: to anybody
    else each of them says that they are not authorized, and changes
    nothing. *)
Theorem blacklist_commands_owner_only pf handler update context user w :
  handler ∈ blacklist_commands pf →
  effective_user update = Some user →
  user_id user ∉ BOT_ADMINS pf →
  handler update context w = (inr tt, add_call (ReplyText NOT_AUTHORIZED) w).
Proof.
  intros Hh Hu Ho. unfold blacklist_commands in Hh.
  repeat (apply elem_of_cons in Hh as [->|Hh]);
    [| | |by apply elem_of_nil in Hh];
    unfold blacklist_cmd, unblacklist_cmd, list_blacklist_cmd, is_bot_owner;
    unfold_handler; rewrite Hu; simpl;
    by rewrite bool_decide_eq_false_2.
Qed.

Lemma blacklist_commands_owner_only_witness :
  blacklist_cmd (sample_platform None) sample_update {| args := ["9"] |} sample_world
  = (inr tt, add_call (ReplyText NOT_AUTHORIZED) sample_world).
Proof.
  apply (blacklist_commands_owner_only (sample_platform None)
           (blacklist_cmd (sample_platform None)) sample_update
           {| args := ["9"] |} (sample_user 7) sample_world).
  - apply list_elem_of_here.
  - reflexivity.
  - by_compute.
Defined.

(** X4. [/list_blacklist] of an owner answers with one message: that the
    blacklist is empty, or the listed ids, each of them once, separated by
    commas. *)
Theorem list_blacklist_reply pf update context owner w :
  effective_user update = Some owner →
  user_id owner ∈ BOT_ADMINS pf →
  ∃ text,
    list_blacklist_cmd pf update context w = (inr tt, add_call (ReplyText text) w)
    ∧ (BLACKLIST w = ∅ → text = "Blacklist empty.")
    ∧ (BLACKLIST w ≠ ∅ →
       ∃ ids, NoDup ids ∧ (∀ i, i ∈ ids ↔ i ∈ BLACKLIST w)
              ∧ text = "Blacklist: " +:+ join ", " (str_of_Z <$> ids)).
Proof.
  intros Hu Ho. unfold list_blacklist_cmd, is_bot_owner. unfold_handler.
  rewrite Hu. simpl. rewrite bool_decide_eq_true_2 by done. simpl.
  destruct (decide (BLACKLIST w = ∅)) as [He|Hne].
  - rewrite bool_decide_eq_false_2 by (intros H; by apply H).
    eexists. split; [reflexivity|]. split; [done|]. intros H. by destruct H.
  - rewrite bool_decide_eq_true_2 by done.
    eexists. split; [reflexivity|]. split; [done|]. intros _.
    exists (elements (BLACKLIST w)). split; [apply NoDup_elements|].
    split; [|done]. intros i. apply elem_of_elements.
Qed.

Lemma list_blacklist_reply_witness :
  let update :=
    {| effective_user := Some (sample_user 1);
       effective_chat := None;
       effective_message := sample_message;
       update_message := None |} in
  ∃ text,
    list_blacklist_cmd (sample_platform None) update {| args := [] |} sample_world
    = (inr tt, add_call (ReplyText text) sample_world)
    ∧ (BLACKLIST sample_world = ∅ → text = "Blacklist empty.")
    ∧ (BLACKLIST sample_world ≠ ∅ →
       ∃ ids, NoDup ids ∧ (∀ i, i ∈ ids ↔ i ∈ BLACKLIST sample_world)
              ∧ text = "Blacklist: " +:+ join ", " (str_of_Z <$> ids)).
Proof.
  intros update.
  apply (list_blacklist_reply (sample_platform None) update {| args := [] |}
           (sample_user 1) sample_world).
  - reflexivity.
  - by_compute.
Defined.

(** X5. The handlers that read [update.effective_user.id] without a check
    raise [AttributeError] on an update that has no user (a channel post),
    before they do anything. *)
Theorem handlers_without_user_raise pf handler update context w :
  handler ∈ user_id_readers pf →
  effective_user update = None →
  handler update context w = (inl NONE_HAS_NO_ID, w).
Proof.
  intros Hh Hu. unfold user_id_readers in Hh.
  repeat (apply elem_of_cons in Hh as [->|Hh]);
    [| | | | | |by apply elem_of_nil in Hh];
    unfold search_cmd, blacklist_cmd, unblacklist_cmd, list_blacklist_cmd,
      setwelcome_cmd, clearwelcome_cmd;
    unfold_handler; rewrite Hu; simpl; try done;
    by destruct (effective_chat update).
Qed.

Lemma handlers_without_user_raise_witness :
  search_cmd (sample_platform None) (sample_join []) {| args := ["rocq"] |}
    sample_world
  = (inl NONE_HAS_NO_ID, sample_world).
Proof.
  apply (handlers_without_user_raise (sample_platform None)
           (search_cmd (sample_platform None))).
  - apply list_elem_of_here.
  - reflexivity.
Defined.

(** ** Search *)

(** X6. [/search] of somebody who is not blacklisted leaves the state of
    the bot as it is.  Without arguments it answers with the usage; a
    question about IP addresses is refused and never reaches DuckDuckGo; any
    other query (the arguments joined by spaces) is looked up once.  When
    [duckduckgo_search] returns a text, the text is sent back; when it
    raises, the handler raises the same after the request, without an
    answer. *)
Theorem search_cmd_answers pf update context user w :
  effective_user update = Some user →
  user_id user ∉ BLACKLIST w →
  let query := join " " (args context) in
  let run := search_cmd pf update context w in
  STORE run.2 = STORE w ∧ BLACKLIST run.2 = BLACKLIST w
  ∧ STORE_FILE run.2 = STORE_FILE w
  ∧ (args context = [] →
       run.1 = inr tt ∧ new_calls w run = [ReplyText "Usage: /search <query>"])
  ∧ (args context ≠ [] → is_ip_query pf (Some query) = true →
       run.1 = inr tt ∧ new_calls w run = [ReplyText IP_REFUSAL])
  ∧ (args context ≠ [] → is_ip_query pf (Some query) = false →
       match duckduckgo_search (duckduckgo_response pf (calls w) query) with
       | inr (JStr ans) =>
           run.1 = inr tt
           ∧ new_calls w run = [DuckDuckGo query; ReplyText ans]
       | inr _ =>
           run.1 = inl reply_no_text ∧ new_calls w run = [DuckDuckGo query]
       | inl e =>
           run.1 = inl e ∧ new_calls w run = [DuckDuckGo query]
       end).
Proof.
  intros Hu Hb query run. subst run query.
  unfold search_cmd, duckduckgo. unfold_handler. rewrite Hu. simpl.
  rewrite bool_decide_eq_false_2 by done.
  destruct (args context) as [|a l] eqn:Ea.
  - simpl. repeat split; try done. by apply new_calls_app.
  - unfold is_ip_query.
    destruct (negb (is_empty _) && IP_QUERY_RE_search pf _); simpl.
    + repeat split; try done. by apply new_calls_app.
    + destruct (duckduckgo_search _) as [e|[]]; simpl;
        repeat split; try done;
        apply new_calls_app; simpl; by rewrite <- ?app_assoc.
Qed.

Lemma search_cmd_answers_witness :
  let pf := sample_platform None in
  let update :=
    {| effective_user := Some (sample_user 8);
       effective_chat := None;
       effective_message := sample_message;
       update_message := None |} in
  let run := search_cmd pf update {| args := ["rocq"; "prover"] |} sample_world in
  run.1 = inr tt
  ∧ new_calls sample_world run
    = [DuckDuckGo "rocq prover"; ReplyText "No results found."].
Proof.
  intros pf update.
  refine (proj2 (proj2 (proj2 (proj2 (proj2
            (search_cmd_answers pf update {| args := ["rocq"; "prover"] |}
               (sample_user 8) sample_world eq_refl _))))) _ _).
  - by_compute.
  - done.
  - reflexivity.
Defined.

(** X7. A text message that is no command gets at most one answer, the
    refusal of a question about IP addresses; the bot looks nothing up and
    its state stays as it is.  A message without text, or with a text that
    is no such question, gets no answer at all. *)
Theorem plain_text_quiet pf update context w :
  let run := handle pf PlainText update context w in
  let asked := is_ip_query pf (text (effective_message update)) in
  run = (inr tt, if asked then add_call (ReplyText IP_REFUSAL) w else w)
  ∧ (text (effective_message update) = None → asked = false)
  ∧ (text (effective_message update) = Some EmptyString → asked = false).
Proof.
  simpl. unfold block_ip_handler, ignore_non_commands, is_ip_query, truthy_str.
  unfold_handler.
  destruct (text (effective_message update)) as [t|]; simpl; [|done].
  destruct (negb (is_empty t)) eqn:Et; simpl.
  - destruct (IP_QUERY_RE_search pf t); simpl; repeat split; try done.
    intros [= ->]. done.
  - done.
Qed.

(** ** Moderation *)

(** X8. [/kick] by an issuer who may restrict members, with a target: the
    target is banned without an expiry and then released.  When the ban
    fails, no release is tried; when the release fails, the target stays
    banned; either failure is reported as a failure to kick. *)
Theorem kick_cmd_steps pf update context user chat target w :
  effective_user update = Some user →
  effective_chat update = Some chat →
  may_restrict pf (chat_id chat) (user_id user) →
  target_of update context = Some target →
  let lookup := GetChatMember (chat_id chat) (user_id user) in
  let ban := BanChatMember (chat_id chat) target None in
  let unban := UnbanChatMember (chat_id chat) target in
  let run := kick_cmd pf update context w in
  run.1 = inr tt
  ∧ new_calls w run
    = match ban_chat_member pf (calls w ++ [lookup]) (chat_id chat) target None with
      | Some e => [lookup; ban; ReplyText ("Failed to kick: " +:+ e)]
      | None =>
          match unban_chat_member pf (calls w ++ [lookup; ban])
                  (chat_id chat) target with
          | Some e => [lookup; ban; unban; ReplyText ("Failed to kick: " +:+ e)]
          | None =>
              [lookup; ban; unban;
               ReplyText ("Kicked " +:+ str_of_Z target +:+ ".")]
          end
      end.
Proof.
  intros Hu Hc Ha Ht lookup ban unban run. subst run.
  rewrite (kick_cmd_resolved pf update context user chat Hu Hc Ha target w Ht).
  unfold_handler. simpl. fold lookup.
  destruct (ban_chat_member pf _ _ _ _) as [e|]; simpl.
  - split; [done|]. apply new_calls_app. simpl. by rewrite <- !app_assoc.
  - rewrite <- app_assoc. simpl. fold ban.
    destruct (unban_chat_member pf _ _ _) as [e|]; simpl;
      (split; [done|]); apply new_calls_app; simpl; by rewrite <- !app_assoc.
Qed.

Lemma kick_cmd_steps_witness :
  new_calls sample_world
    (kick_cmd (sample_platform (Some sample_admin)) sample_reply_update
       {| args := [] |} sample_world)
  = [GetChatMember 5 7; BanChatMember 5 9 None; UnbanChatMember 5 9;
     ReplyText "Kicked 9."].
Proof.
  refine (proj2 (kick_cmd_steps (sample_platform (Some sample_admin))
                   sample_reply_update {| args := [] |} (sample_user 7)
                   {| chat_id := 5 |} 9 sample_world eq_refl eq_refl _ eq_refl)).
  intros h. exists sample_admin. split; [reflexivity|]. right. by split.
Defined.

(** X9. [/unban] by an issuer who may restrict members, with a target: one
    release of the target in the chat of the command, and a reply that tells
    whether the platform accepted it. *)
Theorem unban_cmd_steps pf update context user chat target w :
  effective_user update = Some user →
  effective_chat update = Some chat →
  may_restrict pf (chat_id chat) (user_id user) →
  target_of update context = Some target →
  let lookup := GetChatMember (chat_id chat) (user_id user) in
  let run := unban_cmd pf update context w in
  run.1 = inr tt
  ∧ new_calls w run
    = [lookup; UnbanChatMember (chat_id chat) target;
       ReplyText
         match unban_chat_member pf (calls w ++ [lookup]) (chat_id chat) target with
         | Some e => "Failed to unban: " +:+ e
         | None => "Unbanned " +:+ str_of_Z target +:+ "."
         end].
Proof.
  intros Hu Hc Ha Ht lookup run. subst run.
  rewrite (unban_cmd_resolved pf update context user chat Hu Hc Ha target w Ht).
  unfold_handler. simpl. fold lookup.
  destruct (unban_chat_member pf _ _ _) as [e|]; simpl;
    (split; [done|]); apply new_calls_app; simpl; by rewrite <- !app_assoc.
Qed.

Lemma unban_cmd_steps_witness :
  new_calls sample_world
    (unban_cmd (sample_platform (Some sample_admin)) sample_update
       {| args := ["12"; "please"] |} sample_world)
  = [GetChatMember 5 7; UnbanChatMember 5 12; ReplyText "Unbanned 12."].
Proof.
  refine (proj2 (unban_cmd_steps (sample_platform (Some sample_admin))
                   sample_update {| args := ["12"; "please"] |} (sample_user 7)
                   {| chat_id := 5 |} 12 sample_world eq_refl eq_refl _ eq_refl)).
  intros h. exists sample_admin. split; [reflexivity|]. right. by split.
Defined.

(** X10. [/unmute] by an issuer who may restrict members, with a target,
    under a library that knows the eight flags: one restriction of the
    target, without an expiry, to the permissions of the unmute set, and a
    reply that tells whether the platform accepted it. *)
Theorem unmute_cmd_steps pf update context user chat target w :
  effective_user update = Some user →
  effective_chat update = Some chat →
  may_restrict pf (chat_id chat) (user_id user) →
  target_of update context = Some target →
  knows_canonical_flags (telegram_lib pf) →
  let lookup := GetChatMember (chat_id chat) (user_id user) in
  let run := unmute_cmd pf update context w in
  run.1 = inr tt
  ∧ new_calls w run
    = [lookup; RestrictChatMember (chat_id chat) target default_perms None;
       ReplyText
         match restrict_chat_member pf (calls w ++ [lookup]) (chat_id chat)
                 target default_perms None with
         | Some e => "Failed to unmute: " +:+ e
         | None => "Unmuted " +:+ str_of_Z target +:+ "."
         end].
Proof.
  intros Hu Hc Ha Ht Hk lookup run. subst run.
  destruct (unmute_cmd_resolved pf update context user chat Hu Hc Ha target w Ht)
    as (perms & Hp & ->).
  rewrite (make_chat_permissions_known _ _ Hk dom_default_perms) in Hp.
  injection Hp as <-.
  unfold_handler. simpl. fold lookup.
  destruct (restrict_chat_member pf _ _ _ _ _) as [e|]; simpl;
    (split; [done|]); apply new_calls_app; simpl; by rewrite <- !app_assoc.
Qed.

Lemma unmute_cmd_steps_witness :
  new_calls sample_world
    (unmute_cmd (sample_platform (Some sample_admin)) sample_reply_update
       {| args := [] |} sample_world)
  = [GetChatMember 5 7; RestrictChatMember 5 9 default_perms None;
     ReplyText "Unmuted 9."].
Proof.
  refine (proj2 (unmute_cmd_steps (sample_platform (Some sample_admin))
                   sample_reply_update {| args := [] |} (sample_user 7)
                   {| chat_id := 5 |} 9 sample_world eq_refl eq_refl _ eq_refl _)).
  - intros h. exists sample_admin. split; [reflexivity|]. right. by split.
  - split; by_compute.
Defined.

(** X11. [/mute] by an issuer who may restrict members, with a target and a
    duration that [parse_duration] accepts, that is not zero and that ends
    at a date [datetime] can hold, under a library that knows the eight
    flags: one restriction of the target to the full-mute set, which ends
    at the current time plus the duration; the reply repeats the duration
    as it was typed. *)
Theorem mute_cmd_steps pf update context user chat target dur_arg d w :
  effective_user update = Some user →
  effective_chat update = Some chat →
  may_restrict pf (chat_id chat) (user_id user) →
  mute_target_of update context = Some (target, dur_arg) →
  knows_canonical_flags (telegram_lib pf) →
  parse_duration dur_arg = inr (Some d) →
  d ≠ 0 →
  let lookup := GetChatMember (chat_id chat) (user_id user) in
  let until := now_utc pf (calls w ++ [lookup]) + d in
  0 ≤ until ≤ DATETIME_MAX →
  let run := mute_cmd pf update context w in
  run.1 = inr tt
  ∧ new_calls w run
    = [lookup;
       RestrictChatMember (chat_id chat) target CANONICAL_PERMS (Some until);
       ReplyText
         match restrict_chat_member pf (calls w ++ [lookup]) (chat_id chat)
                 target CANONICAL_PERMS (Some until) with
         | Some e => "Failed to mute: " +:+ e
         | None =>
             "Muted " +:+ str_of_Z target +:+ " for "
             +:+ default EmptyString dur_arg +:+ "."
         end].
Proof.
  intros Hu Hc Ha Ht Hk Hp Hd lookup until Hr run. subst run.
  assert (datetime_add (now_utc pf (calls w ++ [lookup])) d = inr until) as Hdt.
  { unfold datetime_add. fold until.
    rewrite (proj2 (Z.leb_le _ _) (proj1 Hr)), (proj2 (Z.leb_le _ _) (proj2 Hr)).
    done. }
  assert (build_full_mute_permissions (telegram_lib pf) = inr CANONICAL_PERMS)
    as Hperm by (by apply make_chat_permissions_known).
  rewrite (mute_cmd_resolved pf update context user chat Hu Hc Ha target dur_arg w Ht).
  unfold mute_steps. rewrite Hp. unfold_handler. simpl.
  unfold timedelta_truthy. rewrite (proj2 (Z.eqb_neq d 0) Hd). simpl.
  fold lookup. rewrite Hdt. simpl. rewrite Hperm. simpl.
  destruct (restrict_chat_member pf _ _ _ _ _) as [e|]; simpl;
    (split; [done|]); apply new_calls_app; simpl; by rewrite <- !app_assoc.
Qed.

Lemma mute_cmd_steps_witness :
  new_calls sample_world
    (mute_cmd (sample_platform (Some sample_admin)) sample_reply_update
       {| args := ["10m"] |} sample_world)
  = [GetChatMember 5 7;
     RestrictChatMember 5 9 CANONICAL_PERMS
       (Some (63900000600 * US_PER_SECOND));
     ReplyText "Muted 9 for 10m."].
Proof.
  refine (proj2 (mute_cmd_steps (sample_platform (Some sample_admin))
                   sample_reply_update {| args := ["10m"] |} (sample_user 7)
                   {| chat_id := 5 |} 9 (Some "10m") (600 * US_PER_SECOND)
                   sample_world eq_refl eq_refl _ eq_refl _ eq_refl _ _)).
  - intros h. exists sample_admin. split; [reflexivity|]. right. by split.
  - split; by_compute.
  - done.
  - by vm_compute.
Defined.

Lemma moderation_handler_refused pf m update context w w' :
  check_issuer_permission pf update (need_of m) w = (inr false, w') →
  moderation_handler pf m update context w = (inr tt, w').
Proof.
  intros H. destruct m; simpl in *;
    unfold kick_cmd, ban_cmd, unban_cmd, mute_cmd, unmute_cmd, warn_cmd;
    unfold bind at 1; by rewrite H.
Qed.

(** X12. Somebody who is neither the creator of the chat nor an
    administrator who can restrict members moderates nobody: each of the
    six commands ends after the lookup of the issuer with one reply that
    says why, so nobody is banned, released or restricted, no warning is
    counted and the state of the bot stays as it is. *)
Theorem moderation_denied pf m update context user chat w :
  effective_user update = Some user →
  effective_chat update = Some chat →
  may_not_restrict pf (chat_id chat) (user_id user) →
  ∃ reason,
    reason ∈ DENIALS
    ∧ moderation_handler pf m update context w
      = (inr tt,
         add_call (ReplyText reason)
           (add_call (GetChatMember (chat_id chat) (user_id user)) w)).
Proof.
  intros Hu Hc Hd. specialize (Hd (calls w)).
  assert (need_of m ∈ ["ban"; "kick"; "mute"]) as Hn
    by (destruct m; by_compute).
  destruct (get_chat_member pf (calls w) (chat_id chat) (user_id user))
    as [member|] eqn:Hf.
  - destruct Hd as [Hnc Hd].
    destruct (decide (status member = "administrator")) as [Hs|Hs].
    + destruct Hd as [Hd|Hd]; [done|].
      exists "You don't have permission to restrict/ban members (can_restrict_members).".
      split; [by_compute|]. apply moderation_handler_refused.
      rewrite (check_admin pf update user chat Hu Hc (need_of m) w member Hf Hs).
      rewrite Hd. by rewrite bool_decide_eq_true_2.
    + exists "You must be a chat admin to use this command.".
      split; [by_compute|]. apply moderation_handler_refused.
      by apply (check_not_admin pf update user chat Hu Hc (need_of m) w member).
  - exists "Failed to fetch your chat permissions.".
    split; [by_compute|]. apply moderation_handler_refused.
    by apply (check_fetch_failed pf update user chat Hu Hc).
Qed.

Lemma moderation_denied_witness :
  ∃ reason,
    reason ∈ DENIALS
    ∧ ban_cmd (sample_platform
                 (Some {| status := "administrator";
                          can_restrict_members := None;
                          can_delete_messages := Some true |}))
        sample_reply_update {| args := [] |} sample_world
      = (inr tt,
         add_call (ReplyText reason) (add_call (GetChatMember 5 7) sample_world)).
Proof.
  apply (moderation_denied
           (sample_platform
              (Some {| status := "administrator";
                       can_restrict_members := None;
                       can_delete_messages := Some true |}))
           Ban sample_reply_update {| args := [] |} (sample_user 7)
           {| chat_id := 5 |} sample_world eq_refl eq_refl).
  intros h. simpl. split; [done|]. by right.
Defined.

(** X13. On an update without a user or without a chat, each of the six
    moderation commands answers that it cannot determine them, asks the
    platform nothing and does nothing else. *)
Theorem moderation_without_user_or_chat pf m update context w :
  effective_user update = None ∨ effective_chat update = None →
  moderation_handler pf m update context w
  = (inr tt, add_call (ReplyText "Unable to determine user/chat.") w).
Proof.
  intros H. apply moderation_handler_refused.
  unfold check_issuer_permission.
  destruct H as [-> | ->]; [done|]. by destruct (effective_user update).
Qed.

Lemma moderation_without_user_or_chat_witness :
  warn_cmd (sample_platform (Some sample_admin)) (sample_join [])
    {| args := ["9"] |} sample_world
  = (inr tt,
     add_call (ReplyText "Unable to determine user/chat.") sample_world).
Proof.
  apply (moderation_without_user_or_chat (sample_platform (Some sample_admin))
           Warn (sample_join []) {| args := ["9"] |} sample_world).
  left. reflexivity.
Defined.

(** ** What the handlers leave alone *)

Section Keeps.

Context {X : Type} (f : World → X).
Hypothesis f_add_call : ∀ c w, f (add_call c w) = f w.

Lemma keeps_ret {A} (a : A) : keeps f (ret a).
Proof. done. Qed.

Lemma keeps_raise {A} e : keeps f (@raise A e).
Proof. done. Qed.

Lemma keeps_lift {A} (r : Exn + A) : keeps f (lift r).
Proof. by destruct r. Qed.

Lemma keeps_call {A} (answer : list Call → A) c : keeps f (call answer c).
Proof. intros w. apply f_add_call. Qed.

Lemma keeps_datetime_now pf : keeps f (datetime_now pf).
Proof. done. Qed.

Lemma keeps_bind {A B} (m : M A) (k : A → M B) :
  keeps f m → (∀ a, keeps f (k a)) → keeps f (bind m k).
Proof.
  intros Hm Hk w. unfold bind. specialize (Hm w).
  destruct (m w) as [[e|a] w1]; simpl in *; [done|]. by rewrite Hk.
Qed.

Lemma keeps_for_each {A} (l : list A) (body : A → M unit) :
  (∀ x, keeps f (body x)) → keeps f (for_each l body).
Proof.
  intros Hb. induction l as [|x l IH]; simpl; [done|].
  apply keeps_bind; auto.
Qed.

End Keeps.

Lemma keeps_blacklist_save_store pf d : keeps BLACKLIST (save_store pf d).
Proof. intros w. unfold save_store. by destruct (write_file _ _ _). Qed.

(** Proves that an element is in a list that is written out. *)
Ltac in_list :=
  rewrite !elem_of_cons; solve [repeat (first [left; reflexivity | right])].

(** Proves [keeps] along the structure of a computation. *)
Ltac keeps_step :=
  first
    [ apply keeps_ret | apply keeps_raise | apply keeps_lift
    | apply keeps_call; reflexivity | apply keeps_datetime_now
    | apply keeps_blacklist_save_store
    | apply keeps_for_each; intros
    | apply keeps_bind; [|intros]
    | match goal with
      | |- keeps _ (match ?x with _ => _ end) => destruct x
      | |- keeps _ (let '(_, _) := ?x in _) => destruct x
      | |- keeps _ get_STORE => by intros ?
      | |- keeps _ get_BLACKLIST => by intros ?
      | |- keeps BLACKLIST (put_STORE _) => by intros ?
      | |- keeps persistent (put_BLACKLIST _) => by intros ?
      end ].

Ltac keeps :=
  unfold reply_text, bot_get_chat_member, bot_ban_chat_member,
    bot_unban_chat_member, bot_restrict_chat_member, bot_delete_message,
    bot_send_message, duckduckgo, int_of_arg, effective_user_id, effective_chat_id,
    none_has_no_attribute;
  solve [repeat keeps_step].

Lemma keeps_check {X} (f : World → X) pf update need :
  (∀ c w, f (add_call c w) = f w) →
  keeps f (check_issuer_permission pf update need).
Proof.
  intros Hf. unfold check_issuer_permission, reply_text, bot_get_chat_member.
  repeat first
    [ apply keeps_ret | apply keeps_call; exact Hf
    | apply keeps_bind; [|intros]
    | match goal with
      | |- keeps _ (match ?x with _ => _ end) => destruct x
      end ].
Qed.

Lemma keeps_persistent_handlers pf route update context :
  route ∉ STORE_WRITERS →
  keeps persistent (handle pf route update context).
Proof.
  intros Hr. destruct route as [name| |]; simpl.
  - repeat case_bool_decide; subst;
      try (exfalso; apply Hr; unfold STORE_WRITERS, BLACKLIST_WRITERS; in_list);
      unfold start, search_cmd, blacklist_cmd, unblacklist_cmd,
        list_blacklist_cmd, kick_cmd, ban_cmd, unban_cmd, mute_cmd,
        unmute_cmd, help_cmd, resolve_target;
      try (apply keeps_bind; [by apply keeps_check|intros]);
      keeps.
  - exfalso. apply Hr. unfold STORE_WRITERS. in_list.
  - unfold block_ip_handler, ignore_non_commands. keeps.
Qed.

Lemma keeps_blacklist_handlers pf route update context :
  route ∉ BLACKLIST_WRITERS →
  keeps BLACKLIST (handle pf route update context).
Proof.
  intros Hr. destruct route as [name| |]; simpl.
  - repeat case_bool_decide; subst;
      try (exfalso; apply Hr; unfold STORE_WRITERS, BLACKLIST_WRITERS; in_list);
      unfold start, search_cmd, list_blacklist_cmd, kick_cmd, ban_cmd,
        unban_cmd, mute_cmd, unmute_cmd, warn_cmd, setwelcome_cmd,
        clearwelcome_cmd, help_cmd, resolve_target, is_chat_admin;
      try (apply keeps_bind; [by apply keeps_check|intros]);
      keeps.
  - unfold welcome_handler, welcome_member. keeps.
  - unfold block_ip_handler, ignore_non_commands. keeps.
Qed.

(** X14. Who writes what.  Only [/blacklist] and [/unblacklist] change the
    blacklist; only [/warn], [/setwelcome], [/clearwelcome] and the
    welcome of new members change the document or the store file.  Every
    other update, a command the bot does not know included, leaves them as
    they are, whatever the platform answers and also when the handler
    raises. *)
Theorem handlers_keep_state pf route update context w :
  let run := handle pf route update context w in
  (route ∉ BLACKLIST_WRITERS → BLACKLIST run.2 = BLACKLIST w)
  ∧ (route ∉ STORE_WRITERS →
     STORE run.2 = STORE w ∧ STORE_FILE run.2 = STORE_FILE w).
Proof.
  split.
  - intros Hr. by apply keeps_blacklist_handlers.
  - intros Hr.
    pose proof (keeps_persistent_handlers pf route update context Hr w) as H.
    unfold persistent in H. by injection H.
Qed.

(** ** The store file follows the document *)

Lemma persisted_load_store pf w :
  persisted w → read_file_ok pf (calls w) = true →
  load_store pf w = (inr (STORE w), w).
Proof.
  unfold persisted, stored_document, load_store. intros Hp ->.
  destruct (STORE_FILE w) as [content|]; [|by injection Hp as <-].
  destruct (loads content) as [j|]; [by rewrite Hp|].
  destruct (is_empty (skip_ws content)); [by injection Hp as <- | done].
Qed.

Lemma startup_persisted pf w :
  read_file_ok pf (calls w) = true →
  (startup pf w).1 = inr tt → persisted (startup pf w).2.
Proof.
  unfold startup, persisted, stored_document, bind, load_store, put_STORE.
  intros ->. destruct (STORE_FILE w) as [content|] eqn:Ef; simpl;
    [|by rewrite Ef].
  destruct (loads content) as [j|] eqn:El; simpl.
  - destruct (document_of_json j) as [d|] eqn:Ed; simpl; [|done].
    by rewrite Ef, El, Ed.
  - destruct (is_empty (skip_ws content)) eqn:Ee; simpl; [|done].
    by rewrite Ef, El, Ee.
Qed.

Lemma keeps_persisted_keeps {A} (m : M A) :
  keeps persistent m → keeps_persisted m.
Proof.
  intros Hk w. specialize (Hk w). unfold persistent in Hk.
  injection Hk as Hs Hf. unfold persisted, stored_document.
  by rewrite Hs, Hf.
Qed.

Lemma keeps_persisted_bind {A B} (m : M A) (k : A → M B) :
  keeps_persisted m → (∀ a, keeps_persisted (k a)) → keeps_persisted (bind m k).
Proof.
  intros Hm Hk w Hw. unfold bind. specialize (Hm w Hw).
  destruct (m w) as [[e|a] w1]; simpl in *; [done|]. by apply Hk.
Qed.

Lemma keeps_persisted_for_each {A} (l : list A) (body : A → M unit) :
  (∀ x, keeps_persisted (body x)) → keeps_persisted (for_each l body).
Proof.
  intros Hb. induction l as [|x l IH]; simpl; [by intros ?|].
  apply keeps_persisted_bind; auto.
Qed.

Section Saving.

Variable pf : Platform.
Hypothesis disk_writes : ∀ h content, write_file pf h content = Written.

Lemma keeps_persisted_save {B} d (k : M B) :
  keeps_persisted k →
  keeps_persisted
    (put_STORE d;; let* store := get_STORE in save_store pf store;; k).
Proof.
  intros Hk w _. unfold bind at 1. unfold put_STORE. unfold bind at 1.
  unfold get_STORE. simpl. unfold bind at 1. unfold save_store.
  rewrite disk_writes. apply Hk.
  unfold persisted, stored_document. simpl.
  by rewrite loads_dumps, document_of_json_of_document.
Qed.

Lemma keeps_persisted_save_last d :
  keeps_persisted
    (put_STORE d;; let* store := get_STORE in save_store pf store).
Proof.
  intros w _. unfold bind at 1. unfold put_STORE. unfold bind at 1.
  unfold get_STORE. simpl. unfold save_store.
  rewrite disk_writes.
  unfold persisted, stored_document. simpl.
  by rewrite loads_dumps, document_of_json_of_document.
Qed.

End Saving.

(** Proves [keeps_persisted] along the structure of a computation. *)
Ltac keeps_persisted_step disk :=
  first
    [ apply keeps_persisted_save; [exact disk|]
    | apply keeps_persisted_save_last; exact disk
    | apply keeps_persisted_keeps;
      first [ apply keeps_check; reflexivity | keeps ]
    | apply keeps_persisted_for_each; intros
    | apply keeps_persisted_bind; [|intros]
    | match goal with
      | |- keeps_persisted (match ?x with _ => _ end) => destruct x
      | |- keeps_persisted (let '(_, _) := ?x in _) => destruct x
      end ].

Lemma handle_keeps_persisted pf route update context :
  (∀ h content, write_file pf h content = Written) →
  keeps_persisted (handle pf route update context).
Proof.
  intros disk.
  destruct (decide (route ∈ STORE_WRITERS)) as [Hr|Hr];
    [|by apply keeps_persisted_keeps, keeps_persistent_handlers].
  unfold STORE_WRITERS in Hr.
  repeat (apply elem_of_cons in Hr as [->|Hr]);
    [| | | |by apply elem_of_nil in Hr]; simpl;
    unfold warn_cmd, setwelcome_cmd, clearwelcome_cmd, welcome_handler,
      welcome_member, resolve_target, is_chat_admin;
    solve [repeat keeps_persisted_step disk].
Qed.

(** X15. The store file follows the document.  When the program has started
    and the disk takes every write, then after any sequence of updates the
    store file holds the document that is in memory: a start of the program
    at that point reads back that very document, with every warn counter
    and every welcome configuration. *)
Theorem restart_restores_document pf events w0 :
  (∀ h content, write_file pf h content = Written) →
  (∀ h, read_file_ok pf h = true) →
  (startup pf w0).1 = inr tt →
  let w := run_events pf events (startup pf w0).2 in
  load_store pf w = (inr (STORE w), w).
Proof.
  intros disk Hread Hstart w.
  apply persisted_load_store; [|apply Hread].
  subst w.
  pose proof (startup_persisted pf w0 (Hread _) Hstart) as Hp.
  revert Hp. generalize (startup pf w0).2. clear Hstart.
  induction events as [|[[route update] context] events IH]; intros w Hw;
    simpl; [done|].
  apply IH. by apply handle_keeps_persisted.
Qed.

Lemma restart_restores_document_witness :
  let pf := sample_platform (Some sample_admin) in
  let events :=
    [(Command "warn", sample_reply_update, {| args := [] |});
     (Command "setwelcome", sample_update, {| args := ["Hi"; "{user_mention}"] |});
     (NewChatMembers, sample_join [sample_user 20], {| args := [] |})] in
  let w := run_events pf events (startup pf sample_world).2 in
  load_store pf w = (inr (STORE w), w).
Proof.
  intros pf events.
  apply (restart_restores_document pf events sample_world).
  - intros h content. reflexivity.
  - intros h. reflexivity.
  - reflexivity.
Defined.

(** ** Configuring the welcome *)

Lemma list_index_app x pre rest :
  x ∉ pre → list_index x (pre ++ x :: rest) = Some (length pre).
Proof.
  intros Hx. induction pre as [|y pre IH]; simpl.
  - by rewrite bool_decide_eq_true_2.
  - apply not_elem_of_cons in Hx as [Hy Hx].
    rewrite bool_decide_eq_false_2 by done. by rewrite IH.
Qed.

Lemma list_index_None x l : x ∉ l → list_index x l = None.
Proof.
  intros Hx. induction l as [|y l IH]; simpl; [done|].
  apply not_elem_of_cons in Hx as [Hy Hx].
  rewrite bool_decide_eq_false_2 by done. by rewrite IH.
Qed.

Lemma welcome_arguments_link pre link post :
  "--channel" ∉ pre →
  welcome_arguments (pre ++ "--channel" :: link :: post) = (Some link, pre ++ post).
Proof.
  intros Hx. unfold welcome_arguments. rewrite list_index_app by done.
  rewrite lookup_app_r by lia.
  replace (S (length pre) - length pre)%nat with 1%nat by lia. simpl.
  rewrite take_app_length.
  rewrite drop_app_add'; done.
Qed.

Lemma welcome_arguments_dangling pre :
  "--channel" ∉ pre →
  welcome_arguments (pre ++ ["--channel"]) = (None, pre ++ ["--channel"]).
Proof.
  intros Hx. unfold welcome_arguments. rewrite list_index_app by done.
  rewrite lookup_app_r by lia.
  replace (S (length pre) - length pre)%nat with 1%nat by lia. done.
Qed.

Lemma welcome_arguments_plain args :
  "--channel" ∉ args → welcome_arguments args = (None, args).
Proof. intros Hx. unfold welcome_arguments. by rewrite list_index_None. Qed.

(** What [/setwelcome] of an administrator does when it has arguments or
    replies to a message. *)
Lemma setwelcome_cmd_run pf update context user chat w :
  effective_user update = Some user →
  effective_chat update = Some chat →
  always_admin pf (chat_id chat) (user_id user) →
  args context ≠ [] ∨ reply_to_message (effective_message update) ≠ None →
  let key := str_of_Z (chat_id chat) in
  let lookup := GetChatMember (chat_id chat) (user_id user) in
  let parsed := welcome_arguments (args context) in
  let text := welcome_message_of update parsed.2 in
  let run := setwelcome_cmd pf update context w in
  run.1 = inr tt
  ∧ BLACKLIST run.2 = BLACKLIST w
  ∧ if is_empty text
    then STORE run.2 = STORE w ∧ STORE_FILE run.2 = STORE_FILE w
         ∧ new_calls w run = [lookup; ReplyText "No welcome text provided."]
    else STORE run.2 = configured key (new_config text parsed.1) (STORE w)
         ∧ new_calls w run = [lookup; ReplyText SAVED].
Proof.
  intros Hu Hc Ha Hargs key lookup parsed text run.
  subst run. unfold setwelcome_cmd.
  unfold effective_chat_id, effective_user_id. rewrite Hu, Hc.
  rewrite !bind_ret, bind_run, is_chat_admin_true by done. simpl negb. cbv iota.
  fold lookup.
  assert (∀ m : M unit,
    (match args context, reply_to_message (effective_message update) with
     | [], None => m
     | _, _ =>
         let '(channel_link, args) := welcome_arguments (args context) in
         let text := strip (join " " args) in
         let text :=
           if is_empty text then default text (replied_text_of update) else text in
         if is_empty text then reply_text "No welcome text provided."
         else
           let chat_key := str_of_Z (chat_id chat) in
           let* store := get_STORE in
           put_STORE
             (set_welcomes
                (Some (<[chat_key := {| message := text;
                                        channel_link := channel_link;
                                        last_welcome_message_id := None |}]>
                         (default ∅ (welcomes store))))
                store);;
           let* store := get_STORE in
           save_store pf store;;
           reply_text "Welcome message saved for this chat."
     end)
    = (let '(channel_link, args) := welcome_arguments (args context) in
       let text := strip (join " " args) in
       let text :=
         if is_empty text then default text (replied_text_of update) else text in
       if is_empty text then reply_text "No welcome text provided."
       else
         let chat_key := str_of_Z (chat_id chat) in
         let* store := get_STORE in
         put_STORE
           (set_welcomes
              (Some (<[chat_key := {| message := text;
                                      channel_link := channel_link;
                                      last_welcome_message_id := None |}]>
                       (default ∅ (welcomes store))))
              store);;
         let* store := get_STORE in
         save_store pf store;;
         reply_text "Welcome message saved for this chat.")) as Hshape.
  { intros m. destruct (args context) as [|a l]; [|done].
    destruct (reply_to_message (effective_message update)); [done|].
    by destruct Hargs. }
  unfold welcome_arguments in Hshape at 1. rewrite Hshape. clear Hshape.
  subst text. unfold welcome_message_of. subst parsed.
  destruct (welcome_arguments (args context)) as [link rest]. simpl.
  destruct (is_empty (if is_empty _ then _ else _)) eqn:Et.
  - unfold_handler. simpl. repeat split.
    apply new_calls_app. simpl. by rewrite <- app_assoc.
  - unfold_handler. unfold save_store. simpl.
    destruct (write_file pf _ _); simpl; repeat split;
      apply new_calls_app; simpl; by rewrite <- app_assoc.
Qed.

Lemma is_empty_false s : s ≠ EmptyString → is_empty s = false.
Proof. by destruct s. Qed.

Lemma welcome_config_configured key cfg d :
  welcome_config (configured key cfg d) key = Some cfg.
Proof. unfold welcome_config, configured. simpl. apply lookup_insert_eq. Qed.

Lemma welcome_config_configured_ne key key' cfg d :
  key' ≠ key →
  welcome_config (configured key cfg d) key' = welcome_config d key'.
Proof.
  intros Hk. unfold welcome_config, configured. simpl.
  rewrite lookup_insert_ne by done. by destruct (welcomes d).
Qed.

(** X16. [/setwelcome <words> --channel <link> <words>] of an administrator
    stores, for the chat of the command, the words before and after joined
    by spaces as the message and the link as the channel, with no id of a
    welcome sent: an earlier configuration of the chat is replaced and the
    id it held is forgotten.  The configurations of the other chats and the
    warn counters stay as they are. *)
Theorem setwelcome_channel pf update context user chat pre link post w :
  effective_user update = Some user →
  effective_chat update = Some chat →
  always_admin pf (chat_id chat) (user_id user) →
  args context = pre ++ "--channel" :: link :: post →
  "--channel" ∉ pre →
  let text := strip (join " " (pre ++ post)) in
  text ≠ EmptyString →
  let key := str_of_Z (chat_id chat) in
  let run := setwelcome_cmd pf update context w in
  run.1 = inr tt
  ∧ welcome_config (STORE run.2) key = Some (new_config text (Some link))
  ∧ (∀ key', key' ≠ key →
       welcome_config (STORE run.2) key' = welcome_config (STORE w) key')
  ∧ warns (STORE run.2) = warns (STORE w)
  ∧ new_calls w run
    = [GetChatMember (chat_id chat) (user_id user); ReplyText SAVED].
Proof.
  intros Hu Hc Ha Hargs Hpre text Ht key run.
  destruct (setwelcome_cmd_run pf update context user chat w Hu Hc Ha)
    as (Hok & _ & Hrun).
  { left. rewrite Hargs. by destruct pre. }
  rewrite Hargs, welcome_arguments_link in Hrun by done.
  unfold welcome_message_of in Hrun. simpl in Hrun. fold text in Hrun.
  rewrite (is_empty_false text Ht) in Hrun.
  rewrite (is_empty_false text Ht) in Hrun.
  destruct Hrun as [Hs Hcalls]. subst run. rewrite Hs.
  split; [done|]. split; [apply welcome_config_configured|].
  split; [intros key' Hk; by apply welcome_config_configured_ne|]. done.
Qed.

Lemma setwelcome_channel_witness :
  let pf := sample_platform (Some sample_admin) in
  let context := {| args := ["Hi"; "{user_mention}"; "--channel"; "t.me/c"; "!"] |} in
  welcome_config (STORE (setwelcome_cmd pf sample_update context sample_world).2) "5"
  = Some (new_config "Hi {user_mention} !" (Some "t.me/c")).
Proof.
  intros pf context.
  refine (proj1 (proj2 (setwelcome_channel pf sample_update context
                          (sample_user 7) {| chat_id := 5 |}
                          ["Hi"; "{user_mention}"] "t.me/c" ["!"] sample_world
                          eq_refl eq_refl _ eq_refl _ _))).
  - intros h. exists sample_admin. split; [reflexivity|]. by_compute.
  - by_compute.
  - done.
Defined.

(** X17. Without a link to take, all arguments are the message.
    [/setwelcome <words>] of an administrator stores the words joined by
    spaces with no channel; so it does when the words end in [--channel]
    with nothing behind it, and [--channel] is then part of the message. *)
Theorem setwelcome_words pf update context user chat w :
  effective_user update = Some user →
  effective_chat update = Some chat →
  always_admin pf (chat_id chat) (user_id user) →
  "--channel" ∉ args context
  ∨ (∃ pre, args context = pre ++ ["--channel"] ∧ "--channel" ∉ pre) →
  let text := strip (join " " (args context)) in
  text ≠ EmptyString →
  let run := setwelcome_cmd pf update context w in
  run.1 = inr tt
  ∧ welcome_config (STORE run.2) (str_of_Z (chat_id chat))
    = Some (new_config text None)
  ∧ new_calls w run
    = [GetChatMember (chat_id chat) (user_id user); ReplyText SAVED].
Proof.
  intros Hu Hc Ha Hargs text Ht run.
  assert (args context ≠ []) as Hne.
  { intros E. subst text. by rewrite E in Ht. }
  destruct (setwelcome_cmd_run pf update context user chat w Hu Hc Ha)
    as (Hok & _ & Hrun); [by left|].
  assert (welcome_arguments (args context) = (None, args context)) as Hparse.
  { destruct Hargs as [Hn | (pre & -> & Hn)].
    - by apply welcome_arguments_plain.
    - by apply welcome_arguments_dangling. }
  rewrite Hparse in Hrun. unfold welcome_message_of in Hrun. simpl in Hrun.
  fold text in Hrun. rewrite !(is_empty_false text Ht) in Hrun.
  destruct Hrun as [Hs Hcalls]. subst run. rewrite Hs.
  split; [done|]. split; [apply welcome_config_configured|done].
Qed.

Lemma setwelcome_words_witness :
  let pf := sample_platform (Some sample_admin) in
  let context := {| args := ["Welcome"; "--channel"] |} in
  welcome_config (STORE (setwelcome_cmd pf sample_update context sample_world).2) "5"
  = Some (new_config "Welcome --channel" None).
Proof.
  intros pf context.
  refine (proj1 (proj2 (setwelcome_words pf sample_update context
                          (sample_user 7) {| chat_id := 5 |} sample_world
                          eq_refl eq_refl _ _ _))).
  - intros h. exists sample_admin. split; [reflexivity|]. by_compute.
  - right. exists ["Welcome"]. split; [reflexivity|by_compute].
  - done.
Defined.



Lemma is_chat_admin_false pf chat user w :
  never_admin pf chat user →
  is_chat_admin pf chat user w = (inr false, add_call (GetChatMember chat user) w).
Proof.
  intros Hn. unfold is_chat_admin. unfold_handler. simpl.
  specialize (Hn (calls w)).
  destruct (get_chat_member pf (calls w) chat user) as [member|]; [|done].
  by rewrite bool_decide_eq_false_2.
Qed.

(** X19. The welcome of a chat is for its administrators to set and to
    clear: to anybody else, and when the platform cannot tell who the
    issuer is, [/setwelcome] and [/clearwelcome] answer that one must be an
    administrator, and the document, the store file and the blacklist stay
    as they are. *)
Theorem welcome_commands_admin_only pf update context user chat w :
  effective_user update = Some user →
  effective_chat update = Some chat →
  never_admin pf (chat_id chat) (user_id user) →
  let lookup := GetChatMember (chat_id chat) (user_id user) in
  setwelcome_cmd pf update context w
  = (inr tt,
     add_call (ReplyText "You must be a chat admin to set welcome message.")
       (add_call lookup w))
  ∧ clearwelcome_cmd pf update context w
    = (inr tt,
       add_call (ReplyText "You must be a chat admin to clear welcome.")
         (add_call lookup w)).
Proof.
  intros Hu Hc Hn lookup.
  split; unfold setwelcome_cmd, clearwelcome_cmd;
    unfold effective_chat_id, effective_user_id; rewrite Hu, Hc;
    rewrite !bind_ret, bind_run, is_chat_admin_false by done; done.
Qed.

Lemma welcome_commands_admin_only_witness :
  let pf :=
    sample_platform (Some {| status := "member"; can_restrict_members := None;
                             can_delete_messages := None |}) in
  setwelcome_cmd pf sample_update {| args := ["Hi"] |} sample_world
  = (inr tt,
     add_call (ReplyText "You must be a chat admin to set welcome message.")
       (add_call (GetChatMember 5 7) sample_world)).
Proof.
  intros pf.
  refine (proj1 (welcome_commands_admin_only pf sample_update {| args := ["Hi"] |}
                   (sample_user 7) {| chat_id := 5 |} sample_world
                   eq_refl eq_refl _)).
  intros h. simpl. by_compute.
Defined.

(** X20. [/setwelcome] of an administrator that comes with no text stores
    nothing.  Without arguments and without a message replied to it answers
    with the usage; with [--channel <link>] alone, or in reply to a message
    that has no text, it answers that no welcome text was provided. *)
Theorem setwelcome_without_text pf update context user chat w :
  effective_user update = Some user →
  effective_chat update = Some chat →
  always_admin pf (chat_id chat) (user_id user) →
  welcome_message_of update (welcome_arguments (args context)).2 = EmptyString →
  let lookup := GetChatMember (chat_id chat) (user_id user) in
  setwelcome_cmd pf update context w
  = (inr tt,
     add_call
       (ReplyText
          match args context, reply_to_message (effective_message update) with
          | [], None =>
              "Usage: /setwelcome <text> [--channel <link>]. Use {user_mention} in text."
          | _, _ => "No welcome text provided."
          end)
       (add_call lookup w)).
Proof.
  intros Hu Hc Ha Ht lookup.
  unfold setwelcome_cmd.
  unfold effective_chat_id, effective_user_id. rewrite Hu, Hc.
  rewrite !bind_ret, bind_run, is_chat_admin_true by done. simpl negb. cbv iota.
  fold lookup. unfold welcome_message_of, welcome_arguments in Ht.
  destruct (args context) as [|a l] eqn:Ea.
  - destruct (reply_to_message (effective_message update)) eqn:Er; [|done].
    cbv beta iota zeta delta [snd list_index] in Ht.
    cbv beta iota zeta delta [list_index]. by rewrite Ht.
  - destruct (list_index "--channel" (a :: l)) as [i|];
      [destruct ((a :: l) !! S i)|];
      cbv beta iota zeta delta [snd] in Ht; cbv beta iota zeta; rewrite Ht;
      by destruct (reply_to_message (effective_message update)).
Qed.

Lemma setwelcome_without_text_witness :
  let pf := sample_platform (Some sample_admin) in
  setwelcome_cmd pf sample_update {| args := ["--channel"; "t.me/c"] |}
    sample_world
  = (inr tt,
     add_call (ReplyText "No welcome text provided.")
       (add_call (GetChatMember 5 7) sample_world)).
Proof.
  intros pf.
  apply (setwelcome_without_text pf sample_update
           {| args := ["--channel"; "t.me/c"] |} (sample_user 7)
           {| chat_id := 5 |} sample_world eq_refl eq_refl).
  - intros h. exists sample_admin. split; [reflexivity|]. by_compute.
  - reflexivity.
Defined.

(** ** Numbers as texts *)

Lemma all_digits_digits u : all_chars is_digit (digits u) = true.
Proof. induction u; simpl; done. Qed.

Lemma int_body_digits u : int_body true (digits u) = Some u.
Proof. induction u; simpl; rewrite ?IHu; done. Qed.

Lemma int_body_digits_first u :
  u ≠ Nil → int_body false (digits u) = Some u.
Proof. destruct u; simpl; rewrite ?int_body_digits; done. Qed.


Lemma lstrip_by_head p c r : p c = false → lstrip_by p (String c r) = String c r.
Proof. simpl. by intros ->. Qed.

Lemma rstrip_by_fix p s :
  all_chars (λ c, negb (p c)) s = true → rstrip_by p s = s.
Proof.
  induction s as [|c s IH]; simpl; [done|].
  intros [Hc Hs]%andb_true_iff. rewrite (IH Hs).
  apply negb_true_iff in Hc. rewrite Hc. by destruct s.
Qed.

Lemma digits_no_c_space u :
  all_chars (λ c, negb (is_c_space c)) (digits u) = true.
Proof. induction u; simpl; done. Qed.

Lemma int_of_uint_digits u :
  (nb_digits u ≤ INT_MAX_STR_DIGITS)%nat → int_of_uint u = Some (Z.of_uint u).
Proof.
  intros H. unfold int_of_uint, digit_count. by rewrite (proj2 (Nat.leb_le _ _) H).
Qed.

Lemma py_int_digits u :
  u ≠ Nil → (nb_digits u ≤ INT_MAX_STR_DIGITS)%nat →
  py_int (digits u) = Some (Z.of_uint u).
Proof.
  intros Hu Hn. unfold py_int.
  assert (lstrip_by is_c_space (digits u) = digits u) as -> by (by destruct u).
  rewrite rstrip_by_fix by apply digits_no_c_space.
  assert (int_body false (digits u) = Some u) as Hb
    by (destruct u; simpl; rewrite ?int_body_digits; done).
  destruct u; [done|..]; cbn [digits]; cbn [digits] in Hb; rewrite Hb; simpl;
    by apply int_of_uint_digits.
Qed.

Lemma py_int_minus_digits u :
  u ≠ Nil → (nb_digits u ≤ INT_MAX_STR_DIGITS)%nat →
  py_int (String "-" (digits u)) = Some (- Z.of_uint u).
Proof.
  intros Hu Hn. unfold py_int.
  rewrite lstrip_by_head by done.
  rewrite rstrip_by_fix by (simpl; apply digits_no_c_space).
  assert (int_body false (digits u) = Some u) as ->
    by (destruct u; simpl; rewrite ?int_body_digits; done).
  simpl. by rewrite (int_of_uint_digits u Hn).
Qed.

(** The digits of a number are no more than those of a literal with that
    value. *)
Lemma to_uint_of_uint_digits u p :
  Z.of_uint u = Z.pos p → (nb_digits (Pos.to_uint p) ≤ nb_digits u)%nat.
Proof.
  unfold Z.of_uint. intros H.
  destruct (Pos.of_uint u) as [|q] eqn:E; [done|]. injection H as ->.
  pose proof (DecimalPos.Unsigned.to_of u) as Ht. rewrite E in Ht.
  simpl in Ht. rewrite Ht. apply nb_digits_unorm.
  intros ->. done.
Qed.

Lemma py_int_value a z :
  py_int a = Some z →
  ∃ u, (nb_digits u ≤ INT_MAX_STR_DIGITS)%nat
       ∧ (z = Z.of_uint u ∨ z = - Z.of_uint u).
Proof.
  unfold py_int.
  assert (∀ r z, int_body false r ≫= int_of_uint = Some z →
            ∃ u, (nb_digits u ≤ INT_MAX_STR_DIGITS)%nat ∧ z = Z.of_uint u) as Hbody.
  { intros r z' (u & _ & Hu)%bind_Some. exists u.
    unfold int_of_uint, digit_count in Hu.
    destruct (nb_digits u <=? INT_MAX_STR_DIGITS)%nat eqn:E; [|done].
    apply Nat.leb_le in E. injection Hu as <-. done. }
  intros H. repeat case_match;
    try (apply Hbody in H as (u & Hn & ->); exists u; by auto).
  apply fmap_Some in H as (z' & H & ->).
  apply Hbody in H as (u & Hn & ->). exists u. by auto.
Qed.

(** What [str] writes of a number that [int] has read, [int] reads as the
    same number. *)
Lemma py_int_reads_str a z : py_int a = Some z → py_int (str_of_Z z) = Some z.
Proof.
  intros (u & Hn & Hz)%py_int_value. unfold str_of_Z.
  destruct z as [|p|p]; simpl.
  - reflexivity.
  - rewrite py_int_digits; [by rewrite of_uint_to_uint | apply to_uint_head |].
    etrans; [|exact Hn]. apply to_uint_of_uint_digits.
    unfold Z.of_uint in *. lia.
  - rewrite py_int_minus_digits; [by rewrite of_uint_to_uint | apply to_uint_head |].
    etrans; [|exact Hn]. apply to_uint_of_uint_digits.
    unfold Z.of_uint in *. lia.
Qed.

(** X21. The id that the answer of [/blacklist] shows is one that
    [/unblacklist] reads.  After an owner's [/blacklist <a>] has listed the
    id and answered with it, an owner's [/unblacklist] with the id as that
    answer shows it takes the id off the list again and says so. *)
Theorem unblacklist_printed_id pf update context update' context' owner owner'
    a rest rest' uid w :
  effective_user update = Some owner →
  user_id owner ∈ BOT_ADMINS pf →
  args context = a :: rest →
  py_int a = Some uid →
  effective_user update' = Some owner' →
  user_id owner' ∈ BOT_ADMINS pf →
  args context' = str_of_Z uid :: rest' →
  let listed := blacklist_cmd pf update context w in
  let undone := unblacklist_cmd pf update' context' listed.2 in
  listed.1 = inr tt
  ∧ new_calls w listed
    = [ReplyText ("User " +:+ str_of_Z uid +:+ " blacklisted.")]
  ∧ uid ∈ BLACKLIST listed.2
  ∧ undone.1 = inr tt
  ∧ new_calls listed.2 undone
    = [ReplyText ("User " +:+ str_of_Z uid +:+ " removed from blacklist.")]
  ∧ BLACKLIST undone.2 = BLACKLIST w ∖ {[uid]}.
Proof.
  intros Hu Ho Ha Hi Hu' Ho' Ha' listed undone. subst listed undone.
  rewrite (blacklist_cmd_run pf update context owner a rest uid w Hu Ho Ha Hi).
  rewrite (unblacklist_cmd_run pf update' context' owner' (str_of_Z uid) rest'
             uid _ Hu' Ho' Ha' (py_int_reads_str a uid Hi)).
  simpl. split; [done|].
  split; [by apply new_calls_app|].
  split; [apply elem_of_union_l; by apply elem_of_singleton|].
  split; [done|].
  split; [by apply new_calls_app|].
  rewrite difference_union_distr_l_L, difference_diag_L. apply (left_id_L ∅ (∪)).
Qed.

Lemma unblacklist_printed_id_witness :
  let pf := sample_platform None in
  let update :=
    {| effective_user := Some (sample_user 1);
       effective_chat := Some {| chat_id := 5 |};
       effective_message := sample_message;
       update_message := Some sample_message |} in
  let listed := blacklist_cmd pf update {| args := [" +0_7 "] |} sample_world in
  new_calls sample_world listed = [ReplyText "User 7 blacklisted."]
  ∧ BLACKLIST (unblacklist_cmd pf update {| args := ["7"] |} listed.2).2
    = BLACKLIST sample_world ∖ {[7]}.
Proof.
  intros pf update.
  destruct (unblacklist_printed_id pf update {| args := [" +0_7 "] |}
              update {| args := ["7"] |} (sample_user 1) (sample_user 1)
              " +0_7 " [] [] 7 sample_world)
    as (_ & Hcalls & _ & _ & _ & Hlist); try reflexivity; try by_compute.
  split; [exact Hcalls | exact Hlist].
Defined.

(** ** The text of a welcome *)

Lemma replace_placeholder new rest :
  replace "{user_mention}" new ("{user_mention}" +:+ rest)
  = new +:+ replace "{user_mention}" new rest.
Proof.
  unfold replace. str_simpl. by destruct rest.
Qed.

Lemma prefix_other_head x old c r :
  x ≠ c → String.prefix (String x old) (String c r) = false.
Proof. intros H. cbn [String.prefix]. by destruct (ascii_dec x c). Qed.

Lemma replace_from_other old new c r :
  String.prefix old (String c r) = false →
  replace_from O old new (String c r) = String c (replace_from O old new r).
Proof. intros H. cbn [replace_from]. by rewrite H. Qed.

Lemma replace_no_brace pre new rest :
  no_brace pre →
  replace "{user_mention}" new (pre +:+ rest)
  = pre +:+ replace "{user_mention}" new rest.
Proof.
  unfold no_brace, replace. induction pre as [|c pre IH]; [done|].
  cbn [all_chars]. intros [Hc Hpre]%andb_prop.
  rewrite !app_cons_str. rewrite replace_from_other.
  - by rewrite IH.
  - apply prefix_other_head. intros <-. done.
Qed.

Lemma replace_no_brace_all new s :
  no_brace s → replace "{user_mention}" new s = s.
Proof.
  intros Hs. rewrite <- (app_nil_r_str s) at 1.
  rewrite replace_no_brace by done. apply app_nil_r_str.
Qed.

(** X22. Every placeholder of a template is replaced by the mention, and
    nothing else is touched: a template that is pieces of text without
    braces with [{user_mention}] between them becomes the pieces with the
    mention between them.  The mention itself is not read again. *)
Theorem welcome_text_mentions segments mention :
  segments ≠ [] →
  Forall no_brace segments →
  welcome_text (join "{user_mention}" segments) None mention
  = join mention segments.
Proof.
  intros Hne Hs. unfold welcome_text. simpl. clear Hne.
  induction Hs as [|x [|y r] Hx Hr IH]; [done| |].
  - simpl. by apply replace_no_brace_all.
  - change (join "{user_mention}" (x :: y :: r))
      with (x +:+ "{user_mention}" +:+ join "{user_mention}" (y :: r)).
    change (join mention (x :: y :: r))
      with (x +:+ mention +:+ join mention (y :: r)).
    rewrite replace_no_brace by done. rewrite replace_placeholder.
    by rewrite IH.
Qed.

Lemma welcome_text_mentions_witness :
  welcome_text "Hi {user_mention}, read the rules, {user_mention}!" None
    "<a href='tg://user?id=9'>Ann</a>"
  = "Hi <a href='tg://user?id=9'>Ann</a>, read the rules, <a href='tg://user?id=9'>Ann</a>!".
Proof.
  apply (welcome_text_mentions ["Hi "; ", read the rules, "; "!"]
           "<a href='tg://user?id=9'>Ann</a>").
  - done.
  - repeat constructor.
Defined.

Lemma endswith_char_spec c s :
  endswith_char c s = true → ∃ body, s = body +:+ String c EmptyString.
Proof.
  induction s as [|d s IH]; simpl; [done|].
  destruct s as [|e s].
  - intros ->%Ascii.eqb_eq. by exists EmptyString.
  - intros H. destruct (IH H) as [body E]. exists (String d body).
    str_simpl. by rewrite <- E.
Qed.

Lemma endswith_char_app c body :
  endswith_char c (body +:+ String c EmptyString) = true.
Proof.
  induction body as [|d body IH]; str_simpl; [apply Ascii.eqb_refl|].
  cbn [endswith_char]. rewrite IH.
  by destruct (body +:+ String c EmptyString) eqn:E; [destruct body|].
Qed.

(** X23. The line of the channel.  An empty link counts as none.  With a
    link that is not empty the text of a welcome is the message, an empty
    line and [Channel: <link>]: a message that ends in a line break is
    followed by one more line break and the line of the channel, any other
    message by two. *)
Theorem welcome_text_channel template link mention :
  let message := welcome_text template None mention in
  let text := welcome_text template (Some link) mention in
  welcome_text template (Some EmptyString) mention = message
  ∧ (link ≠ EmptyString →
     (∀ body, message = body +:+ NL →
        text = body +:+ NL +:+ NL +:+ "Channel: " +:+ link)
     ∧ ((∀ body, message ≠ body +:+ NL) →
        text = message +:+ NL +:+ NL +:+ "Channel: " +:+ link)).
Proof.
  intros message text. split; [done|]. intros Hl. subst message text.
  unfold welcome_text. simpl. rewrite (is_empty_false link Hl). simpl.
  set (text := replace "{user_mention}" mention template).
  split.
  - intros body E. rewrite E. unfold NL at 1. rewrite endswith_char_app.
    by rewrite !app_assoc_str.
  - intros Hn. destruct (endswith_char "010" text) eqn:Ee.
    + destruct (endswith_char_spec _ _ Ee) as [body E]. by destruct (Hn body).
    + by rewrite !app_assoc_str.
Qed.

Lemma welcome_text_channel_witness :
  welcome_text ("Hi {user_mention}" +:+ NL) (Some "t.me/x") "Ann"
  = "Hi Ann" +:+ NL +:+ NL +:+ "Channel: t.me/x"
  ∧ welcome_text "Hi {user_mention}" (Some "t.me/x") "Ann"
    = "Hi Ann" +:+ NL +:+ NL +:+ "Channel: t.me/x".
Proof.
  split.
  - refine (proj1 (proj2 (welcome_text_channel ("Hi {user_mention}" +:+ NL)
                            "t.me/x" "Ann") _) "Hi Ann" _); done.
  - refine (proj2 (proj2 (welcome_text_channel "Hi {user_mention}"
                            "t.me/x" "Ann") _) _); [done|].
    intros body E. pose proof (endswith_char_app "010" body) as H.
    unfold NL in E. rewrite <- E in H. discriminate H.
Defined.

(** ** When the disk fails *)

Lemma load_store_stored pf w d :
  stored_document w = Some d → read_file_ok pf (calls w) = true →
  load_store pf w = (inr d, w).
Proof.
  unfold stored_document, load_store. intros Hd ->.
  destruct (STORE_FILE w) as [content|]; [|by injection Hd as <-].
  destruct (loads content) as [j|]; [by rewrite Hd|].
  destruct (is_empty (skip_ws content)); [by injection Hd as <- | done].
Qed.

(** X24. A write that fails goes unnoticed.  When the store file cannot be
    written and stays as it was, [/warn] still counts the warning in memory
    and reports the new total; the file has the old document, and that is
    what a start of the program reads: the warning is lost with the
    process. *)
Theorem warn_cmd_unsaved pf update context user chat target w :
  effective_user update = Some user →
  effective_chat update = Some chat →
  may_restrict pf (chat_id chat) (user_id user) →
  target_of update context = Some target →
  persisted w →
  (∀ h content, write_file pf h content = WriteFailed (STORE_FILE w)) →
  let ck := str_of_Z (chat_id chat) in
  let tk := str_of_Z target in
  let count := default 0 (warn_counter (STORE w) ck tk) + 1 in
  let run := warn_cmd pf update context w in
  run.1 = inr tt
  ∧ new_calls w run
    = [GetChatMember (chat_id chat) (user_id user);
       ReplyText ("Warned " +:+ tk +:+ " (" +:+ str_of_Z count +:+ " total).")]
  ∧ warn_counter (STORE run.2) ck tk = Some count
  ∧ STORE_FILE run.2 = STORE_FILE w
  ∧ (read_file_ok pf (calls run.2) = true →
     load_store pf run.2 = (inr (STORE w), run.2)).
Proof.
  intros Hu Hc Ha Ht Hp Hdisk ck tk count run. subst run.
  rewrite (warn_cmd_run pf update context w user chat target Hu Hc Ha Ht).
  rewrite Hdisk. simpl. split; [done|].
  split; [apply new_calls_app; simpl; by rewrite <- app_assoc|].
  split; [apply warn_counter_warned|]. split; [done|].
  intros Hr. by apply load_store_stored.
Qed.

Lemma warn_cmd_unsaved_witness :
  let pf :=
    {| BOT_ADMINS := ∅;
       telegram_lib := sample_lib;
       get_chat_member := λ _ _ _, Some sample_admin;
       ban_chat_member := λ _ _ _ _, None;
       unban_chat_member := λ _ _ _, None;
       restrict_chat_member := λ _ _ _ _ _, None;
       delete_message := λ _ _ _, None;
       send_message := λ _ _ _ _, inl "offline";
       duckduckgo_response := λ _ _, RequestFailed;
       IP_QUERY_RE_search := λ _, false;
       now_utc := λ _, 0;
       write_file := λ _ _, WriteFailed None;
       read_file_ok := λ _, true |} in
  let run := warn_cmd pf sample_reply_update {| args := [] |} sample_world in
  warn_counter (STORE run.2) "5" "9" = Some 1
  ∧ load_store pf run.2 = (inr empty_document, run.2).
Proof.
  intros pf run.
  destruct (warn_cmd_unsaved pf sample_reply_update {| args := [] |}
              (sample_user 7) {| chat_id := 5 |} 9 sample_world
              eq_refl eq_refl)
    as (_ & _ & Hcount & _ & Hload).
  - intros h. exists sample_admin. split; [reflexivity|]. right. by split.
  - reflexivity.
  - reflexivity.
  - intros h content. reflexivity.
  - split; [exact Hcount | by apply Hload].
Defined.

(** X25. A store file that cannot be read is replaced.  When the file is
    there but reading it fails at the start, the program starts with the
    empty document and says nothing; the first warning after that writes a
    file which holds this one warning and nothing of what the file held
    before. *)
Theorem unreadable_store_replaced pf update context user chat target w0 :
  read_file_ok pf (calls w0) = false →
  (∀ h content, write_file pf h content = Written) →
  effective_user update = Some user →
  effective_chat update = Some chat →
  may_restrict pf (chat_id chat) (user_id user) →
  target_of update context = Some target →
  let started := startup pf w0 in
  let run := warn_cmd pf update context started.2 in
  started = (inr tt, set_STORE empty_document w0)
  ∧ run.1 = inr tt
  ∧ STORE_FILE run.2
    = Some (dumps (json_of_document
                     (warned (str_of_Z (chat_id chat)) (str_of_Z target)
                        empty_document))).
Proof.
  intros Hr Hdisk Hu Hc Ha Ht started run.
  assert (started = (inr tt, set_STORE empty_document w0)) as Es.
  { subst started. unfold startup, bind, load_store. rewrite Hr.
    by destruct (STORE_FILE w0). }
  subst run. rewrite Es. split; [done|].
  rewrite (warn_cmd_run pf update context _ user chat target Hu Hc Ha Ht).
  rewrite Hdisk. done.
Qed.

Lemma unreadable_store_replaced_witness :
  let pf :=
    {| BOT_ADMINS := ∅;
       telegram_lib := sample_lib;
       get_chat_member := λ _ _ _, Some sample_admin;
       ban_chat_member := λ _ _ _ _, None;
       unban_chat_member := λ _ _ _, None;
       restrict_chat_member := λ _ _ _ _ _, None;
       delete_message := λ _ _ _, None;
       send_message := λ _ _ _ _, inl "offline";
       duckduckgo_response := λ _ _, RequestFailed;
       IP_QUERY_RE_search := λ _, false;
       now_utc := λ _, 0;
       write_file := λ _ _, Written;
       read_file_ok := λ h, negb (bool_decide (h = [])) |} in
  let w0 :=
    {| STORE := empty_document; BLACKLIST := ∅;
       STORE_FILE := Some (dumps (json_of_document
                                    (warned "5" "9" (warned "5" "9" empty_document))));
       calls := [] |} in
  let run := warn_cmd pf sample_reply_update {| args := [] |} (startup pf w0).2 in
  STORE_FILE run.2
  = Some (dumps (json_of_document (warned "5" "9" empty_document))).
Proof.
  intros pf w0.
  refine (proj2 (proj2 (unreadable_store_replaced pf sample_reply_update
                          {| args := [] |} (sample_user 7) {| chat_id := 5 |} 9
                          w0 _ _ eq_refl eq_refl _ eq_refl))).
  - reflexivity.
  - intros h content. reflexivity.
  - intros h. exists sample_admin. split; [reflexivity|]. right. by split.
Defined.

(** ** DuckDuckGo helper: the choice of the answer *)

(** X26. What [duckduckgo_search] returns is never empty: whatever the
    data, the answer it hands to the reply is a value that counts as true,
    so not the empty text. *)
Theorem duckduckgo_answer_not_empty response answer :
  duckduckgo_answer response = inr answer →
  truthy_json answer = true ∧ answer ≠ JStr EmptyString.
Proof.
  intros H.
  assert (truthy_json answer = true) as Ht; [|split; [done|by intros ->]].
  unfold duckduckgo_answer in H.
  destruct response as [[| | | | |kvs]|]; try done; [|by injection H as <-].
  destruct (truthy_json (data_get kvs "Answer")) eqn:Ea;
    [by injection H as <-|].
  destruct (truthy_json (data_get kvs "AbstractText")) eqn:Eb;
    [by injection H as <-|].
  cbv zeta in H.
  destruct (truthy_json (data_get kvs "RelatedTopics")) eqn:Ec;
    [|by injection H as <-].
  destruct (data_get kvs "RelatedTopics") as [| | | |topics|]; try done.
  destruct (topic_titles topics) as [e|titles]; [done|].
  destruct (join_items 0 (take 3 titles)) as [e|texts]; [done|].
  injection H as <-. simpl.
  by destruct (is_empty (join " | " texts)) eqn:Ej; [|rewrite Ej].
Qed.

Lemma duckduckgo_answer_not_empty_witness :
  truthy_json (JStr NO_RESULTS) = true ∧ JStr NO_RESULTS ≠ JStr EmptyString.
Proof.
  apply (duckduckgo_answer_not_empty
           (Some (JObj [("Answer", JStr EmptyString);
                        ("RelatedTopics",
                         JArr [JObj [("Name", JStr "Software")]])]))).
  reflexivity.
Defined.

Lemma join_items_texts i texts : join_items i (JStr <$> texts) = inr texts.
Proof.
  revert i. induction texts as [|s texts IH]; intros i; simpl; [done|].
  by rewrite IH.
Qed.

(** X27. The answer from the related topics.  When the data are an object
    with no answer and no abstract, and the related topics are objects whose
    texts are texts, [duckduckgo_search] returns the texts of the first
    three topics that have one, in their order, with a bar between them;
    topics without a text are passed over.  When no topic has a text, or
    the three are empty, it says that there are no results. *)
Theorem duckduckgo_answer_titles kvs topics texts :
  truthy_json (data_get kvs "Answer") = false →
  truthy_json (data_get kvs "AbstractText") = false →
  data_get kvs "RelatedTopics" = JArr topics →
  topic_titles topics = inr (JStr <$> texts) →
  let joined := join " | " (take 3 texts) in
  duckduckgo_answer (Some (JObj kvs))
  = inr (JStr (if is_empty joined then NO_RESULTS else joined)).
Proof.
  intros Ha Hb Ht Htitles joined. unfold duckduckgo_answer.
  rewrite Ha, Hb, Ht. cbv zeta.
  destruct topics as [|t topics]; simpl truthy_json; cbv iota.
  - injection Htitles as Hn. symmetry in Hn. apply fmap_nil_inv in Hn.
    subst joined. by rewrite Hn.
  - rewrite Htitles. rewrite <- fmap_take. by rewrite join_items_texts.
Qed.

Lemma duckduckgo_answer_titles_witness :
  let topics :=
    [JObj [("Text", JStr "Rocq, a proof assistant")];
     JObj [("Name", JStr "Software"); ("Topics", JArr [])];
     JObj [("Text", JStr "Coq au vin")];
     JObj [("Text", JStr "Rooster")];
     JObj [("Text", JStr "Gallus")]] in
  let kvs :=
    [("Answer", JStr EmptyString); ("AbstractText", JStr EmptyString);
     ("RelatedTopics", JArr topics)] in
  duckduckgo_answer (Some (JObj kvs))
  = inr (JStr "Rocq, a proof assistant | Coq au vin | Rooster").
Proof.
  intros topics kvs.
  apply (duckduckgo_answer_titles kvs topics
           ["Rocq, a proof assistant"; "Coq au vin"; "Rooster"; "Gallus"]);
    by vm_compute.
Defined.
